(** * proplot: colormap normalizers, colormap dictionary and argument
      standardisation

    A shallow embedding of the parts of [proplot/colortools.py] and
    [proplot/axes/plot.py] that carry checkable behaviour, followed by the
    properties proved about them.

    Conventions of the embedding.
    - Floating point numbers are rationals ([Q]); equality of computed
      numbers is [Qeq] ([==]).  Rounding and overflow are not modelled.
      The further properties are therefore stated so that rounding keeps
      them (orders that are not strict, bounds, entries of a table,
      shapes), on inputs where the float operations are exact, or they
      say that they hold in exact arithmetic.
    - A Python exception is a value of [exn]; a call that may raise returns
      [result A].
    - A one dimensional numpy array of finite numbers is a [list Q];
      indices are in [Z] so that Python's negative indices can be written
      out.  Where the code writes [nan] into an array (module [plot]) an
      entry is an [option Q].
    - Python text is a [string] of 8-bit characters, [str.lower] acts on
      the ASCII capital letters. *)

From Stdlib Require Import QArith Qminmax Qround Lqa Lia List ZArith String Ascii Bool.
From stdpp Require Import gmap strings list fin_maps.

Set Default Proof Using "Type".

(** ** Exceptions and results *)

Inductive exn : Set :=
| ValueError
| KeyError
| IndexError
| TypeError
| AttributeError.

Inductive result (A : Type) : Type :=
| Ok (a : A)
| Raise (e : exn).

Arguments Ok {A} a.
Arguments Raise {A} e.

#[global] Instance result_ret : MRet result := fun A a => Ok a.
#[global] Instance result_bind : MBind result := fun A B f m =>
  match m with
  | Ok a => f a
  | Raise e => Raise e
  end.

Definition raises {A} (r : result A) (e : exn) : Prop := r = Raise e.

Definition returns {A} (r : result A) : Prop := exists a, r = Ok a.

(** ** The numpy operations the sources use *)

Module np.
Local Open Scope Q_scope.

(** [a[1:] - a[:-1]] *)
Definition diff (a : list Q) : list Q :=
  zip_with Qminus (tail a) (removelast a).

(** [a.min()] and [a.max()]; numpy raises [ValueError] on an empty array. *)
Definition amin (a : list Q) : result Q :=
  match a with
  | [] => Raise ValueError
  | x :: a' => Ok (fold_left Qmin a' x)
  end.

Definition amax (a : list Q) : result Q :=
  match a with
  | [] => Raise ValueError
  | x :: a' => Ok (fold_left Qmax a' x)
  end.

(** [np.searchsorted(a, v)] with the default [side='left'] on an ascending
    array: the index [i] with [a[i-1] < v <= a[i]]. *)
Fixpoint searchsorted (a : list Q) (v : Q) : nat :=
  match a with
  | [] => 0
  | x :: a' => if Qlt_le_dec x v then S (searchsorted a' v) else 0
  end.

Definition len (a : list Q) : Z := Z.of_nat (length a).

(** [a[i]] for an integer [i]: negative indices count from the end, an
    index outside the array raises [IndexError]. *)
Definition getitem (a : list Q) (i : Z) : result Q :=
  let j := if (i <? 0)%Z then (i + len a)%Z else i in
  if (j <? 0)%Z then Raise IndexError
  else match nth_error a (Z.to_nat j) with
       | Some v => Ok v
       | None => Raise IndexError
       end.

(** [np.linspace(start, stop, n)] for [n >= 2]: [start + i*step] with
    [step = (stop - start)/(n - 1)]. *)
Definition linspace_item (start stop : Q) (n i : nat) : Q :=
  let step := (stop - start) / inject_Z (Z.of_nat n - 1) in
  inject_Z (Z.of_nat i) * step + start.

Definition linspace (start stop : Q) (n : nat) : list Q :=
  map (linspace_item start stop n) (seq 0 n).

(** [((a[1:] - a[:-1]) > 0).all()] *)
Definition increasing (a : list Q) : Prop :=
  Forall (fun d => 0 < d) (diff a).

(** [np.arange(n)] *)
Definition arange (n : nat) : list Q :=
  map (fun i => inject_Z (Z.of_nat i)) (seq 0 n).

(** [np.cumsum(a)] *)
Fixpoint cumsum_from (acc : Q) (a : list Q) : list Q :=
  match a with
  | [] => []
  | x :: a' => (acc + x) :: cumsum_from (acc + x) a'
  end.

Definition cumsum (a : list Q) : list Q := cumsum_from 0 a.
End np.

(** ** [BinNorm] (colortools.py) *)

Module BinNorm.
Local Open Scope Q_scope.

Record t : Type := mk {
  _norm : Q -> Q;
  _x_b : list Q;
  _y : list Q;
  boundaries : list Q;
  vmin : Q;
  vmax : Q;
  clip : bool;
  N : nat
}.

(** [extend or 'both']: [None] and the empty string are falsy. *)
Definition extend_or_both (extend : option string) : string :=
  match extend with
  | None => "both"
  | Some EmptyString => "both"
  | Some s => s
  end.

Definition str_in (s : string) (options : list string) : bool :=
  existsb (String.eqb s) options.

(** [y = (x_m - lo)/(hi - lo); y = y[np.isfinite(y)]].  The entries of
    [x_m - lo] are finite, so a quotient is finite exactly when the
    divisor is not zero: with a zero divisor every entry is [nan] or
    [inf] and is filtered out. *)
Definition finite_quotients (num : list Q) (den : Q) : list Q :=
  if Qeq_bool den 0 then [] else map (fun v => v / den) num.

(** [levels] is the array after [np.atleast_1d]; [norm] is [None] or a
    transform applied entry by entry; [extend] is [None] or a [str].  The
    array [y] is a plain array, so the branch for masked arrays is not
    taken. *)
Definition __init__ (levels : list Q) (norm : option (Q -> Q))
    (clip : bool) (step : Q) (extend : option string) : result t :=
  let extend := extend_or_both extend in
  if (length levels <=? 1)%nat then Raise ValueError
  else if existsb (fun d => Qle_bool d 0) (np.diff levels) then Raise ValueError
  else if negb (str_in extend ["both"; "min"; "max"; "neither"]%string)
  then Raise ValueError
  else
    let norm := default (fun x => x) norm in
    let x_b := map norm levels in
    let x_m := zip_with (fun a b => (a + b) / 2) (tail x_b) (removelast x_b) in
    lo ← np.amin x_m;
    hi ← np.amax x_m;
    let y := finite_quotients (map (fun v => v - lo) x_m) (hi - lo) in
    let eps := step / inject_Z (Z.of_nat (length levels)) in
    let offset := if str_in extend ["min"; "both"]%string then eps else 0 in
    let scale := 1 - (if str_in extend ["min"; "both"]%string then eps else 0) in
    let scale := scale - (if str_in extend ["max"; "both"]%string then eps else 0) in
    let y := [0] ++ map (fun v => offset + scale * v) y ++ [1] in
    lmin ← np.amin levels;
    lmax ← np.amax levels;
    Ok {| _norm := norm; _x_b := x_b; _y := y;
          boundaries := levels; vmin := lmin; vmax := lmax;
          clip := clip; N := length levels |}.

(** [__call__] on one finite value [xq]. *)
Definition __call__ (self : t) (xq : Q) : result Q :=
  let xq := _norm self xq in
  np.getitem (_y self) (Z.of_nat (np.searchsorted (_x_b self) xq)).

Definition inverse (self : t) (yq : Q) : result Q := Raise ValueError.

(** The conditions under which the constructor refuses its arguments. *)
Definition extend_options : list string := ["both"; "min"; "max"; "neither"].

Definition invalid (levels : list Q) (extend : option string) : Prop :=
  (length levels < 2)%nat
  \/ ~ np.increasing levels
  \/ ~ In (extend_or_both extend) extend_options.

(** The same with the [extend] argument taken as it is passed. *)
Definition invalid_as_passed (levels : list Q) (extend : option string) : Prop :=
  (length levels < 2)%nat
  \/ ~ np.increasing levels
  \/ ~ In extend (map Some extend_options).

Definition smallest (m : Q) (a : list Q) : Prop :=
  In m a /\ Forall (fun v => m <= v) a.

Definition largest (m : Q) (a : list Q) : Prop :=
  In m a /\ Forall (fun v => v <= m) a.

(** The test of the levels in [__init__],
    [levels.size <= 1 or ((levels[1:] - levels[:-1]) <= 0).any()], on an
    array that may hold [nan] ([None]): a difference with [nan] is [nan],
    and [nan <= 0] is false. *)
Definition float_diff (levels : list (option Q)) : list (option Q) :=
  zip_with (fun a b => match a, b with
                       | Some a, Some b => Some (a - b)
                       | _, _ => None
                       end)
    (tail levels) (removelast levels).

Definition levels_refused (levels : list (option Q)) : bool :=
  (length levels <=? 1)%nat
  || existsb (fun d => match d with Some d => Qle_bool d 0 | None => false end)
       (float_diff levels).
End BinNorm.

(** ** [LinearSegmentedNorm] (colortools.py) *)

Module LinearSegmentedNorm.
Local Open Scope Q_scope.

Record t : Type := mk {
  _x : list Q;
  _y : list Q;
  vmin : Q;
  vmax : Q;
  clip : bool
}.

(** [levels] is the array after [np.atleast_1d]. *)
Definition __init__ (levels : list Q) (clip : bool) : result t :=
  if (length levels <=? 1)%nat then Raise ValueError
  else if existsb (fun d => Qle_bool d 0) (np.diff levels) then Raise ValueError
  else
    lmin ← np.amin levels;
    lmax ← np.amax levels;
    Ok {| _x := levels; _y := np.linspace 0 1 (length levels);
          vmin := lmin; vmax := lmax; clip := clip |}.

(** [__call__] and [inverse] on one finite value; the quotient is a float
    division, which does not raise. *)
Definition __call__ (self : t) (xq : Q) : result Q :=
  let x := _x self in
  let y := _y self in
  let ind := Z.of_nat (np.searchsorted x xq) in
  let ind := if (ind =? 0)%Z then 1%Z else ind in
  let ind := if (ind =? np.len x)%Z then (np.len x - 1)%Z else ind in
  xl ← np.getitem x (ind - 1);
  xr ← np.getitem x ind;
  let distance := (xq - xl) / (xr - xl) in
  yr ← np.getitem y ind;
  yl ← np.getitem y (ind - 1);
  Ok (distance * (yr - yl) + yl).

Definition inverse (self : t) (yq : Q) : result Q :=
  let x := _x self in
  let y := _y self in
  let ind := Z.of_nat (np.searchsorted y yq) in
  let ind := if (ind =? 0)%Z then 1%Z else ind in
  let ind := if (ind =? np.len y)%Z then (np.len y - 1)%Z else ind in
  yl ← np.getitem y (ind - 1);
  yr ← np.getitem y ind;
  let distance := (yq - yl) / (yr - yl) in
  xr ← np.getitem x ind;
  xl ← np.getitem x (ind - 1);
  Ok (distance * (xr - xl) + xl).
End LinearSegmentedNorm.

(** ** [MidpointNorm] (colortools.py) *)

Module MidpointNorm.
Local Open Scope Q_scope.

Record t : Type := mk {
  vmin : Q;
  vmax : Q;
  clip : bool;
  _midpoint : Q
}.

Definition __init__ (midpoint vmin vmax : Q) (clip : bool) : t :=
  {| vmin := vmin; vmax := vmax; clip := clip; _midpoint := midpoint |}.

Definition __call__ (self : t) (xq : Q) : result Q :=
  if Qle_bool (_midpoint self) (vmin self) || Qle_bool (vmax self) (_midpoint self)
  then Raise ValueError
  else
    let x := [vmin self; _midpoint self; vmax self] in
    let y := [0; 1 # 2; 1] in
    let ind := Z.of_nat (np.searchsorted x xq) in
    let ind := if (ind =? 0)%Z then 1%Z else ind in
    let ind := if (ind =? np.len x)%Z then (np.len x - 1)%Z else ind in
    xl ← np.getitem x (ind - 1);
    xr ← np.getitem x ind;
    let distance := (xq - xl) / (xr - xl) in
    yr ← np.getitem y ind;
    yl ← np.getitem y (ind - 1);
    Ok (distance * (yr - yl) + yl).

(** [inverse] has no test of the midpoint. *)
Definition inverse (self : t) (yq : Q) : result Q :=
  let x := [vmin self; _midpoint self; vmax self] in
  let y := [0; 1 # 2; 1] in
  let ind := Z.of_nat (np.searchsorted y yq) in
  let ind := if (ind =? 0)%Z then 1%Z else ind in
  let ind := if (ind =? np.len y)%Z then (np.len y - 1)%Z else ind in
  yl ← np.getitem y (ind - 1);
  yr ← np.getitem y ind;
  let distance := (yq - yl) / (yr - yl) in
  xr ← np.getitem x ind;
  xl ← np.getitem x (ind - 1);
  Ok (distance * (xr - xl) + xl).

(** The midpoint does not lie strictly between [vmin] and [vmax]. *)
Definition midpoint_outside (self : t) : Prop :=
  vmin self >= _midpoint self \/ vmax self <= _midpoint self.
End MidpointNorm.

(** ** [_CmapDict] (colortools.py) *)

Module CmapDict.
(** A dictionary key: a [str], or some other hashable value (an [int]). *)
Inductive pykey : Set :=
| KStr (s : string)
| KInt (z : Z).

#[global] Instance pykey_eq_dec : EqDecision pykey.
Proof. solve_decision. Defined.

#[global] Instance pykey_countable : Countable pykey :=
  inj_countable'
    (fun k => match k with KStr s => inl s | KInt z => inr z end)
    (fun x => match x with inl s => KStr s | inr z => KInt z end)
    (fun k => match k with KStr _ => eq_refl | KInt _ => eq_refl end).

(** [str.lower] *)
Definition lower_ascii (c : ascii) : ascii :=
  let n := nat_of_ascii c in
  if (65 <=? n)%nat && (n <=? 90)%nat then ascii_of_nat (n + 32) else c.

Fixpoint lower (s : string) : string :=
  match s with
  | EmptyString => EmptyString
  | String c s' => String (lower_ascii c) (lower s')
  end.

(** Slices of a [str]: [s[a:b]] for [a], [b] either [None] or a
    non-negative [int], [s[-2:]] and [s[:-2]]. *)
Definition slice (s : string) (a b : option nat) : string :=
  let l := list_ascii_of_string s in
  let lo := default 0%nat a in
  let hi := default (length l) b in
  string_of_list_ascii (drop lo (take hi l)).

Definition last2 (s : string) : string :=
  let l := list_ascii_of_string s in
  string_of_list_ascii (drop (length l - 2) l).

Definition drop_last2 (s : string) : string :=
  let l := list_ascii_of_string s in
  string_of_list_ascii (take (length l - 2) l).

(** Slice indices that split up segments of names. *)
Definition _cmap_parts : list (string * list (option nat)) :=
  [ ("piyg", [None; Some 2; None]);
    ("prgn", [None; Some 1; Some 2; None]);
    ("brbg", [None; Some 2; Some 3; None]);
    ("puor", [None; Some 2; None]);
    ("rdgy", [None; Some 2; None]);
    ("rdbu", [None; Some 2; None]);
    ("rdylbu", [None; Some 2; Some 4; None]);
    ("rdylgn", [None; Some 2; Some 4; None]);
    ("coldhot", [None; Some 4; None]);
    ("bwr", [None; Some 1; Some 2; None]);
    ("icefire", [None; Some 3; None]);
    ("negpos", [None; Some 3; None]);
    ("bluered", [None; Some 4; None]);
    ("purplepink", [None; Some 4; None]);
    ("drywet", [None; Some 3; None]);
    ("drierwetter", [None; Some 5; None]);
    ("landsea", [None; Some 4; None]) ]%nat%string.

(** The pieces [name[a:b]] for the successive pairs [a, b] of [idxs]. *)
Fixpoint name_parts (name : string) (idxs : list (option nat)) : list string :=
  match idxs with
  | a :: (b :: _) as rest => slice name a b :: name_parts name rest
  | _ => []
  end.

(** Tuple pairs of mirror image cmap names. *)
Definition _cmap_mirrors : list (string * string) :=
  map (fun '(name, idxs) =>
         (name, fold_right String.append EmptyString
                  (rev (name_parts name idxs))))
      _cmap_parts.

Section Dict.
(** The stored values, with their [reversed()] method when they have
    one ([None]: the attribute is missing). *)
Context {V : Type} (reversed : V -> option V).

(** [__init__] goes through the items of [kwargs] in order and builds the
    dictionary that is handed to [dict.__init__]. *)
Definition __init__ (kwargs : list (pykey * V)) : result (gmap pykey V) :=
  foldl (fun acc '(key, value) =>
           kwargs_filtered ← acc;
           match key with
           | KInt _ => Raise KeyError
           | KStr key =>
               if negb (String.eqb (last2 key) "_r")
               then Ok (<[KStr (lower key) := value]> kwargs_filtered)
               else Ok kwargs_filtered
           end)
        (Ok ∅) kwargs.

(** [mirror.index(key)] on a pair. *)
Definition mirror_index (mirror : string * string) (key : string) : result nat :=
  if String.eqb (fst mirror) key then Ok 0%nat
  else if String.eqb (snd mirror) key then Ok 1%nat
  else Raise ValueError.

Definition _sanitize_key (self : gmap pykey V) (key : pykey) : result string :=
  match key with
  | KInt _ => Raise ValueError
  | KStr key =>
      let key := lower key in
      let '(key, reverse) :=
        if String.eqb (last2 key) "_r" then (drop_last2 key, true)
        else (key, false) in
      let '(key, reverse) :=
        if negb (bool_decide (is_Some (self !! KStr key))) then
          let key_mirror :=
            foldl (fun key_mirror mirror =>
                     match mirror_index mirror key with
                     | Ok idx => if (idx =? 0)%nat then snd mirror else fst mirror
                     | Raise _ => key_mirror
                     end)
                  key _cmap_mirrors in
          if bool_decide (is_Some (self !! KStr key_mirror))
          then (key_mirror, negb reverse)
          else (key, reverse)
        else (key, reverse) in
      Ok (if reverse then key ++ "_r" else key)%string
  end.

Definition _getitem (self : gmap pykey V) (key : string) : result V :=
  let '(key, reverse) :=
    if String.eqb (last2 key) "_r" then (drop_last2 key, true)
    else (key, false) in
  match self !! KStr key with
  | None => Raise KeyError
  | Some value =>
      if reverse then
        match reversed value with
        | Some value => Ok value
        | None => Raise KeyError
        end
      else Ok value
  end.

Definition __getitem__ (self : gmap pykey V) (key : pykey) : result V :=
  key ← _sanitize_key self key;
  _getitem self key.

(** [__setitem__] returns the dictionary after the call together with
    the outcome of the call. *)
Definition __setitem__ (self : gmap pykey V) (key : pykey) (item : V)
    : gmap pykey V * result unit :=
  match key with
  | KInt _ => (self, Raise KeyError)
  | KStr key => (<[KStr (lower key) := item]> self, Ok tt)
  end.

Definition __contains__ (self : gmap pykey V) (item : pykey) : result bool :=
  match __getitem__ self item with
  | Ok _ => Ok true
  | Raise KeyError => Ok false
  | Raise e => Raise e
  end.

(** [get(key, *args)]: a [KeyError] of the lookup, or a key that is not a
    [str], gives [args[0]] when there is one. *)
Definition get (self : gmap pykey V) (key : pykey) (args : list V) : result V :=
  if (1 <? length args)%nat then Raise ValueError
  else
    let attempt :=
      match key with
      | KInt _ => Raise KeyError
      | KStr key => __getitem__ self (KStr (lower key))
      end in
    match attempt with
    | Raise KeyError =>
        match args with
        | default :: _ => Ok default
        | [] => Raise KeyError
        end
    | outcome => outcome
    end.

(** [pop(key, *args)] returns the dictionary after the call and the outcome.
    [del self[key]] is the deletion of [dict], with the sanitized key. *)
Definition pop (self : gmap pykey V) (key : pykey) (args : list V)
    : gmap pykey V * result V :=
  if (1 <? length args)%nat then (self, Raise ValueError)
  else
    let attempt :=
      match _sanitize_key self key with
      | Raise e => (self, Raise e)
      | Ok key =>
          match _getitem self key with
          | Raise e => (self, Raise e)
          | Ok value =>
              match self !! KStr key with
              | None => (self, Raise KeyError)
              | Some _ => (delete (KStr key) self, Ok value)
              end
          end
      end in
    match attempt with
    | (d, Raise KeyError) =>
        (d, match args with
            | default :: _ => Ok default
            | [] => Raise KeyError
            end)
    | outcome => outcome
    end.

(** [value.reversed()] called on the outcome of a lookup. *)
Definition call_reversed (r : result V) : result V :=
  value ← r;
  match reversed value with
  | Some value => Ok value
  | None => Raise AttributeError
  end.
End Dict.

(** A [str] key that ends in ['_r']. *)
Definition ends_r (key : pykey) : bool :=
  match key with
  | KStr s => String.eqb (last2 s) "_r"
  | KInt _ => false
  end.

(** The invariant of the class: the keys are lowercase strings. *)
Definition lowercase_keys {V} (d : gmap pykey V) : Prop :=
  forall k, is_Some (d !! k) -> exists s, k = KStr s /\ lower s = s.
End CmapDict.

(** ** [merge_cmaps] and [clip_colors] (colortools.py) *)

Module colortools.
Local Open Scope Q_scope.

Definition color : Type := Q * Q * Q.

(** The colormap instances of matplotlib: a [ListedColormap] carries its
    colour list; of a [LinearSegmentedColormap] only the segment data
    matters here, which is kept abstract. *)
Inductive Colormap (segmentdata : Type) : Type :=
| ListedColormap (colors : list color) (name : string) (N : nat)
| LinearSegmentedColormap (name : string) (data : segmentdata) (N : nat).

Arguments ListedColormap {segmentdata} colors name N.
Arguments LinearSegmentedColormap {segmentdata} name data N.

Definition is_listed {S} (cmap : Colormap S) : bool :=
  match cmap with ListedColormap _ _ _ => true | _ => false end.

Definition is_segmented {S} (cmap : Colormap S) : bool :=
  match cmap with LinearSegmentedColormap _ _ _ => true | _ => false end.

Definition colors_of {S} (cmap : Colormap S) : list color :=
  match cmap with ListedColormap colors _ _ => colors | _ => [] end.

(** The [ratios] argument: [None], a number or a Python list. *)
Inductive pyratios : Type :=
| RNone
| RNumber (q : Q)
| RList (l : list Q).

(** [ratios or 1] *)
Definition ratios_or_1 (ratios : pyratios) : pyratios :=
  match ratios with
  | RNone => RNumber 1
  | RNumber q => if Qeq_bool q 0 then RNumber 1 else RNumber q
  | RList [] => RNumber 1
  | RList l => RList l
  end.

(** [ratios == 1] for a Python list [ratios]: a list never equals an
    [int], whatever it holds. *)
Definition list_eq_int (ratios : list Q) (n : Z) : bool := false.

(** [np.all] of a single [bool]. *)
Definition np_all (b : bool) : bool := b.

Section Merge.
Context {S : Type}.
(** The merge of the segment data of [LinearSegmentedColormap]s with the
    normalised ratios, which the source does channel by channel. *)
Variable merge_segmentdata :
  list (Colormap S) -> list Q -> string -> nat -> result (Colormap S).

(** [colormap(cmap, N=None)] on a colormap instance with no further
    keyword: the instance is returned as it is. *)
Definition colormap (cmap : Colormap S) : Colormap S := cmap.

Definition merge_cmaps (_cmaps : list (Colormap S)) (name : string)
    (N : nat) (ratios : pyratios) : result (Colormap S) :=
  if (length _cmaps <=? 1)%nat then Raise ValueError
  else
    let ratios :=
      match ratios_or_1 ratios with
      | RNumber _ | RNone => repeat 1 (length _cmaps)
      | RList l => l
      end in
    let _cmaps := map colormap _cmaps in
    if forallb is_listed _cmaps then
      if negb (np_all (list_eq_int ratios 1)) then Raise ValueError
      else
        let colors := concat (map colors_of _cmaps) in
        Ok (ListedColormap colors name (length colors))
    else if forallb is_segmented _cmaps then
      merge_segmentdata _cmaps ratios name N
    else Raise ValueError.
End Merge.

(** [clip_colors] on an n-by-3 array; the messages of [verbose] are not
    part of the result. *)
Definition clip_colors (colors : list color) (mask : bool) (gray : Q)
    (verbose : bool) : list color :=
  let clip1 (c : Q) : Q :=
    let under := negb (Qle_bool 0 c) in
    let over := negb (Qle_bool c 1) in
    if mask then (if under || over then gray else c)
    else (if over then 1 else if under then 0 else c) in
  map (fun '(r, g, b) => (clip1 r, clip1 g, clip1 b)) colors.

(** The argument of [add_alpha]: a colour tuple, a [str], or a value that
    is not iterable. *)
Inductive pycolor : Type :=
| ColorTuple (channels : list Q)
| ColorStr (s : string)
| ColorNumber (q : Q).

Definition add_alpha (color : pycolor) : result (list Q) :=
  match color with
  | ColorTuple channels =>
      if (length channels =? 3)%nat then Ok (channels ++ [1])
      else if (length channels =? 4)%nat then Ok channels
      else Raise ValueError
  | _ => Raise ValueError
  end.

(** [make_segmentdata_array] for channel values that are numbers ([values]
    after [np.atleast_1d]).  The message of the length error takes
    [len(ratios)], which is a [TypeError] for a scalar [ratios]. *)
Definition make_segmentdata_array (values : list Q) (ratios : pyratios)
    (reverse : bool) : result (list (Q * Q * Q)) :=
  match values with
  | [value] => Ok [(0, value, value); (1, value, value)]
  | _ =>
      xvals ←
        match ratios with
        | RNone => Ok (np.linspace 0 1 (length values))
        | _ =>
            let xvals :=
              match ratios with RNumber q => [q] | RList l => l | RNone => [] end in
            if negb (np.len xvals =? np.len values - 1)%Z then
              match ratios with
              | RNumber _ => Raise TypeError
              | _ => Raise ValueError
              end
            else
              let xvals := [0] ++ np.cumsum xvals in
              m ← np.amax xvals;
              Ok (map (fun x => x / m) xvals)
        end;
      let values := if reverse then rev values else values in
      Ok (zip_with (fun x value => (x, value, value)) xvals values)
  end.

(** *** [norm] *)

(** The first argument of [norm]: [None], the name of a normalizer, or an
    instance of [Normalize]. *)
Inductive norm_arg (Instance : Type) : Type :=
| NormNone
| NormName (s : string)
| NormInstance (n : Instance).

Arguments NormNone {Instance}.
Arguments NormName {Instance} s.
Arguments NormInstance {Instance} n.

(** The classes in the table [normalizers]. *)
Inductive norm_class : Set :=
| NoNorm | ClsMidpointNorm | ClsLinearSegmentedNorm | BoundaryNorm | LogNorm
| Normalize | PowerNorm | SymLogNorm.

Definition normalizers : list (string * norm_class) :=
  [ ("none", NoNorm);
    ("null", NoNorm);
    ("zero", ClsMidpointNorm);
    ("midpoint", ClsMidpointNorm);
    ("segments", ClsLinearSegmentedNorm);
    ("segmented", ClsLinearSegmentedNorm);
    ("boundary", BoundaryNorm);
    ("log", LogNorm);
    ("linear", Normalize);
    ("power", PowerNorm);
    ("symlog", SymLogNorm) ]%string.

Fixpoint lookup_name (name : string) (table : list (string * norm_class))
    : option norm_class :=
  match table with
  | [] => None
  | (key, cls) :: table' =>
      if String.eqb key name then Some cls else lookup_name name table'
  end.

(** The keywords of [norm] that reach the classes of this file. *)
Record norm_kwargs : Type := mk_norm_kwargs {
  kw_midpoint : option Q;
  kw_clip : option bool
}.

(** What [norm] returns: an instance of a matplotlib class (the one it
    was given, or a new one), or one of the two normalizers of this file. *)
Inductive norm_out (Instance : Type) : Type :=
| OutInstance (n : Instance)
| OutMidpoint (n : MidpointNorm.t)
| OutSegments (n : LinearSegmentedNorm.t).

Arguments OutInstance {Instance} n.
Arguments OutMidpoint {Instance} n.
Arguments OutSegments {Instance} n.

Section Norm.
Context {Instance : Type}.
(** [edges] of the module [utils], which is not part of these sources. *)
Variable edges : list Q -> list Q.
(** The constructors of the matplotlib classes, called with the keywords. *)
Variable matplotlib_new : norm_class -> norm_kwargs -> result Instance.

Definition norm (norm_in : norm_arg Instance) (levels values : option (list Q))
    (kwargs : norm_kwargs) : result (norm_out Instance) :=
  match norm_in with
  | NormInstance n => Ok (OutInstance n)
  | _ =>
      let levels :=
        match levels, values with
        | None, Some values => Some (edges values)
        | _, _ => levels
        end in
      let norm_in :=
        match norm_in with
        | NormName (String c s) => String c s
        | _ => match levels with Some _ => "segments" | None => "linear" end
        end%string in
      match lookup_name norm_in normalizers with
      | None => Raise ValueError
      | Some ClsMidpointNorm =>
          match levels with
          | None => Raise ValueError
          | Some levels =>
              vmin ← np.amin levels;
              vmax ← np.amax levels;
              Ok (OutMidpoint
                    (MidpointNorm.__init__ (default 0 (kw_midpoint kwargs))
                       vmin vmax (default false (kw_clip kwargs))))
          end
      | Some ClsLinearSegmentedNorm =>
          match levels with
          | None => Raise ValueError
          | Some levels =>
              n ← LinearSegmentedNorm.__init__ levels
                     (default false (kw_clip kwargs));
              Ok (OutSegments n)
          end
      | Some cls =>
          n ← matplotlib_new cls kwargs;
          Ok (OutInstance n)
      end
  end.
End Norm.

(** A channel value inside [0, 1]. *)
Definition in_unit (c : Q) : Prop := 0 <= c <= 1.
End colortools.

(** ** [standardize_1d] and [_auto_levels_locator] (axes/plot.py) *)

Module plot.
Local Open Scope Q_scope.

(** An array entry: a finite number or [nan]. *)
Definition float : Type := option Q.

Definition nan : float := None.

(** Numeric numpy arrays of dimension 0, 1 and 2 (a list of rows).  With
    neither xarray nor pandas loaded, [_load_objects] makes [DataArray],
    [DataFrame], [Series] and [Index] names of [ndarray]. *)
Inductive ndarray : Type :=
| Array0 (v : float)
| Array1 (a : list float)
| Array2 (rows : list (list float)).

Definition ndim (data : ndarray) : nat :=
  match data with Array0 _ => 0 | Array1 _ => 1 | Array2 _ => 2 end.

(** [data.shape[axis]] for [axis < data.ndim] *)
Definition shape (data : ndarray) (axis : nat) : nat :=
  match data, axis with
  | Array1 a, 0%nat => length a
  | Array2 rows, 0%nat => length rows
  | Array2 rows, 1%nat => match rows with r :: _ => length r | [] => 0 end
  | _, _ => 0
  end.

(** [data.shape[-1]] *)
Definition shape_last (data : ndarray) : nat :=
  match data with
  | Array0 _ => 0
  | Array1 a => length a
  | Array2 rows => match rows with r :: _ => length r | [] => 0 end
  end.

Definition arange (n : nat) : list float := map Some (np.arange n).

Definition lt (a b : float) : bool :=
  match a, b with
  | Some p, Some q => negb (Qle_bool q p)
  | _, _ => false
  end.

Definition add (a : float) (c : Q) : float :=
  match a with Some p => Some (p + c) | None => None end.

(** [sub in s] for two [str] *)
Fixpoint contains (sub s : string) : bool :=
  String.prefix sub s ||
  match s with
  | EmptyString => false
  | String _ s' => contains sub s'
  end.

Definition name_in (name : string) (names : list string) : bool :=
  existsb (String.eqb name) names.

(** An array is already array-like; one that is not iterable (dimension
    0) goes through [np.atleast_1d]. *)
Definition _to_arraylike (data : ndarray) : ndarray :=
  match data with
  | Array0 v => Array1 [v]
  | _ => data
  end.

Definition _to_ndarray (data : ndarray) : ndarray :=
  match data with
  | Array0 v => Array1 [v]
  | _ => data
  end.

(** [len(data) and isinstance(_to_ndarray(data).flat[0], str)]: a numeric
    array holds no [str]. *)
Definition _is_string (data : ndarray) : bool :=
  negb (shape data 0 =? 0)%nat && false.

(** The labels of [_axis_labels_title(data, axis)] for an [ndarray]. *)
Definition _axis_labels_title (data : ndarray) (axis : option nat) : ndarray :=
  match axis with
  | Some axis =>
      if (axis <? ndim data)%nat then Array1 (arange (shape data axis))
      else data
  | None => data
  end.

(** The keyword arguments the wrapper reads or writes. *)
Record kwargs : Type := mk_kwargs {
  means : option bool;
  medians : option bool;
  latlon : option bool;
  labels : option ndarray;
  positions : option ndarray
}.

Definition truthy (v : option bool) : bool := default false v.

(** The axes: its [projection] attribute when it has one, with the
    [lonmin] and [lonmax] of the projection, and its [name]. *)
Record axes : Type := mk_axes {
  projection : option (Q * Q);
  axes_name : string
}.

(** What the wrapped method is called with: [func(self, x, *ys, *args,
    **kwargs)]. *)
Record call : Type := mk_call {
  call_x : option ndarray;
  call_ys : list ndarray;
  call_args : list ndarray;
  call_kwargs : kwargs
}.

Definition set_labels (kw : kwargs) (v : ndarray) : kwargs :=
  {| means := means kw; medians := medians kw; latlon := latlon kw;
     labels := Some v; positions := positions kw |}.

Definition set_positions (kw : kwargs) (v : ndarray) : kwargs :=
  {| means := means kw; medians := medians kw; latlon := latlon kw;
     labels := labels kw; positions := Some v |}.

(** [_auto_format_1d] as [standardize_1d] calls it, with [autoformat]
    left at [False]; the calls of [self.format] do not reach the
    result. *)
Definition _auto_format_1d (x y : ndarray) (name : string) (kw : kwargs)
    : option ndarray * kwargs :=
  if _is_string x && name_in name ["hist"]%string then
    (None, match labels kw with
           | Some _ => kw
           | None => set_labels kw (_to_ndarray x)
           end)
  else if _is_string x then
    let x_index := Array1 (arange (shape x 0)) in
    (Some x_index,
     if String.eqb name "boxplot" then set_labels kw (_to_ndarray x) else kw)
  else (None, kw).

(** The loop of [_fix_latlon]: add 360 to the entries below [lon1] until
    there is none.  [fuel] bounds the number of passes.  The additions
    are exact, as they are in float64 for whole-number longitudes below
    2^52; where an addition rounds, the loop of the source can take more
    passes, or not end. *)
Fixpoint fix_loop (fuel : nat) (lon1 : float) (x : list float) : list float :=
  match fuel with
  | O => x
  | S fuel =>
      let filter_ := map (fun v => lt v lon1) x in
      if negb (existsb (fun b => b) filter_) then x
      else fix_loop fuel lon1
             (zip_with (fun v (b : bool) => if b then add v 360 else v) x filter_)
  end.

(** The number of passes an entry needs, and a bound for the array. *)
Definition passes (lon1 v : float) : nat :=
  match lon1, v with
  | Some l, Some p => Z.to_nat (Qceiling ((l - p) / 360))
  | _, _ => 0
  end.

Definition fix_fuel (lon1 : float) (x : list float) : nat :=
  S (foldr Nat.max 0%nat (map (passes lon1) x)).

(** The longitudes on which the additions of 360 are exact in float64:
    whole numbers of degrees of magnitude at most 2^50, and [nan]. *)
Definition whole (p : Q) : Prop :=
  exists z : Z, p == inject_Z z /\ (Z.abs z <= 2 ^ 50)%Z.

Definition whole_or_nan (v : float) : Prop :=
  match v with
  | Some p => whole p
  | None => True
  end.

(** [_fix_latlon(x, y)]: a coordinate array that is not one dimensional
    is returned as it is; [x[0]] raises [IndexError] on an empty array. *)
Definition _fix_latlon (x y : ndarray) : result (ndarray * ndarray) :=
  match x with
  | Array1 [] => Raise IndexError
  | Array1 ((x0 :: _) as xs) =>
      if forallb (fun v => lt v x0) xs then Ok (x, y)
      else
        let lon1 := x0 in
        Ok (Array1 (fix_loop (fix_fuel lon1 xs) lon1 xs), y)
  | _ => Ok (x, y)
  end.

(** [np.roll(a, shift)] along one axis for [shift >= 0] *)
Definition roll {A} (a : list A) (shift : nat) : list A :=
  match length a with
  | O => a
  | n => let k := (n - shift mod n)%nat in drop k a ++ take k a
  end.

(** Indices of the true entries, [np.where(mask)[0]]. *)
Definition np_where (mask : list bool) : list nat :=
  map fst (filter (fun p => Is_true (snd p)) (imap (fun i b => (i, b)) mask)).

(** [y[..., idx] = nan] on the last axis, for a mask and for a list of
    indices. *)
Definition mask_row (mask : list bool) (row : list float) : list float :=
  zip_with (fun v (b : bool) => if b then nan else v) row mask.

Definition set_nan_mask (y : ndarray) (mask : list bool) : ndarray :=
  match y with
  | Array0 v => Array0 v
  | Array1 a => Array1 (mask_row mask a)
  | Array2 rows => Array2 (map (mask_row mask) rows)
  end.

Definition set_nan_at (y : ndarray) (idx : list nat) : ndarray :=
  let put (row : list float) := foldl (fun r i => <[i := nan]> r) row idx in
  match y with
  | Array0 v => Array0 v
  | Array1 a => Array1 (put a)
  | Array2 rows => Array2 (map put rows)
  end.

Definition roll_last (y : ndarray) (shift : nat) : ndarray :=
  match y with
  | Array0 v => Array0 v
  | Array1 a => Array1 (roll a shift)
  | Array2 rows => Array2 (map (fun r => roll r shift) rows)
  end.

(** [_enforce_bounds(x, y, xmin, xmax)] for arrays of floats, [y] of one
    or more dimensions.  (On an array of integers the assignment of [nan]
    raises, and an array of dimension 0 has no [y.shape[-1]].) *)
Definition _enforce_bounds (x y : ndarray) (xmin xmax : Q)
    : ndarray * ndarray :=
  match x with
  | Array1 x =>
      let lonroll := np_where (map (fun v => lt (Some (xmin + 360)) v) x) in
      let '(x, y) :=
        match lonroll with
        | [] => (x, y)
        | first :: _ =>
            let roll_ := (length x - first)%nat in
            let x := roll x roll_ in
            let y := roll_last y roll_ in
            (map (fun v => add v (- (360))) (take roll_ x) ++ drop roll_ x, y)
        end in
      let y :=
        if negb (length x =? 0)%nat && (length x - 1 =? shape_last y)%nat then
          set_nan_mask y
            (zip_with orb
               (map (fun v => lt v (Some xmin)) (tail x))
               (map (fun v => lt (Some xmax) v) (removelast x)))
        else if (length x =? shape_last y)%nat then
          let where_ :=
            np_where (map (fun v => lt v (Some xmin) || lt (Some xmax) v) x) in
          set_nan_at y (removelast (tail where_))
        else y in
      (Array1 x, y)
  | _ => (x, y)
  end.

(** [standardize_1d(self, func, *args, **kwargs)] with [name] the name of
    [func]; the result is the call of [func] it ends with.  The
    [autoformat] setting only reaches the [rc] context of that call. *)
Definition standardize_1d (self : axes) (name : string)
    (args : list ndarray) (kw : kwargs) : result call :=
  let standardize (x : option ndarray) (y : ndarray) (args : list ndarray) :=
    let '(ys, args) :=
      match args with
      | y2 :: rest =>
          if contains "fill_between" name then ([y; y2], rest)
          else ([y], args)
      | [] => ([y], args)
      end in
    let ys := map _to_arraylike ys in
    let y := hd y ys in
    let x :=
      match x with
      | None =>
          let axis :=
            if name_in name ["hist"; "boxplot"; "violinplot"]%string
               || existsb truthy [means kw; medians kw]
            then 1%nat else 0%nat in
          _axis_labels_title y (Some axis)
      | Some x => x
      end in
    let x := _to_arraylike x in
    if negb (ndim x =? 1)%nat then Raise ValueError
    else
      let '(x_index, kw) :=
        if negb (bool_decide (is_Some (projection self)))
        then _auto_format_1d x y name kw
        else (None, kw) in
      let x := match x_index with Some x_index => x_index | None => x end in
      let '(ys, kw) :=
        if name_in name ["boxplot"; "violinplot"]%string
        then (map _to_ndarray ys, set_positions kw x)
        else (ys, kw) in
      '(x, ys) ←
        (if String.eqb (axes_name self) "proplot_basemap" && truthy (latlon kw)
         then
           match projection self with
           | None => Raise AttributeError
           | Some (xmin, xmax) =>
               '(_, x, ys) ←
                 foldl (fun acc y =>
                          '(x_orig, _, ys) ← acc;
                          '(x_fixed, y) ← _fix_latlon x_orig y;
                          let '(x, y) := _enforce_bounds x_fixed y xmin xmax in
                          Ok (x_fixed, x, ys ++ [y]))
                       (Ok (x, x, [])) ys;
               Ok (x, ys)
           end
         else Ok (x, ys));
      Ok {| call_x := Some x; call_ys := ys; call_args := args;
            call_kwargs := kw |} in
  match args with
  | [] => Ok {| call_x := None; call_ys := []; call_args := [];
                call_kwargs := kw |}
  | [y] => standardize None y []
  | x :: y :: args =>
      if (length args <=? 2)%nat then standardize (Some x) y args
      else Raise ValueError
  end.

(** *** [_enforce_centers] *)

(** Entry by entry arithmetic; [nan] stays [nan]. *)
Definition fadd (a b : float) : float :=
  match a, b with
  | Some p, Some q => Some (p + q)
  | _, _ => None
  end.

Definition fscale (c : Q) (a : float) : float :=
  match a with Some p => Some (c * p) | None => None end.

(** [len(data) and np.issubdtype(dtype, np.number)] on an array of
    dimension one or two.  [number] tells whether the dtype of the array
    is a number type; it is not for an array of [datetime64], whose
    entries are held here as their ticks. *)
Definition _is_number (number : bool) (data : ndarray) : bool :=
  negb (shape data 0 =? 0)%nat && number.

(** [data.size] *)
Definition size (data : ndarray) : nat :=
  match data with
  | Array0 _ => 1
  | Array1 a => length a
  | Array2 rows => (shape data 0 * shape data 1)%nat
  end.

(** [0.5 * (x[1:] + x[:-1])] *)
Definition centers1d (a : list float) : list float :=
  map (fscale (1 # 2)) (zip_with fadd (tail a) (removelast a)).

(** [0.25 * (x[:-1, :-1] + x[:-1, 1:] + x[1:, :-1] + x[1:, 1:])] *)
Definition centers2d (rows : list (list float)) : list (list float) :=
  zip_with
    (fun upper lower =>
       map (fscale (1 # 4))
         (zip_with fadd
            (zip_with fadd
               (zip_with fadd (removelast upper) (tail upper))
               (removelast lower))
            (tail lower)))
    (removelast rows) (tail rows).

(** [_enforce_centers(x, y, Z)], with the flags of the dtypes of [x] and
    [y] for [_is_number].  The shape of an array of dimension 0 has no
    entry, so [x.shape[-1]] and [y.shape[0]] raise [IndexError] there. *)
Definition _enforce_centers (x_number y_number : bool) (x y Z : ndarray)
    : result (ndarray * ndarray) :=
  match x, y, Z with
  | Array0 _, _, _ | _, Array0 _, _ => Raise IndexError
  | _, _, _ =>
      let xlen := Z.of_nat (shape_last x) in
      let ylen := Z.of_nat (shape y 0) in
      if (ndim Z =? 2)%nat && (Z.of_nat (shape Z 1) =? xlen - 1)%Z
         && (Z.of_nat (shape Z 0) =? ylen - 1)%Z then
        if forallb (fun '(number, z) =>
                      (ndim z =? 1)%nat && (1 <? size z)%nat && _is_number number z)
             [(x_number, x); (y_number, y)]
        then
          match x, y with
          | Array1 x, Array1 y => Ok (Array1 (centers1d x), Array1 (centers1d y))
          | _, _ => Ok (x, y)
          end
        else
          let x :=
            match x with
            | Array2 rows =>
                if (1 <? shape x 0)%nat && (1 <? shape x 1)%nat
                   && _is_number x_number x
                then Array2 (centers2d rows) else x
            | _ => x
            end in
          let y :=
            match y with
            | Array2 rows =>
                if (1 <? shape y 0)%nat && (1 <? shape y 1)%nat
                   && _is_number y_number y
                then Array2 (centers2d rows) else y
            | _ => y
            end in
          Ok (x, y)
      else
        match Z with
        | Array0 _ => Raise IndexError
        | _ =>
            if negb (Z.of_nat (shape_last Z) =? xlen)%Z
               || negb (Z.of_nat (shape Z 0) =? ylen)%Z
            then Raise ValueError
            else Ok (x, y)
        end
  end.

(** *** [_fix_poles] and [_fix_cartopy] *)

(** [row.mean()]: the sum over the number of entries; [nan] for a row with
    a [nan] and for an empty row. *)
Definition mean (row : list float) : float :=
  match row with
  | [] => nan
  | _ =>
      match foldl fadd (Some 0) row with
      | Some total => Some (total / inject_Z (Z.of_nat (length row)))
      | None => nan
      end
  end.

(** [_fix_poles(y, Z)] for one dimensional [y].  [Z[0, :]] raises
    [IndexError] unless [Z] is two dimensional with at least one row, and
    [y[0]] raises it on an empty [y]. *)
Definition _fix_poles (y : list float) (Z : ndarray)
    : result (list float * ndarray) :=
  match Z with
  | Array2 ((first :: _) as rows) =>
      let p1 := mean first in
      let p2 := mean (List.last rows first) in
      match y with
      | [] => Raise IndexError
      | y0 :: _ =>
          let ps :=
            if lt y0 (List.last y y0) then (Some (- (90)), Some 90)
            else (Some 90, Some (- (90))) in
          let Z1 := repeat p1 (shape Z 1) in
          let Z2 := repeat p2 (shape Z 1) in
          Ok ([fst ps] ++ y ++ [snd ps], Array2 ([Z1] ++ rows ++ [Z2]))
      end
  | _ => Raise IndexError
  end.

(** [v % 360] on floats, and [a != b], which holds when one side is
    [nan]. *)
Definition mod360 (v : float) : float :=
  match v with
  | Some p => Some (p - 360 * inject_Z (Qfloor (p / 360)))
  | None => None
  end.

Definition ne (a b : float) : bool :=
  match a, b with
  | Some p, Some q => negb (Qeq_bool p q)
  | _, _ => true
  end.

(** [_fix_cartopy(x, y, *Zs, globe=globe)].  The loop rebinds [x] and [y]
    from one data array to the next. *)
Definition _fix_cartopy (x y : ndarray) (Zs : list ndarray) (globe : bool)
    : result (ndarray * ndarray * list ndarray) :=
  '(x, y) ← _fix_latlon x y;
  let x_orig := x in
  foldl (fun acc Z =>
           '(x, y, Zs) ← acc;
           if negb globe || (1 <? ndim x)%nat || (1 <? ndim y)%nat
           then Ok (x, y, Zs ++ [Z])
           else
             '(y, Z) ←
               match y with
               | Array1 y => '(y, Z) ← _fix_poles y Z; Ok (Array1 y, Z)
               | _ => Raise IndexError
               end;
             match x_orig with
             | Array1 ((x0 :: _) as xs) =>
                 if ne (mod360 x0) (mod360 (add (List.last xs x0) 360)) then
                   let x := Array1 (xs ++ [add x0 360]) in
                   let Z :=
                     match Z with
                     | Array2 rows => Array2 (map (fun r => r ++ take 1 r) rows)
                     | _ => Z
                     end in
                   Ok (x, y, Zs ++ [Z])
                 else Ok (x, y, Zs ++ [Z])
             | _ => Raise IndexError
             end)
        (Ok (x, y, [])) Zs.

(** *** [_auto_levels_locator] *)

(** The argument [N]: [None], a number of levels, or an iterable of
    levels. *)
Inductive levels_arg : Type :=
| NNone
| NInt (n : Z)
| NIter (levels : list Q).

Definition iterable (N : levels_arg) : bool :=
  match N with NIter _ => true | _ => false end.

Record locator_args (Locator Kw : Type) : Type := mk_locator_args {
  data : list ndarray;
  N : levels_arg;
  norm : option string;
  norm_kw : option Kw;
  vmin : option Q;
  vmax : option Q;
  extend : string;
  locator : option Locator;
  locator_kw : option Kw;
  symmetric : bool;
  positive : bool;
  negative : bool;
  nozero : bool
}.

Arguments data {Locator Kw} _.
Arguments N {Locator Kw} _.
Arguments norm {Locator Kw} _.
Arguments norm_kw {Locator Kw} _.
Arguments positive {Locator Kw} _.
Arguments negative {Locator Kw} _.

(** The second component of the result: the levels themselves, a locator
    object, or [None]. *)
Inductive locator_out (Locator : Type) : Type :=
| LocLevels (ticks : levels_arg)
| LocObject (l : Locator)
| LocNone.

Arguments LocLevels {Locator} ticks.
Arguments LocObject {Locator} l.
Arguments LocNone {Locator}.

(** [norm or 'linear'] *)
Definition norm_or_linear (norm : option string) : string :=
  match norm with
  | None => "linear"
  | Some EmptyString => "linear"
  | Some s => s
  end.

Section Locator.
Context {Locator Kw Normalizer : Type}.
(** [constructor.Norm], which is not part of these sources, with the
    name of the normalizer and its keywords. *)
Variable Norm : string -> option Kw -> result Normalizer.
(** The choice of the locator and of the levels once the arguments are
    accepted, which is the work of matplotlib's tickers. *)
Variable locate_levels :
  Normalizer -> Z -> locator_args Locator Kw ->
  result (levels_arg * locator_out Locator).

Definition _auto_levels_locator (a : locator_args Locator Kw)
    : result (levels_arg * locator_out Locator) :=
  if iterable (N a) then Ok (N a, LocLevels (N a))
  else
    let N_ := match N a with NInt n => n | _ => 11%Z end in
    norm_ ← Norm (norm_or_linear (norm a)) (norm_kw a);
    if positive a && negative a then Raise ValueError
    else locate_levels norm_ N_ a.
End Locator.
End plot.

(** * Properties *)

Local Open Scope Q_scope.

(** ** Comparisons and results *)

Lemma Qle_bool_true (a b : Q) : Qle_bool a b = true <-> a <= b.
Proof. apply Qle_bool_iff. Qed.

Lemma Qle_bool_false (a b : Q) : Qle_bool a b = false <-> b < a.
Proof.
  split; intros H.
  - apply Qnot_le_lt. intros Hle. apply Qle_bool_iff in Hle. congruence.
  - destruct (Qle_bool a b) eqn:E; [|reflexivity].
    apply Qle_bool_iff in E. lra.
Qed.

Ltac qbool :=
  repeat match goal with
    | H : Qle_bool _ _ = true |- _ => apply Qle_bool_true in H
    | H : Qle_bool _ _ = false |- _ => apply Qle_bool_false in H
    | H : (_ || _)%bool = true |- _ => apply orb_true_iff in H
    | H : (_ || _)%bool = false |- _ => apply orb_false_iff in H; destruct H
    | H : (_ && _)%bool = true |- _ => apply andb_true_iff in H; destruct H
    | H : (_ && _)%bool = false |- _ => apply andb_false_iff in H
    end.

Ltac qcase a b :=
  let E := fresh "E" in destruct (Qle_bool a b) eqn:E; qbool.

Ltac qdec :=
  repeat match goal with
    | |- context [Qlt_le_dec ?a ?b] => destruct (Qlt_le_dec a b); try lra
    end.

Lemma div_unit (a b : Q) : 0 <= a -> a <= b -> 0 < b -> 0 <= a / b <= 1.
Proof.
  intros Ha Hab Hb. split.
  - apply Qle_shift_div_l; lra.
  - apply Qle_shift_div_r; lra.
Qed.

Lemma div_pos (a b : Q) : 0 < a -> 0 < b -> 0 < a / b.
Proof. intros Ha Hb. apply Qlt_shift_div_l; lra. Qed.

Lemma inject_Z_pos (z : Z) : (0 < z)%Z -> 0 < inject_Z z.
Proof. intros H. unfold Qlt. cbn. lia. Qed.

(** ** [MidpointNorm] *)

Lemma MidpointNorm_guard (self : MidpointNorm.t) :
  (Qle_bool (MidpointNorm._midpoint self) (MidpointNorm.vmin self)
   || Qle_bool (MidpointNorm.vmax self) (MidpointNorm._midpoint self))%bool = true
  <-> MidpointNorm.midpoint_outside self.
Proof.
  unfold MidpointNorm.midpoint_outside.
  rewrite orb_true_iff, !Qle_bool_true. reflexivity.
Qed.

(** C4: [MidpointNorm.__call__] raises [ValueError] exactly when
    [vmin >= midpoint] or [vmax <= midpoint]; otherwise it sends [vmin] to 0,
    the midpoint to 1/2 and [vmax] to 1. *)
Theorem MidpointNorm_call_spec (self : MidpointNorm.t) :
  (forall xq, raises (MidpointNorm.__call__ self xq) ValueError
              <-> MidpointNorm.midpoint_outside self)
  /\ (~ MidpointNorm.midpoint_outside self ->
      exists y0 ym y1,
        MidpointNorm.__call__ self (MidpointNorm.vmin self) = Ok y0 /\ y0 == 0
        /\ MidpointNorm.__call__ self (MidpointNorm._midpoint self) = Ok ym
        /\ ym == 1 # 2
        /\ MidpointNorm.__call__ self (MidpointNorm.vmax self) = Ok y1 /\ y1 == 1).
Proof.
  pose proof (MidpointNorm_guard self) as G.
  unfold raises, MidpointNorm.__call__.
  destruct (Qle_bool (MidpointNorm._midpoint self) (MidpointNorm.vmin self)
            || Qle_bool (MidpointNorm.vmax self) (MidpointNorm._midpoint self))%bool.
  - split; [intros xq; split; intros _; [apply G|]; reflexivity|].
    intros H. destruct H. apply G. reflexivity.
  - assert (N : ~ MidpointNorm.midpoint_outside self)
      by (intros H; apply G in H; discriminate).
    split.
    + intros xq. split; [|intros H; contradiction].
      cbn. qdec; cbn; discriminate.
    + intros _. unfold MidpointNorm.midpoint_outside in N.
      destruct self as [lo hi c mid]; cbn in *.
      assert (lo < mid) by lra. assert (mid < hi) by lra.
      eexists _, _, _. cbn. qdec. cbn.
      repeat split; field; lra.
Qed.

Lemma MidpointNorm_call_spec_witness :
  exists y0 ym y1,
    MidpointNorm.__call__ (MidpointNorm.__init__ 0 (-1) 3 false) (-1) = Ok y0 /\ y0 == 0
    /\ MidpointNorm.__call__ (MidpointNorm.__init__ 0 (-1) 3 false) 0 = Ok ym
    /\ ym == 1 # 2
    /\ MidpointNorm.__call__ (MidpointNorm.__init__ 0 (-1) 3 false) 3 = Ok y1 /\ y1 == 1.
Proof.
  apply (proj2 (MidpointNorm_call_spec (MidpointNorm.__init__ 0 (-1) 3 false))).
  unfold MidpointNorm.midpoint_outside. cbn. lra.
Defined.

(** ** [clip_colors] *)

(** C10: with the default [gray] every entry of the result of [clip_colors]
    lies in [0, 1], whatever [mask] is, and an entry that was in [0, 1]
    already is unchanged. *)
Theorem clip_colors_unit_range (colors : list colortools.color) (mask verbose : bool) :
  Forall2
    (fun c c' : colortools.color =>
       let '(r, g, b) := c in
       let '(r', g', b') := c' in
       (colortools.in_unit r' /\ colortools.in_unit g' /\ colortools.in_unit b')
       /\ (colortools.in_unit r -> r' = r)
       /\ (colortools.in_unit g -> g' = g)
       /\ (colortools.in_unit b -> b' = b))
    colors (colortools.clip_colors colors mask (1 # 5) verbose).
Proof.
  unfold colortools.clip_colors.
  induction colors as [|[[r g] b] colors IH]; cbn; constructor; [|exact IH].
  unfold colortools.in_unit.
  destruct mask; cbn;
    qcase 0 r; qcase r 1; qcase 0 g; qcase g 1; qcase 0 b; qcase b 1;
    cbn; repeat split; intros; try reflexivity; try lra.
Qed.

(** ** [BinNorm] *)

Lemma fold_left_Qmin (a : list Q) (x : Q) :
  (fold_left Qmin a x = x \/ In (fold_left Qmin a x) a)
  /\ fold_left Qmin a x <= x
  /\ Forall (fun v => fold_left Qmin a x <= v) a.
Proof.
  revert x. induction a as [|y a IH]; intros x; cbn.
  - repeat split; [left; reflexivity|lra|constructor].
  - destruct (IH (Qmin x y)) as (Hin & Hle & Hall).
    assert (Hm : (Qmin x y = x \/ Qmin x y = y) /\ Qmin x y <= x /\ Qmin x y <= y).
    { split; [|split; [apply Q.le_min_l|apply Q.le_min_r]].
      unfold Qmin, GenericMinMax.gmin. destruct (x ?= y); auto. }
    destruct Hm as (Hm & Hx & Hy).
    repeat split.
    + destruct Hin as [Hin|Hin]; [|auto].
      rewrite Hin. destruct Hm as [->| ->]; auto.
    + lra.
    + constructor; [lra|exact Hall].
Qed.

Lemma fold_left_Qmax (a : list Q) (x : Q) :
  (fold_left Qmax a x = x \/ In (fold_left Qmax a x) a)
  /\ x <= fold_left Qmax a x
  /\ Forall (fun v => v <= fold_left Qmax a x) a.
Proof.
  revert x. induction a as [|y a IH]; intros x; cbn.
  - repeat split; [left; reflexivity|lra|constructor].
  - destruct (IH (Qmax x y)) as (Hin & Hle & Hall).
    assert (Hm : (Qmax x y = x \/ Qmax x y = y) /\ x <= Qmax x y /\ y <= Qmax x y).
    { split; [|split; [apply Q.le_max_l|apply Q.le_max_r]].
      unfold Qmax, GenericMinMax.gmax. destruct (x ?= y); auto. }
    destruct Hm as (Hm & Hx & Hy).
    repeat split.
    + destruct Hin as [Hin|Hin]; [|auto].
      rewrite Hin. destruct Hm as [->| ->]; auto.
    + lra.
    + constructor; [lra|exact Hall].
Qed.

Lemma amin_smallest (a : list Q) (m : Q) :
  np.amin a = Ok m -> BinNorm.smallest m a.
Proof.
  destruct a as [|x a]; cbn; [discriminate|].
  intros [= <-]. destruct (fold_left_Qmin a x) as (Hin & Hle & Hall).
  split; [|constructor; assumption].
  destruct Hin as [->|Hin]; [left; reflexivity|right; exact Hin].
Qed.

Lemma amax_largest (a : list Q) (m : Q) :
  np.amax a = Ok m -> BinNorm.largest m a.
Proof.
  destruct a as [|x a]; cbn; [discriminate|].
  intros [= <-]. destruct (fold_left_Qmax a x) as (Hin & Hle & Hall).
  split; [|constructor; assumption].
  destruct Hin as [->|Hin]; [left; reflexivity|right; exact Hin].
Qed.

Lemma str_in_In (s : string) (options : list string) :
  BinNorm.str_in s options = true <-> In s options.
Proof.
  unfold BinNorm.str_in. rewrite existsb_exists. split.
  - intros (x & Hx & E). apply String.eqb_eq in E. subst. exact Hx.
  - intros H. exists s. split; [exact H|apply String.eqb_refl].
Qed.

Lemma not_increasing_iff (levels : list Q) :
  existsb (fun d => Qle_bool d 0) (np.diff levels) = true
  <-> ~ np.increasing levels.
Proof.
  unfold np.increasing. rewrite existsb_exists. split.
  - intros (d & Hd & E) H. apply Qle_bool_true in E.
    rewrite Forall_forall in H. apply list_elem_of_In in Hd.
    specialize (H d Hd). lra.
  - intros H. induction (np.diff levels) as [|d l IH].
    + destruct H. constructor.
    + destruct (Qle_bool d 0) eqn:E.
      * exists d. split; [left; reflexivity|exact E].
      * apply Qle_bool_false in E.
        destruct IH as (d' & Hd' & E').
        { intros Hl. apply H. constructor; assumption. }
        exists d'. split; [right; exact Hd'|exact E'].
Qed.

Lemma increasing_accepted (levels : list Q) :
  np.increasing levels ->
  existsb (fun d => Qle_bool d 0) (np.diff levels) = false.
Proof.
  intros H. destruct (existsb _ _) eqn:E; [|reflexivity].
  apply not_increasing_iff in E. contradiction.
Qed.

(** C1 (amended): on an array of finite levels, with [norm] absent or a
    function applied to each level, the constructor of [BinNorm] raises
    [ValueError] exactly when there are fewer than two levels, or the
    successive differences are not all positive, or [extend], with [None]
    and the empty string read as ['both'], is not one of the four
    options; on success [boundaries] is the level array, [vmin] and
    [vmax] are its smallest and largest entries and [N] is its size. *)
Theorem BinNorm_init_spec (levels : list Q) (norm : option (Q -> Q))
    (clip : bool) (step : Q) (extend : option string) :
  (raises (BinNorm.__init__ levels norm clip step extend) ValueError
   <-> BinNorm.invalid levels extend)
  /\ match BinNorm.__init__ levels norm clip step extend with
     | Ok self =>
         BinNorm.boundaries self = levels
         /\ BinNorm.smallest (BinNorm.vmin self) levels
         /\ BinNorm.largest (BinNorm.vmax self) levels
         /\ BinNorm.N self = length levels
     | Raise _ => True
     end.
Proof.
  unfold raises, BinNorm.__init__, BinNorm.invalid.
  destruct (length levels <=? 1)%nat eqn:Elen.
  { apply Nat.leb_le in Elen.
    split; [split; [intros _; left; lia|reflexivity]|exact I]. }
  apply Nat.leb_gt in Elen.
  destruct (existsb (fun d => Qle_bool d 0) (np.diff levels)) eqn:Einc.
  { apply not_increasing_iff in Einc.
    split; [split; [intros _; right; left; exact Einc|reflexivity]|exact I]. }
  assert (Hinc : ~ ~ np.increasing levels).
  { intros H. apply not_increasing_iff in H. congruence. }
  destruct (BinNorm.str_in (BinNorm.extend_or_both extend)
              ["both"; "min"; "max"; "neither"]%string) eqn:Eext; cbn [negb].
  2:{ split; [split; [intros _|reflexivity]|exact I].
      right; right. intros H. apply str_in_In in H.
      unfold BinNorm.extend_options in H. congruence. }
  apply str_in_In in Eext.
  destruct levels as [|a [|b levels]]; cbn in Elen; try lia.
  cbn -[BinNorm.str_in BinNorm.finite_quotients fold_left].
  split.
  - split; [discriminate|].
    intros [H|[H|H]]; [cbn in H; lia|contradiction|contradiction].
  - repeat split; try (constructor; fail).
    + apply amin_smallest. reflexivity.
    + apply amin_smallest. reflexivity.
    + apply amax_largest. reflexivity.
    + apply amax_largest. reflexivity.
Qed.

(** C1 as stated fails: with [extend=None] (or the empty string) the
    argument is none of the four options, yet nothing is raised, because
    the constructor first replaces a falsy [extend] by ['both']. *)
Lemma BinNorm_init_extend_none_accepted :
  ~ (raises (BinNorm.__init__ [0; 1] None false 1 None) ValueError
     <-> BinNorm.invalid_as_passed [0; 1] None).
Proof.
  intros [_ H].
  assert (E : raises (BinNorm.__init__ [0; 1] None false 1 None) ValueError).
  { apply H. right; right. cbn. intros [E|[E|[E|[E|[]]]]]; discriminate. }
  vm_compute in E. discriminate.
Qed.

(** Why the levels are taken finite: the test of the levels on arrays of
    floats is, on finite levels, the test of [BinNorm.__init__] above; and
    it lets an array with a [nan] level pass, although no difference of
    that array is positive. *)
Lemma levels_refused_finite (levels : list Q) :
  BinNorm.levels_refused (map Some levels)
  = ((length levels <=? 1)%nat
     || existsb (fun d => Qle_bool d 0) (np.diff levels))%bool.
Proof.
  unfold BinNorm.levels_refused. rewrite length_map. f_equal.
  unfold BinNorm.float_diff, np.diff.
  assert (E : forall a b : list Q,
             existsb (fun d => match d with
                               | Some d => Qle_bool d 0
                               | None => false
                               end)
               (zip_with (fun a b => match a, b with
                                     | Some a, Some b => Some (a - b)
                                     | _, _ => None
                                     end) (map Some a) (map Some b))
             = existsb (fun d => Qle_bool d 0) (zip_with Qminus a b)).
  { induction a as [|x a IH]; intros [|y b]; cbn; try reflexivity.
    rewrite IH. reflexivity. }
  rewrite <- E. f_equal. f_equal.
  - destruct levels; reflexivity.
  - induction levels as [|x [|y l] IH]; try reflexivity.
    change (removelast (map Some (x :: y :: l)))
      with (Some x :: removelast (map Some (y :: l))).
    rewrite IH. reflexivity.
Qed.

Lemma BinNorm_nan_level_passes :
  BinNorm.levels_refused [Some 0; None; Some 1] = false
  /\ Forall (fun d => d = None) (BinNorm.float_diff [Some 0; None; Some 1]).
Proof. split; [reflexivity|repeat constructor]. Qed.

Example BinNorm_table_three_levels :
  exists self,
    BinNorm.__init__ [0; 1; 3] None false 1 (Some "both"%string) = Ok self
    /\ Forall2 Qeq (BinNorm._y self) [0; 1 # 3; 2 # 3; 1]
    /\ BinNorm.__call__ self 4 = Ok 1.
Proof.
  eexists. split; [reflexivity|]. split; [|reflexivity].
  cbn. repeat constructor; reflexivity.
Qed.

(** C2 fails on the code for two levels: the single level centre is
    normalised by 0/0, dropped as not finite, and the table [_y] has two
    entries instead of three; a value above the top level is looked up at
    index 2 and the call raises [IndexError] instead of returning 1. *)
Theorem BinNorm_call_two_levels_above :
  exists self,
    BinNorm.__init__ [0; 1] None false 1 (Some "neither"%string) = Ok self
    /\ BinNorm._y self = [0; 1]
    /\ BinNorm.__call__ self 2 = Raise IndexError.
Proof.
  eexists. split; [reflexivity|]. split; [reflexivity|]. reflexivity.
Qed.

(** *** Sorted level arrays *)

Lemma diff_cons (a b : Q) (l : list Q) :
  np.diff (a :: b :: l) = (b - a) :: np.diff (b :: l).
Proof. reflexivity. Qed.

Lemma increasing_cons (a b : Q) (l : list Q) :
  np.increasing (a :: b :: l) <-> a < b /\ np.increasing (b :: l).
Proof.
  unfold np.increasing. rewrite diff_cons. split.
  - intros H. inversion H; subst. split; [lra|assumption].
  - intros [H1 H2]. constructor; [lra|assumption].
Qed.

Lemma increasing_lookup (l : list Q) (i j : nat) (a b : Q) :
  np.increasing l -> (i < j)%nat ->
  nth_error l i = Some a -> nth_error l j = Some b -> a < b.
Proof.
  revert i j a b. induction l as [|x l IH]; intros i j a b Hinc Hij Hi Hj.
  - destruct i; discriminate.
  - destruct j as [|j]; [lia|]. cbn in Hj.
    destruct l as [|y l]; [destruct j; discriminate|].
    apply increasing_cons in Hinc. destruct Hinc as [Hxy Hinc].
    destruct i as [|i]; cbn in Hi.
    + injection Hi as <-. destruct j as [|j]; cbn in Hj.
      * injection Hj as <-. exact Hxy.
      * assert (y < b) by (apply (IH 0%nat (S j) y b); auto; lia). lra.
    + apply (IH i j a b); auto. lia.
Qed.

(** *** [np.searchsorted] *)

Lemma searchsorted_le (a : list Q) (v : Q) :
  (np.searchsorted a v <= length a)%nat.
Proof.
  induction a as [|x a IH]; cbn; [lia|].
  destruct (Qlt_le_dec x v); lia.
Qed.

Lemma searchsorted_below (a : list Q) (v : Q) (i : nat) (xi : Q) :
  (i < np.searchsorted a v)%nat -> nth_error a i = Some xi -> xi < v.
Proof.
  revert i. induction a as [|x a IH]; intros i; cbn; [lia|].
  destruct (Qlt_le_dec x v) as [Hlt|Hle]; [|lia].
  destruct i as [|i]; cbn.
  - intros _ [= <-]. exact Hlt.
  - intros Hi. apply IH. lia.
Qed.

Lemma searchsorted_at (a : list Q) (v : Q) (xs : Q) :
  nth_error a (np.searchsorted a v) = Some xs -> v <= xs.
Proof.
  induction a as [|x a IH]; cbn; [discriminate|].
  destruct (Qlt_le_dec x v) as [Hlt|Hle]; cbn.
  - exact IH.
  - intros [= <-]. exact Hle.
Qed.

Lemma searchsorted_unique (a : list Q) (v : Q) (k : nat) :
  (k <= length a)%nat ->
  (forall i xi, (i < k)%nat -> nth_error a i = Some xi -> xi < v) ->
  (forall xk, nth_error a k = Some xk -> v <= xk) ->
  np.searchsorted a v = k.
Proof.
  revert k. induction a as [|x a IH]; intros k Hk Hlo Hhi; cbn in *.
  - lia.
  - destruct (Qlt_le_dec x v) as [Hlt|Hle].
    + destruct k as [|k].
      * specialize (Hhi x eq_refl). lra.
      * f_equal. apply IH; [lia| |].
        -- intros i xi Hi E. apply (Hlo (S i) xi); [lia|exact E].
        -- intros xk E. apply (Hhi xk). exact E.
    + destruct k as [|k]; [reflexivity|].
      specialize (Hlo 0%nat x ltac:(lia) eq_refl). lra.
Qed.

Lemma getitem_nat (a : list Q) (i : nat) (v : Q) :
  nth_error a i = Some v -> np.getitem a (Z.of_nat i) = Ok v.
Proof.
  intros E. unfold np.getitem.
  assert (Ei : (Z.of_nat i <? 0)%Z = false) by (apply Z.ltb_ge; lia).
  cbv zeta. rewrite !Ei, Nat2Z.id, E. reflexivity.
Qed.

Lemma getitem_outside (a : list Q) (i : nat) :
  (length a <= i)%nat -> np.getitem a (Z.of_nat i) = Raise IndexError.
Proof.
  intros H. unfold np.getitem.
  assert (Ei : (Z.of_nat i <? 0)%Z = false) by (apply Z.ltb_ge; lia).
  cbv zeta. rewrite !Ei, Nat2Z.id.
  apply nth_error_None in H. rewrite H. reflexivity.
Qed.

(** *** The table of a [BinNorm] with three or more levels *)

Lemma searchsorted_all_above (a : list Q) (v : Q) :
  Forall (fun l => v < l) a -> np.searchsorted a v = 0%nat.
Proof.
  intros H. destruct a as [|x a]; [reflexivity|].
  inversion H; subst. cbn. destruct (Qlt_le_dec x v); [lra|reflexivity].
Qed.

Lemma searchsorted_all_below (a : list Q) (v : Q) :
  Forall (fun l => l < v) a -> np.searchsorted a v = length a.
Proof.
  induction 1 as [|x a Hx Ha IH]; cbn; [reflexivity|].
  destruct (Qlt_le_dec x v); [rewrite IH; reflexivity|lra].
Qed.

Lemma getitem_Forall (P : Q -> Prop) (a : list Q) (i : nat) :
  Forall P a -> (i < length a)%nat ->
  exists v, np.getitem a (Z.of_nat i) = Ok v /\ P v.
Proof.
  intros HP Hi.
  destruct (nth_error a i) as [v|] eqn:E;
    [|apply nth_error_None in E; lia].
  exists v. split; [apply getitem_nat; exact E|].
  rewrite Forall_forall in HP. apply HP.
  apply list_elem_of_In. apply (nth_error_In a i). exact E.
Qed.

Lemma getitem_last (a : list Q) (v : Q) :
  np.getitem (a ++ [v]) (Z.of_nat (length a)) = Ok v.
Proof.
  apply getitem_nat. rewrite nth_error_app2 by lia.
  rewrite Nat.sub_diag. reflexivity.
Qed.

Lemma centers_length (a : list Q) :
  length (zip_with (fun a b => (a + b) / 2) (tail a) (removelast a))
  = (length a - 1)%nat.
Proof.
  rewrite length_zip_with, length_tl, removelast_firstn_len, length_take. lia.
Qed.

Lemma eps_bounds (n : nat) :
  (3 <= n)%nat -> 0 < 1 / inject_Z (Z.of_nat n) <= 1 # 3.
Proof.
  intros Hn.
  assert (H3 : 3 <= inject_Z (Z.of_nat n)).
  { change 3 with (inject_Z 3). rewrite <- Zle_Qle. lia. }
  split.
  - apply div_pos; lra.
  - apply Qle_shift_div_r; lra.
Qed.

(** With three or more levels and the identity norm the table has one
    entry more than there are levels, all of them in [0, 1], the first is 0
    and the last is 1: every call returns a value in [0, 1], 0 below the
    levels and 1 above them. *)
Lemma BinNorm_call_unit_range (levels : list Q) (clip : bool)
    (extend : option string) (x : Q) :
  (3 <= length levels)%nat ->
  np.increasing levels ->
  In (BinNorm.extend_or_both extend) BinNorm.extend_options ->
  exists self y,
    BinNorm.__init__ levels None clip 1 extend = Ok self
    /\ BinNorm.__call__ self x = Ok y
    /\ 0 <= y <= 1
    /\ (Forall (fun l => x < l) levels -> y = 0)
    /\ (Forall (fun l => l < x) levels -> y = 1).
Proof.
  intros Hlen Hinc Hext.
  pose proof (eps_bounds (length levels) Hlen) as Heps.
  unfold BinNorm.__init__.
  replace (length levels <=? 1)%nat with false
    by (symmetry; apply Nat.leb_gt; lia).
  rewrite (increasing_accepted levels Hinc).
  unfold BinNorm.extend_options in Hext.
  rewrite (proj2 (str_in_In _ _) Hext). cbn [negb default].
  rewrite map_id.
  pose proof (centers_length levels) as Hcl.
  set (x_m := zip_with (fun a b => (a + b) / 2) (tail levels) (removelast levels)) in *.
  set (eps := 1 / inject_Z (Z.of_nat (length levels))) in *.
  (* the centres and their range *)
  assert (Hm : exists m1 m2 ms, x_m = m1 :: m2 :: ms /\ m1 < m2).
  { subst x_m. destruct levels as [|a [|b [|c l]]]; cbn in Hlen; try lia.
    apply increasing_cons in Hinc. destruct Hinc as [Hab Hinc].
    apply increasing_cons in Hinc. destruct Hinc as [Hbc _].
    eexists _, _, _. split; [reflexivity|].
    apply Qlt_shift_div_l; [lra|].
    assert (E : (b + a) / 2 * 2 == b + a) by (field). lra. }
  destruct Hm as (m1 & m2 & ms & Em & Hm12). rewrite Em.
  cbn [np.amin np.amax mbind result_bind].
  destruct (fold_left_Qmin (m2 :: ms) m1) as (_ & Hlo1 & Hlo).
  destruct (fold_left_Qmax (m2 :: ms) m1) as (_ & Hhi1 & Hhi).
  set (lo := fold_left Qmin (m2 :: ms) m1) in *.
  set (hi := fold_left Qmax (m2 :: ms) m1) in *.
  assert (Hrange : 0 < hi - lo).
  { inversion Hhi; subst. lra. }
  unfold BinNorm.finite_quotients.
  assert (Enz : Qeq_bool (hi - lo) 0 = false).
  { destruct (Qeq_bool (hi - lo) 0) eqn:E; [|reflexivity].
    apply Qeq_bool_iff in E. lra. }
  rewrite Enz.
  destruct levels as [|l0 levels']; [cbn in Hlen; lia|].
  cbn [np.amin np.amax mbind result_bind].
  eexists. 
  set (offset := if BinNorm.str_in _ _ then eps else 0).
  set (scale := 1 - _ - _).
  set (ys := map (fun v => v / (hi - lo)) (map (fun v => v - lo) (m1 :: m2 :: ms))).
  assert (Hys : Forall (fun v => 0 <= v <= 1) ys).
  { subst ys. rewrite !Forall_map. 
    assert (Hall : Forall (fun v => lo <= v <= hi) (m1 :: m2 :: ms)).
    { constructor; [lra|]. rewrite Forall_forall in *. intros v Hv.
      split; [apply Hlo|apply Hhi]; exact Hv. }
    eapply Forall_impl; [exact Hall|].
    intros v Hv. unfold compose. cbv beta in Hv |- *. apply div_unit; lra. }
  assert (Haff : forall v, 0 <= v <= 1 -> 0 <= offset + scale * v <= 1).
  { subst offset scale.
    destruct Hext as [E|[E|[E|[E|[]]]]]; rewrite <- E; cbn; intros v Hv; nra. }
  assert (Htable : Forall (fun v => 0 <= v <= 1)
                     ([0] ++ map (fun v => offset + scale * v) ys ++ [1])).
  { apply Forall_app. split; [repeat constructor; lra|].
    apply Forall_app. split; [|repeat constructor; lra].
    rewrite Forall_map. eapply Forall_impl; [exact Hys|].
    intros v Hv. unfold compose. apply Haff. exact Hv. }
  assert (Hsize : length ([0] ++ map (fun v => offset + scale * v) ys ++ [1])
                  = S (length (l0 :: levels'))).
  { rewrite !length_app, !length_map. subst ys. rewrite !length_map.
    rewrite <- Em, Hcl. cbn. lia. }
  pose proof (searchsorted_le (l0 :: levels') x) as Hidx.
  destruct (getitem_Forall _ _ (np.searchsorted (l0 :: levels') x) Htable
              ltac:(rewrite Hsize; lia)) as (y & Ey & Hy).
  exists y. split; [reflexivity|].
  unfold BinNorm.__call__. cbn [BinNorm._norm BinNorm._x_b BinNorm._y].
  split; [exact Ey|]. split; [exact Hy|]. split.
  - intros Hbelow. rewrite (searchsorted_all_above _ _ Hbelow) in Ey.
    rewrite (getitem_nat ([0] ++ _) 0%nat 0 eq_refl) in Ey. congruence.
  - intros Habove. rewrite (searchsorted_all_below _ _ Habove) in Ey.
    change ([0] ++ map (fun v => offset + scale * v) ys ++ [1])
      with ((0 :: map (fun v => offset + scale * v) ys) ++ [1]) in Ey.
    replace (length (l0 :: levels'))
      with (length (0 :: map (fun v => offset + scale * v) ys)) in Ey.
    + rewrite getitem_last in Ey. congruence.
    + cbn [length]. rewrite length_map. subst ys. rewrite !length_map.
      rewrite <- Em, Hcl. cbn. lia.
Qed.

(** With exactly two levels every value above the top level runs off the
    end of the table. *)
Lemma BinNorm_two_levels_overflow (a b : Q) (clip : bool)
    (extend : option string) (x : Q) :
  a < b ->
  In (BinNorm.extend_or_both extend) BinNorm.extend_options ->
  b < x ->
  exists self,
    BinNorm.__init__ [a; b] None clip 1 extend = Ok self
    /\ BinNorm._y self = [0; 1]
    /\ BinNorm.__call__ self x = Raise IndexError.
Proof.
  intros Hab Hext Hx. unfold BinNorm.extend_options in Hext.
  assert (Hinc : np.increasing [a; b]).
  { unfold np.increasing. cbn. repeat constructor. lra. }
  unfold BinNorm.__init__.
  rewrite (increasing_accepted _ Hinc), (proj2 (str_in_In _ _) Hext).
  cbn [length Nat.leb negb default map tail removelast zip_with np.amin
       np.amax fold_left mbind result_bind].
  unfold BinNorm.finite_quotients.
  assert (E : Qeq_bool ((b + a) / 2 - (b + a) / 2) 0 = true)
    by (apply Qeq_bool_iff; ring).
  rewrite E. eexists. split; [reflexivity|]. split; [reflexivity|].
  unfold BinNorm.__call__. cbn [BinNorm._norm BinNorm._x_b BinNorm._y].
  cbn [np.searchsorted]. qdec. reflexivity.
Qed.

(** ** [LinearSegmentedNorm] *)

(** One linear segment, and the segment read backwards. *)
Lemma interp_between (xl xr yl yr v : Q) :
  xl < xr -> yl < yr -> xl <= v <= xr ->
  let w := (v - xl) / (xr - xl) * (yr - yl) + yl in
  yl <= w <= yr
  /\ (xl < v -> yl < w)
  /\ (v == xl -> w == yl)
  /\ (w - yl) / (yr - yl) * (xr - xl) + xl == v.
Proof.
  intros Hx Hy Hv w. subst w.
  pose proof (div_unit (v - xl) (xr - xl)
                ltac:(lra) ltac:(lra) ltac:(lra)) as [D0 D1].
  assert (Dpos : xl < v -> 0 < (v - xl) / (xr - xl))
    by (intros H; apply div_pos; lra).
  assert (Dzero : v == xl -> (v - xl) / (xr - xl) == 0)
    by (intros H; rewrite H; field; lra).
  assert (Dinv : (v - xl) / (xr - xl) * (xr - xl) == v - xl)
    by (field; lra).
  set (d := (v - xl) / (xr - xl)) in *.
  repeat split.
  - nra.
  - nra.
  - intros H. specialize (Dpos H). nra.
  - intros H. rewrite (Dzero H). ring.
  - transitivity (d * (xr - xl) + xl); [field; lra|lra].
Qed.

Lemma nth_error_last (l : list Q) (d : Q) :
  l <> [] -> nth_error l (length l - 1) = Some (List.last l d).
Proof.
  induction l as [|a [|b l] IH]; intros H; [congruence|reflexivity|].
  replace (length (a :: b :: l) - 1)%nat with (S (length (b :: l) - 1))
    by (cbn; lia).
  cbn [nth_error]. rewrite IH by discriminate. reflexivity.
Qed.

Lemma linspace_length (a b : Q) (n : nat) : length (np.linspace a b n) = n.
Proof. unfold np.linspace. rewrite length_map, length_seq. reflexivity. Qed.

Lemma linspace_lookup (a b : Q) (n i : nat) :
  (i < n)%nat -> nth_error (np.linspace a b n) i = Some (np.linspace_item a b n i).
Proof.
  intros H. unfold np.linspace. rewrite nth_error_map, nth_error_seq.
  destruct (Nat.ltb_spec i n); [reflexivity|lia].
Qed.

Lemma linspace_step (n i : nat) :
  (2 <= n)%nat ->
  np.linspace_item 0 1 n i < np.linspace_item 0 1 n (S i).
Proof.
  intros Hn. unfold np.linspace_item. cbv zeta.
  assert (Hd : 0 < inject_Z (Z.of_nat n - 1)) by (apply inject_Z_pos; lia).
  pose proof (div_pos (1 - 0) (inject_Z (Z.of_nat n - 1)) ltac:(lra) Hd) as Hh.
  rewrite Nat2Z.inj_succ. unfold Z.succ. rewrite inject_Z_plus.
  set (h := (1 - 0) / inject_Z (Z.of_nat n - 1)) in *.
  change (inject_Z 1) with 1. nra.
Qed.

Lemma linspace_mono (n i j : nat) :
  (2 <= n)%nat -> (i <= j)%nat ->
  np.linspace_item 0 1 n i <= np.linspace_item 0 1 n j.
Proof.
  intros Hn Hij. induction Hij as [|j Hij IH]; [lra|].
  pose proof (linspace_step n j Hn). lra.
Qed.

Lemma clamp_index (s n : nat) :
  (2 <= n)%nat -> (s <= n - 1)%nat ->
  (if ((if (Z.of_nat s =? 0)%Z then 1%Z else Z.of_nat s) =? Z.of_nat n)%Z
   then (Z.of_nat n - 1)%Z
   else (if (Z.of_nat s =? 0)%Z then 1%Z else Z.of_nat s))
  = Z.of_nat (Nat.max 1 s).
Proof.
  intros Hn Hs.
  destruct (Z.eqb_spec (Z.of_nat s) 0) as [E|E].
  - destruct (Z.eqb_spec 1 (Z.of_nat n)); lia.
  - destruct (Z.eqb_spec (Z.of_nat s) (Z.of_nat n)); lia.
Qed.

Lemma pred_index (k : nat) :
  (1 <= k)%nat -> (Z.of_nat k - 1)%Z = Z.of_nat (k - 1).
Proof. lia. Qed.

(** C3: on an increasing level array of at least two entries, [inverse]
    undoes [__call__] for every value between the first and the last
    level. *)
Theorem LinearSegmentedNorm_roundtrip (levels : list Q) (clip : bool) (x : Q) :
  (2 <= length levels)%nat ->
  np.increasing levels ->
  hd 0 levels <= x -> x <= List.last levels 0 ->
  exists self y x',
    LinearSegmentedNorm.__init__ levels clip = Ok self
    /\ LinearSegmentedNorm.__call__ self x = Ok y
    /\ LinearSegmentedNorm.inverse self y = Ok x'
    /\ x' == x.
Proof.
  intros Hlen Hinc Hlo Hhi.
  set (n := length levels) in *.
  set (ys := np.linspace 0 1 n).
  assert (Hne : levels <> []) by (intros ->; cbn in Hlen; lia).
  (* the index found for [x] *)
  set (s := np.searchsorted levels x).
  assert (Hs : (s <= n - 1)%nat).
  { pose proof (searchsorted_le levels x) as Hle. fold s n in Hle.
    destruct (Nat.eq_dec s n) as [E|E]; [|lia].
    pose proof (nth_error_last levels 0 Hne) as Hlast. fold n in Hlast.
    pose proof (searchsorted_below levels x (n - 1) _ ltac:(fold s; lia) Hlast).
    lra. }
  set (k := Nat.max 1 s).
  assert (Hk : (1 <= k <= n - 1)%nat) by (subst k; lia).
  destruct (nth_error levels (k - 1)) as [xl|] eqn:Exl;
    [|apply nth_error_None in Exl; fold n in Exl; lia].
  destruct (nth_error levels k) as [xr|] eqn:Exr;
    [|apply nth_error_None in Exr; fold n in Exr; lia].
  assert (Hx : xl < xr)
    by (apply (increasing_lookup levels (k - 1) k); auto; lia).
  assert (Hxl : xl <= x /\ (s = 0%nat -> x == xl) /\ (s <> 0%nat -> xl < x)).
  { destruct (Nat.eq_dec s 0%nat) as [E|E].
    - assert (k = 1%nat) by (subst k; lia). subst k.
      replace (Nat.max 1 s - 1)%nat with 0%nat in Exl by lia.
      assert (Ehd : hd 0 levels = xl)
        by (destruct levels; [congruence|cbn in Exl |- *; congruence]).
      rewrite Ehd in Hlo.
      assert (x <= xl).
      { apply (searchsorted_at levels x). fold s. rewrite E. exact Exl. }
      repeat split; intros; try lra; try lia.
    - assert (xl < x)
        by (apply (searchsorted_below levels x (k - 1)); [fold s; lia|exact Exl]).
      repeat split; intros; try lra; try lia. }
  assert (Hxr : x <= xr).
  { destruct (Nat.eq_dec s 0%nat) as [E|E].
    - destruct Hxl as (_ & H0 & _). specialize (H0 E). lra.
    - apply (searchsorted_at levels x). fold s.
      replace s with k by (subst k; lia). exact Exr. }
  set (yl := np.linspace_item 0 1 n (k - 1)).
  set (yr := np.linspace_item 0 1 n k).
  assert (Eyl : nth_error ys (k - 1) = Some yl)
    by (apply linspace_lookup; lia).
  assert (Eyr : nth_error ys k = Some yr) by (apply linspace_lookup; lia).
  assert (Hy : yl < yr).
  { subst yl yr. replace k with (S (k - 1)) at 2 by lia.
    apply linspace_step. exact Hlen. }
  destruct (interp_between xl xr yl yr x Hx Hy ltac:(lra))
    as (Hw & Hwpos & Hwzero & Hback).
  set (w := (x - xl) / (xr - xl) * (yr - yl) + yl) in *.
  (* the index found for the normalised value *)
  assert (Hs' : Nat.max 1 (np.searchsorted ys w) = k
                /\ (np.searchsorted ys w <= n - 1)%nat).
  { destruct (Nat.eq_dec s 0%nat) as [E|E].
    - assert (np.searchsorted ys w = 0%nat).
      { apply searchsorted_unique; [lia|intros; lia|].
        intros y0 Ey0. destruct Hxl as (_ & H0 & _).
        assert (k = 1%nat) by (subst k; lia).
        replace (k - 1)%nat with 0%nat in Eyl by lia.
        rewrite Eyl in Ey0. injection Ey0 as <-.
        rewrite (Hwzero (H0 E)). lra. }
      rewrite H. subst k. lia.
    - assert (np.searchsorted ys w = k).
      { apply searchsorted_unique.
        - unfold ys. rewrite linspace_length. lia.
        - intros i yi Hi Eyi. unfold ys in Eyi.
          rewrite linspace_lookup in Eyi by lia. injection Eyi as <-.
          pose proof (linspace_mono n i (k - 1) Hlen ltac:(lia)) as Hm.
          fold yl in Hm. destruct Hxl as (_ & _ & H1).
          specialize (Hwpos (H1 E)). lra.
        - intros yk Eyk. rewrite Eyr in Eyk. injection Eyk as <-. lra. }
      rewrite H. lia. }
  destruct Hs' as [Hk' Hs'].
  exists {| LinearSegmentedNorm._x := levels; LinearSegmentedNorm._y := ys;
            LinearSegmentedNorm.vmin := fold_left Qmin (tail levels) (hd 0 levels);
            LinearSegmentedNorm.vmax := fold_left Qmax (tail levels) (hd 0 levels);
            LinearSegmentedNorm.clip := clip |},
    w, ((w - yl) / (yr - yl) * (xr - xl) + xl).
  split; [|split; [|split; [|exact Hback]]].
  - unfold LinearSegmentedNorm.__init__. fold n.
    replace (n <=? 1)%nat with false by (symmetry; apply Nat.leb_gt; lia).
    rewrite (increasing_accepted levels Hinc).
    destruct levels; [congruence|reflexivity].
  - unfold LinearSegmentedNorm.__call__, np.len. cbv zeta.
    cbn [LinearSegmentedNorm._x LinearSegmentedNorm._y].
    fold n s. rewrite (clamp_index s n Hlen Hs). fold k.
    rewrite (pred_index k) by lia.
    rewrite (getitem_nat _ _ _ Exl), (getitem_nat _ _ _ Exr).
    cbn [mbind result_bind].
    rewrite (getitem_nat _ _ _ Eyr), (getitem_nat _ _ _ Eyl).
    reflexivity.
  - unfold LinearSegmentedNorm.inverse, np.len. cbv zeta.
    cbn [LinearSegmentedNorm._x LinearSegmentedNorm._y].
    replace (length ys) with n by (unfold ys; rewrite linspace_length; reflexivity).
    rewrite (clamp_index _ n Hlen Hs'). rewrite Hk'.
    rewrite (pred_index k) by lia.
    rewrite (getitem_nat _ _ _ Eyl), (getitem_nat _ _ _ Eyr).
    cbn [mbind result_bind].
    rewrite (getitem_nat _ _ _ Exr), (getitem_nat _ _ _ Exl).
    reflexivity.
Qed.

Lemma LinearSegmentedNorm_roundtrip_witness :
  exists self y x',
    LinearSegmentedNorm.__init__ [0; 1; 3] false = Ok self
    /\ LinearSegmentedNorm.__call__ self 2 = Ok y
    /\ LinearSegmentedNorm.inverse self y = Ok x'
    /\ x' == 2.
Proof.
  apply (LinearSegmentedNorm_roundtrip [0; 1; 3] false 2).
  - cbn. lia.
  - unfold np.increasing. cbn. repeat constructor.
  - cbn. lra.
  - cbn. lra.
Defined.

(** ** [merge_cmaps] *)

Lemma merge_cmaps_too_few {S : Type}
    (merge_segmentdata :
       list (colortools.Colormap S) -> list Q -> string -> nat ->
       result (colortools.Colormap S))
    (_cmaps : list (colortools.Colormap S)) (name : string) (N : nat)
    (ratios : colortools.pyratios) :
  (length _cmaps < 2)%nat ->
  colortools.merge_cmaps merge_segmentdata _cmaps name N ratios = Raise ValueError.
Proof.
  intros H. unfold colortools.merge_cmaps.
  replace (length _cmaps <=? 1)%nat with true
    by (symmetry; apply Nat.leb_le; lia).
  reflexivity.
Qed.

(** Whatever [ratios] is, the test [np.all(ratios == 1)] compares a Python
    list with an [int] and fails, so listed colormaps are never merged. *)
Lemma merge_cmaps_listed_raises {S : Type}
    (merge_segmentdata :
       list (colortools.Colormap S) -> list Q -> string -> nat ->
       result (colortools.Colormap S))
    (_cmaps : list (colortools.Colormap S)) (name : string) (N : nat)
    (ratios : colortools.pyratios) :
  forallb colortools.is_listed _cmaps = true ->
  colortools.merge_cmaps merge_segmentdata _cmaps name N ratios = Raise ValueError.
Proof.
  intros H. unfold colortools.merge_cmaps, colortools.colormap.
  destruct (length _cmaps <=? 1)%nat; [reflexivity|].
  rewrite map_id, H. reflexivity.
Qed.

(** C5 fails on the code: two [ListedColormap]s merged with the default
    [ratios=1] give [ValueError], not the colormap of the concatenated
    colours. *)
Theorem merge_cmaps_listed_default_ratios {S : Type}
    (merge_segmentdata :
       list (colortools.Colormap S) -> list Q -> string -> nat ->
       result (colortools.Colormap S)) :
  colortools.merge_cmaps merge_segmentdata
    [colortools.ListedColormap [(1, 0, 0); (0, 1, 0)] "first" 2;
     colortools.ListedColormap [(0, 0, 1)] "second" 1]
    "merged" 512 (colortools.RNumber 1)
  = Raise ValueError.
Proof. reflexivity. Qed.

(** ** [_auto_levels_locator] *)

(** C6 (amended): an iterable [N] is returned twice, unchanged, whatever
    the other arguments are; for any other [N] a call with [positive] and
    [negative] both true raises, and what it raises is [ValueError] as soon
    as the normalizer can be built. *)
Theorem auto_levels_locator_spec {Locator Kw Normalizer : Type}
    (Norm : string -> option Kw -> result Normalizer)
    (locate_levels :
       Normalizer -> Z -> plot.locator_args Locator Kw ->
       result (plot.levels_arg * plot.locator_out Locator))
    (a : plot.locator_args Locator Kw) :
  (plot.iterable (plot.N a) = true ->
   plot._auto_levels_locator Norm locate_levels a
   = Ok (plot.N a, plot.LocLevels (plot.N a)))
  /\ (plot.iterable (plot.N a) = false ->
      plot.positive a = true -> plot.negative a = true ->
      (exists e, plot._auto_levels_locator Norm locate_levels a = Raise e)
      /\ (returns (Norm (plot.norm_or_linear (plot.norm a)) (plot.norm_kw a)) ->
          raises (plot._auto_levels_locator Norm locate_levels a) ValueError)).
Proof.
  unfold plot._auto_levels_locator, raises, returns. split.
  - intros ->. reflexivity.
  - intros -> -> ->.
    destruct (Norm _ _) as [nrm|e]; cbn.
    + split; [exists ValueError; reflexivity|intros _; reflexivity].
    + split; [exists e; reflexivity|intros [nrm H]; discriminate].
Qed.

Lemma auto_levels_locator_spec_witness :
  plot._auto_levels_locator
    (fun (_ : string) (_ : option unit) => Ok tt)
    (fun (_ : unit) (_ : Z) (_ : plot.locator_args unit unit) =>
       Ok (plot.NIter [0; 1], plot.LocNone))
    (plot.mk_locator_args unit unit [] (plot.NIter [1; 2; 3]) None None None None
       "neither" None None false false false false)
  = Ok (plot.NIter [1; 2; 3], plot.LocLevels (plot.NIter [1; 2; 3]))
  /\ raises
       (plot._auto_levels_locator
          (fun (_ : string) (_ : option unit) => Ok tt)
          (fun (_ : unit) (_ : Z) (_ : plot.locator_args unit unit) =>
             Ok (plot.NIter [0; 1], plot.LocNone))
          (plot.mk_locator_args unit unit [] (plot.NInt 5) None None None None
             "neither" None None false true true false))
       ValueError.
Proof.
  split.
  - exact (proj1 (auto_levels_locator_spec
                    (fun (_ : string) (_ : option unit) => Ok tt)
                    (fun (_ : unit) (_ : Z) (_ : plot.locator_args unit unit) =>
                       Ok (plot.NIter [0; 1], plot.LocNone))
                    (plot.mk_locator_args unit unit [] (plot.NIter [1; 2; 3])
                       None None None None "neither" None None
                       false false false false))
             eq_refl).
  - refine (proj2 (proj2 (auto_levels_locator_spec
                     (fun (_ : string) (_ : option unit) => Ok tt)
                     (fun (_ : unit) (_ : Z) (_ : plot.locator_args unit unit) =>
                        Ok (plot.NIter [0; 1], plot.LocNone))
                     (plot.mk_locator_args unit unit [] (plot.NInt 5)
                        None None None None "neither" None None
                        false true true false))
                    eq_refl eq_refl eq_refl) _).
    exists tt. reflexivity.
Defined.

(** C6 as stated fails: with an iterable [N] the call returns before the
    options are looked at, also when [positive] and [negative] are both
    true. *)
Lemma auto_levels_locator_iterable_first :
  ~ raises
      (plot._auto_levels_locator
         (fun (_ : string) (_ : option unit) => Ok tt)
         (fun (_ : unit) (_ : Z) (_ : plot.locator_args unit unit) =>
            Ok (plot.NIter [0; 1], plot.LocNone))
         (plot.mk_locator_args unit unit [] (plot.NIter [1; 2; 3]) None None None
            None "neither" None None false true true false))
      ValueError.
Proof. unfold raises. cbn. discriminate. Qed.

(** ** [standardize_1d] *)

Lemma name_in_tail (name first : string) (names : list string) :
  plot.name_in name (first :: names) = false -> plot.name_in name names = false.
Proof.
  unfold plot.name_in. cbn. intros H.
  apply orb_false_iff in H. apply H.
Qed.

(** C7 (amended): more than four positional arguments give [ValueError];
    a single one dimensional array [y], for a method other than [hist],
    [boxplot] and [violinplot] and without [means] or [medians], is passed
    on with the coordinates [np.arange(y.shape[0])], unless the axes is a
    basemap axes called with a true [latlon], where the coordinates go
    through the longitude fixes first. *)
Theorem standardize_1d_spec (self : plot.axes) (name : string) (kw : plot.kwargs) :
  (forall args, (4 < length args)%nat ->
                plot.standardize_1d self name args kw = Raise ValueError)
  /\ (forall y,
        plot.name_in name ["hist"; "boxplot"; "violinplot"]%string = false ->
        plot.means kw = None -> plot.medians kw = None ->
        ~ (plot.axes_name self = "proplot_basemap"%string
           /\ plot.truthy (plot.latlon kw) = true) ->
        plot.standardize_1d self name [plot.Array1 y] kw
        = Ok {| plot.call_x := Some (plot.Array1 (plot.arange (length y)));
                plot.call_ys := [plot.Array1 y];
                plot.call_args := [];
                plot.call_kwargs := kw |}).
Proof.
  split.
  - intros [|x [|y args]] H; cbn in H; try lia.
    unfold plot.standardize_1d.
    replace (length args <=? 2)%nat with false
      by (symmetry; apply Nat.leb_gt; lia).
    reflexivity.
  - intros y Hname Hmeans Hmedians Hmap.
    assert (Hbox : plot.name_in name ["boxplot"; "violinplot"]%string = false)
      by (apply name_in_tail in Hname; exact Hname).
    assert (Hbase : (String.eqb (plot.axes_name self) "proplot_basemap"
                     && plot.truthy (plot.latlon kw))%bool = false).
    { destruct (String.eqb_spec (plot.axes_name self) "proplot_basemap");
        [|reflexivity].
      destruct (plot.truthy (plot.latlon kw)) eqn:E; [|reflexivity].
      destruct Hmap. split; [assumption|reflexivity]. }
    unfold plot.standardize_1d. cbn [map plot._to_arraylike hd].
    rewrite Hname, Hmeans, Hmedians. cbn [existsb plot.truthy default orb].
    cbn [plot._axis_labels_title plot.ndim Nat.ltb Nat.leb plot.shape
         plot._to_arraylike Nat.eqb negb].
    unfold plot._auto_format_1d, plot._is_string.
    rewrite andb_false_r. cbn [andb].
    destruct (negb (bool_decide (is_Some (plot.projection self))));
      rewrite Hbox, Hbase; reflexivity.
Qed.

Lemma standardize_1d_spec_witness :
  plot.standardize_1d (plot.mk_axes None "") "plot"
    [plot.Array1 [Some 5; Some 7; Some 6]] (plot.mk_kwargs None None None None None)
  = Ok {| plot.call_x := Some (plot.Array1 [Some 0; Some 1; Some 2]);
          plot.call_ys := [plot.Array1 [Some 5; Some 7; Some 6]];
          plot.call_args := [];
          plot.call_kwargs := plot.mk_kwargs None None None None None |}.
Proof.
  refine (proj2 (standardize_1d_spec (plot.mk_axes None "") "plot"
                   (plot.mk_kwargs None None None None None))
            [Some 5; Some 7; Some 6] eq_refl eq_refl eq_refl _).
  cbn. intros [H _]. discriminate.
Defined.

(** C7 as stated fails: on a basemap axes whose projection spans the
    longitudes -180 to 180, a call with [latlon=True] and 183 values gets
    the coordinates -179, -178, 0, 1, ..., 180, not 0, 1, ..., 182. *)
Lemma standardize_1d_basemap_rolls :
  exists c rest,
    plot.standardize_1d (plot.mk_axes (Some (-180, 180)) "proplot_basemap") "plot"
      [plot.Array1 (repeat (Some 0) 183)]
      (plot.mk_kwargs None None (Some true) None None)
    = Ok c
    /\ plot.call_x c = Some (plot.Array1 (Some (-179) :: Some (-178) :: rest))
    /\ plot.call_x c <> Some (plot.Array1 (plot.arange 183)).
Proof.
  eexists _, _. split; [vm_compute; reflexivity|].
  split; [reflexivity|]. vm_compute. discriminate.
Qed.

(** *** The loop of [_fix_latlon] ends within its fuel *)

Lemma Qceiling_unique (q : Q) (z : Z) :
  inject_Z (z - 1) < q -> q <= inject_Z z -> Qceiling q = z.
Proof.
  intros Hlo Hhi.
  pose proof (Qle_ceiling q) as Hc1. pose proof (Qceiling_lt q) as Hc2.
  assert (H1 : inject_Z (z - 1) < inject_Z (Qceiling q)) by lra.
  assert (H2 : inject_Z (Qceiling q - 1) < inject_Z z) by lra.
  rewrite <- Zlt_Qlt in H1, H2. lia.
Qed.

Lemma Qceiling_pred (q : Q) : Qceiling (q - 1) = (Qceiling q - 1)%Z.
Proof.
  pose proof (Qle_ceiling q) as Hc1. pose proof (Qceiling_lt q) as Hc2.
  apply Qceiling_unique.
  - replace (Qceiling q - 1 - 1)%Z with ((Qceiling q - 1) + (-1))%Z by lia.
    rewrite inject_Z_plus. change (inject_Z (-1)) with (-(1)). lra.
  - replace (Qceiling q - 1)%Z with (Qceiling q + (-1))%Z by lia.
    rewrite inject_Z_plus. change (inject_Z (-1)) with (-(1)). lra.
Qed.

Lemma passes_settled (lon1 v : plot.float) :
  plot.lt v lon1 = false -> plot.passes lon1 v = 0%nat.
Proof.
  destruct lon1 as [l|], v as [p|]; cbn; try reflexivity.
  intros H. apply negb_false_iff, Qle_bool_true in H.
  assert (Hq : (l - p) / 360 <= 0).
  { apply Qle_shift_div_r; lra. }
  apply Qceiling_resp_le in Hq. change (Qceiling 0) with 0%Z in Hq. lia.
Qed.

Lemma passes_bump (lon1 v : plot.float) :
  plot.lt v lon1 = true ->
  (1 <= plot.passes lon1 v)%nat
  /\ plot.passes lon1 (plot.add v 360) = (plot.passes lon1 v - 1)%nat.
Proof.
  destruct lon1 as [l|], v as [p|]; cbn; try discriminate.
  intros H. apply negb_true_iff, Qle_bool_false in H.
  assert (Hpos : 0 < (l - p) / 360) by (apply div_pos; lra).
  assert (Hc : (1 <= Qceiling ((l - p) / 360))%Z).
  { pose proof (Qle_ceiling ((l - p) / 360)) as Hc.
    assert (H0 : inject_Z 0 < inject_Z (Qceiling ((l - p) / 360)))
      by (change (inject_Z 0) with 0; lra).
    rewrite <- Zlt_Qlt in H0. lia. }
  assert (E : (l - (p + 360)) / 360 == (l - p) / 360 - 1) by field.
  rewrite E, Qceiling_pred. lia.
Qed.

Lemma passes_bound (lon1 : plot.float) (x : list plot.float) (v : plot.float) :
  In v x -> (plot.passes lon1 v <= foldr Nat.max 0%nat (map (plot.passes lon1) x))%nat.
Proof.
  induction x as [|w x IH]; cbn; [contradiction|].
  intros [->|H]; [lia|]. specialize (IH H). lia.
Qed.

Lemma bound_passes (lon1 : plot.float) (x : list plot.float) (m : nat) :
  Forall (fun v => (plot.passes lon1 v <= m)%nat) x ->
  (foldr Nat.max 0%nat (map (plot.passes lon1) x) <= m)%nat.
Proof. induction 1; cbn; lia. Qed.

Lemma bump_zip (lon1 : plot.float) (x : list plot.float) :
  zip_with (fun v (b : bool) => if b then plot.add v 360 else v) x
    (map (fun v => plot.lt v lon1) x)
  = map (fun v => if plot.lt v lon1 then plot.add v 360 else v) x.
Proof. induction x as [|v x IH]; cbn; [reflexivity|]. rewrite IH. reflexivity. Qed.

Lemma fix_loop_settles (fuel : nat) (lon1 : plot.float) (x : list plot.float) :
  (foldr Nat.max 0%nat (map (plot.passes lon1) x) < fuel)%nat ->
  existsb (fun v => plot.lt v lon1) (plot.fix_loop fuel lon1 x) = false.
Proof.
  revert x. induction fuel as [|fuel IH]; intros x Hfuel; [lia|].
  cbn [plot.fix_loop]. rewrite bump_zip.
  assert (Eb : existsb (fun b : bool => b) (map (fun v => plot.lt v lon1) x)
               = existsb (fun v => plot.lt v lon1) x).
  { clear. induction x as [|v x IH]; cbn; [reflexivity|]. rewrite IH. reflexivity. }
  rewrite Eb.
  destruct (existsb (fun v => plot.lt v lon1) x) eqn:E; cbn [negb]; [|exact E].
  apply IH.
  apply existsb_exists in E. destruct E as (w & Hw & Ew).
  pose proof (passes_bound lon1 x w Hw) as Hbw.
  destruct (passes_bump lon1 w Ew) as [Hw1 _].
  assert (Hall : Forall (fun v => (plot.passes lon1 v
                           <= foldr Nat.max 0%nat (map (plot.passes lon1) x) - 1)%nat)
                   (map (fun v => if plot.lt v lon1 then plot.add v 360 else v) x)).
  { rewrite Forall_map. apply Forall_forall. intros v Hv. unfold compose.
    apply list_elem_of_In in Hv.
    pose proof (passes_bound lon1 x v Hv) as Hbv.
    destruct (plot.lt v lon1) eqn:Ev.
    - destruct (passes_bump lon1 v Ev) as [_ ->]. lia.
    - rewrite (passes_settled lon1 v Ev). lia. }
  apply bound_passes in Hall. lia.
Qed.

(** [_fix_latlon] leaves no entry below the first one: its loop stops
    because no entry is left to shift, not because the fuel is used up. *)
Lemma fix_latlon_settles (x0 : plot.float) (xs : list plot.float)
    (y : plot.ndarray) :
  exists x',
    plot._fix_latlon (plot.Array1 (x0 :: xs)) y = Ok (plot.Array1 x', y)
    /\ existsb (fun v => plot.lt v x0) x' = false.
Proof.
  unfold plot._fix_latlon.
  assert (E : forallb (fun v => plot.lt v x0) (x0 :: xs) = false).
  { cbn. replace (plot.lt x0 x0) with false; [reflexivity|].
    destruct x0 as [p|]; cbn; [|reflexivity].
    symmetry. apply negb_false_iff, Qle_bool_true. lra. }
  rewrite E. eexists. split; [reflexivity|].
  apply fix_loop_settles. unfold plot.fix_fuel. lia.
Qed.

(** ** [_CmapDict] *)

Lemma lower_ascii_idem (c : ascii) :
  CmapDict.lower_ascii (CmapDict.lower_ascii c) = CmapDict.lower_ascii c.
Proof. destruct c as [[] [] [] [] [] [] [] []]; reflexivity. Qed.

Lemma lower_idem (s : string) : CmapDict.lower (CmapDict.lower s) = CmapDict.lower s.
Proof.
  induction s as [|c s IH]; cbn; [reflexivity|].
  rewrite lower_ascii_idem, IH. reflexivity.
Qed.

Lemma lower_app (s t : string) :
  CmapDict.lower (s ++ t) = (CmapDict.lower s ++ CmapDict.lower t)%string.
Proof. induction s as [|c s IH]; simpl; [reflexivity|]. rewrite IH. reflexivity. Qed.

Lemma list_ascii_app (s t : string) :
  list_ascii_of_string (s ++ t) = list_ascii_of_string s ++ list_ascii_of_string t.
Proof. induction s as [|c s IH]; simpl; [reflexivity|]. rewrite IH. reflexivity. Qed.

Lemma last2_suffix (k : string) : CmapDict.last2 (k ++ "_r") = "_r"%string.
Proof.
  unfold CmapDict.last2. rewrite list_ascii_app, length_app. cbn [length list_ascii_of_string].
  replace (length (list_ascii_of_string k) + 2 - 2)%nat
    with (length (list_ascii_of_string k)) by lia.
  rewrite drop_app_length. reflexivity.
Qed.

Lemma drop_last2_suffix (k : string) : CmapDict.drop_last2 (k ++ "_r") = k.
Proof.
  unfold CmapDict.drop_last2. rewrite list_ascii_app, length_app.
  cbn [length list_ascii_of_string].
  replace (length (list_ascii_of_string k) + 2 - 2)%nat
    with (length (list_ascii_of_string k)) by lia.
  rewrite take_app_length. apply string_of_list_ascii_of_string.
Qed.

Section CmapDictFacts.
Context {V : Type} (reversed : V -> option V).
Implicit Types (d : gmap CmapDict.pykey V) (k K : string) (v : V).

Lemma sanitize_stored d k v :
  d !! CmapDict.KStr k = Some v -> CmapDict.lower k = k ->
  CmapDict.last2 k <> "_r"%string ->
  CmapDict._sanitize_key d (CmapDict.KStr k) = Ok k.
Proof.
  intros Hd Hk Hr. unfold CmapDict._sanitize_key. rewrite Hk.
  destruct (String.eqb_spec (CmapDict.last2 k) "_r"); [contradiction|].
  rewrite Hd. rewrite bool_decide_eq_true_2 by (eexists; reflexivity).
  reflexivity.
Qed.

Lemma sanitize_stored_reversed d k v :
  d !! CmapDict.KStr k = Some v -> CmapDict.lower k = k ->
  CmapDict._sanitize_key d (CmapDict.KStr (k ++ "_r")) = Ok (k ++ "_r")%string.
Proof.
  intros Hd Hk. unfold CmapDict._sanitize_key.
  rewrite lower_app, Hk. change (CmapDict.lower "_r") with "_r"%string.
  rewrite last2_suffix, drop_last2_suffix. cbn [String.eqb Ascii.eqb Bool.eqb].
  rewrite Hd. rewrite bool_decide_eq_true_2 by (eexists; reflexivity).
  reflexivity.
Qed.

Lemma getitem_stored d k v :
  d !! CmapDict.KStr k = Some v -> CmapDict.last2 k <> "_r"%string ->
  CmapDict._getitem reversed d k = Ok v.
Proof.
  intros Hd Hr. unfold CmapDict._getitem.
  destruct (String.eqb_spec (CmapDict.last2 k) "_r"); [contradiction|].
  rewrite Hd. reflexivity.
Qed.

Lemma getitem_stored_reversed d k v :
  d !! CmapDict.KStr k = Some v ->
  CmapDict._getitem reversed d (k ++ "_r")
  = match reversed v with Some r => Ok r | None => Raise KeyError end.
Proof.
  intros Hd. unfold CmapDict._getitem.
  rewrite last2_suffix, drop_last2_suffix. cbn [String.eqb Ascii.eqb Bool.eqb].
  rewrite Hd. reflexivity.
Qed.

(** C8 (amended): a lookup does not depend on the case of the key, and
    for a stored key that does not itself end in ['_r'] the lookup gives
    the stored value and the key with ['_r'] appended gives its
    [reversed()]. *)
Theorem CmapDict_getitem_spec d k K v :
  d !! CmapDict.KStr k = Some v -> CmapDict.lower K = k ->
  CmapDict.__getitem__ reversed d (CmapDict.KStr K)
  = CmapDict.__getitem__ reversed d (CmapDict.KStr k)
  /\ (CmapDict.last2 k <> "_r"%string ->
      CmapDict.__getitem__ reversed d (CmapDict.KStr k) = Ok v
      /\ forall r, reversed v = Some r ->
           CmapDict.__getitem__ reversed d (CmapDict.KStr (k ++ "_r")) = Ok r
           /\ CmapDict.call_reversed reversed
                (CmapDict.__getitem__ reversed d (CmapDict.KStr k)) = Ok r).
Proof.
  intros Hd HK.
  assert (Hk : CmapDict.lower k = k) by (rewrite <- HK; apply lower_idem).
  split.
  - unfold CmapDict.__getitem__, CmapDict._sanitize_key.
    rewrite HK, Hk. reflexivity.
  - intros Hr.
    assert (Hget : CmapDict.__getitem__ reversed d (CmapDict.KStr k) = Ok v).
    { unfold CmapDict.__getitem__.
      rewrite (sanitize_stored d k v Hd Hk Hr). cbn [mbind result_bind].
      apply getitem_stored; assumption. }
    split; [exact Hget|].
    intros r Hrev. split.
    + unfold CmapDict.__getitem__.
      rewrite (sanitize_stored_reversed d k v Hd Hk). cbn [mbind result_bind].
      rewrite (getitem_stored_reversed d k v Hd), Hrev. reflexivity.
    + rewrite Hget. unfold CmapDict.call_reversed. cbn [mbind result_bind].
      rewrite Hrev. reflexivity.
Qed.

Lemma lowercase_keys_empty : CmapDict.lowercase_keys (∅ : gmap CmapDict.pykey V).
Proof. intros k [v H]. rewrite lookup_empty in H. discriminate. Qed.

Lemma lowercase_keys_insert d (s : string) v :
  CmapDict.lowercase_keys d ->
  CmapDict.lowercase_keys (<[CmapDict.KStr (CmapDict.lower s) := v]> d).
Proof.
  intros Hd k Hk.
  destruct (decide (CmapDict.KStr (CmapDict.lower s) = k)) as [<-|Hne].
  - eexists. split; [reflexivity|apply lower_idem].
  - rewrite lookup_insert_ne in Hk by exact Hne. apply Hd. exact Hk.
Qed.

Lemma init_raise_stays (f : result (gmap CmapDict.pykey V) -> CmapDict.pykey * V ->
                            result (gmap CmapDict.pykey V))
    (kwargs : list (CmapDict.pykey * V)) (e : exn) :
  (forall p, f (Raise e) p = Raise e) ->
  foldl f (Raise e) kwargs = Raise e.
Proof.
  intros Hf. induction kwargs as [|p kwargs IH]; cbn; [reflexivity|].
  rewrite Hf. exact IH.
Qed.
End CmapDictFacts.

Lemma CmapDict_getitem_spec_witness :
  CmapDict.__getitem__ (fun l : list nat => Some (rev l))
    (fst (CmapDict.__setitem__ (∅ : gmap CmapDict.pykey (list nat))
            (CmapDict.KStr "Blues") [1; 2; 3]%nat))
    (CmapDict.KStr "BLUES")
  = CmapDict.__getitem__ (fun l : list nat => Some (rev l))
      (fst (CmapDict.__setitem__ (∅ : gmap CmapDict.pykey (list nat))
              (CmapDict.KStr "Blues") [1; 2; 3]%nat))
      (CmapDict.KStr "blues")
  /\ CmapDict.__getitem__ (fun l : list nat => Some (rev l))
       (fst (CmapDict.__setitem__ (∅ : gmap CmapDict.pykey (list nat))
               (CmapDict.KStr "Blues") [1; 2; 3]%nat))
       (CmapDict.KStr "blues_r")
     = Ok [3; 2; 1]%nat.
Proof.
  assert (Hstored :
    fst (CmapDict.__setitem__ (∅ : gmap CmapDict.pykey (list nat))
           (CmapDict.KStr "Blues") [1; 2; 3]%nat)
      !! CmapDict.KStr "blues" = Some [1; 2; 3]%nat)
    by (vm_compute; reflexivity).
  destruct (CmapDict_getitem_spec (fun l : list nat => Some (rev l))
              _ "blues" "BLUES" [1; 2; 3]%nat Hstored eq_refl) as [Hcase Hrev].
  split; [exact Hcase|].
  destruct (Hrev ltac:(vm_compute; discriminate)) as [_ Hr].
  exact (proj1 (Hr [3; 2; 1]%nat eq_refl)).
Defined.

(** C8 as stated fails for a stored key that itself ends in ['_r'], which
    [__setitem__] accepts: the lookup of the key strips the suffix and
    misses, while the key with a second ['_r'] finds the stored value. *)
Lemma CmapDict_reversed_key_stored :
  fst (CmapDict.__setitem__ (∅ : gmap CmapDict.pykey (list nat))
         (CmapDict.KStr "a_r") [1; 2]%nat)
    !! CmapDict.KStr "a_r" = Some [1; 2]%nat
  /\ CmapDict.__getitem__ (fun l : list nat => Some (rev l))
       (fst (CmapDict.__setitem__ ∅ (CmapDict.KStr "a_r") [1; 2]%nat))
       (CmapDict.KStr ("a_r" ++ "_r"))
     = Ok [2; 1]%nat
  /\ CmapDict.call_reversed (fun l : list nat => Some (rev l))
       (CmapDict.__getitem__ (fun l : list nat => Some (rev l))
          (fst (CmapDict.__setitem__ ∅ (CmapDict.KStr "a_r") [1; 2]%nat))
          (CmapDict.KStr "a_r"))
     = Raise KeyError.
Proof. repeat split; vm_compute; reflexivity. Qed.

Lemma init_step_lowercase {V : Type} (kwargs : list (CmapDict.pykey * V))
    (acc d : gmap CmapDict.pykey V) :
  CmapDict.lowercase_keys acc ->
  foldl (fun acc '(key, value) =>
           kwargs_filtered ← acc;
           match key with
           | CmapDict.KInt _ => Raise KeyError
           | CmapDict.KStr key =>
               if negb (String.eqb (CmapDict.last2 key) "_r")
               then Ok (<[CmapDict.KStr (CmapDict.lower key) := value]> kwargs_filtered)
               else Ok kwargs_filtered
           end)
        (Ok acc) kwargs = Ok d ->
  CmapDict.lowercase_keys d.
Proof.
  revert acc. induction kwargs as [|[[s|z] v] kwargs IH]; intros acc Hacc; cbn.
  - intros [= <-]. exact Hacc.
  - destruct (negb (String.eqb (CmapDict.last2 s) "_r")).
    + apply IH. apply lowercase_keys_insert. exact Hacc.
    + apply IH. exact Hacc.
  - rewrite init_raise_stays; [discriminate|].
    intros [k w]. reflexivity.
Qed.

Lemma init_step_filter {V : Type} (kwargs : list (CmapDict.pykey * V))
    (acc : result (gmap CmapDict.pykey V)) :
  foldl (fun acc '(key, value) =>
           kwargs_filtered ← acc;
           match key with
           | CmapDict.KInt _ => Raise KeyError
           | CmapDict.KStr key =>
               if negb (String.eqb (CmapDict.last2 key) "_r")
               then Ok (<[CmapDict.KStr (CmapDict.lower key) := value]> kwargs_filtered)
               else Ok kwargs_filtered
           end)
        acc (List.filter (fun p => negb (CmapDict.ends_r (fst p))) kwargs)
  = foldl (fun acc '(key, value) =>
             kwargs_filtered ← acc;
             match key with
             | CmapDict.KInt _ => Raise KeyError
             | CmapDict.KStr key =>
                 if negb (String.eqb (CmapDict.last2 key) "_r")
                 then Ok (<[CmapDict.KStr (CmapDict.lower key) := value]> kwargs_filtered)
                 else Ok kwargs_filtered
             end)
          acc kwargs.
Proof.
  revert acc. induction kwargs as [|[[s|z] v] kwargs IH]; intros acc;
    cbn [List.filter foldl fst CmapDict.ends_r].
  - reflexivity.
  - destruct (String.eqb (CmapDict.last2 s) "_r") eqn:E; cbn [negb].
    + rewrite IH. f_equal.
      destruct acc; cbn -[CmapDict.last2 String.eqb]; rewrite ?E; reflexivity.
    + cbn [foldl]. rewrite ?E. cbn [negb]. apply IH.
  - cbn [negb foldl]. apply IH.
Qed.

(** C9: the keys of a [_CmapDict] are lowercase strings.  This holds for
    the dictionary [__init__] builds, which leaves out the entries whose key
    ends in ['_r'], and [__setitem__] keeps it: a string key is stored in
    lower case, any other key raises [KeyError] and leaves the dictionary
    as it was. *)
Theorem CmapDict_lowercase_keys {V : Type} :
  (forall (kwargs : list (CmapDict.pykey * V)) d,
     CmapDict.__init__ kwargs = Ok d -> CmapDict.lowercase_keys d)
  /\ (forall kwargs : list (CmapDict.pykey * V),
        CmapDict.__init__ (List.filter (fun p => negb (CmapDict.ends_r (fst p))) kwargs)
        = CmapDict.__init__ kwargs)
  /\ (forall (d : gmap CmapDict.pykey V) key item,
        CmapDict.lowercase_keys d ->
        CmapDict.lowercase_keys (fst (CmapDict.__setitem__ d key item)))
  /\ (forall (d : gmap CmapDict.pykey V) s item,
        CmapDict.__setitem__ d (CmapDict.KStr s) item
        = (<[CmapDict.KStr (CmapDict.lower s) := item]> d, Ok tt))
  /\ (forall (d : gmap CmapDict.pykey V) z item,
        CmapDict.__setitem__ d (CmapDict.KInt z) item = (d, Raise KeyError)).
Proof.
  repeat split.
  - intros kwargs d. apply init_step_lowercase. apply lowercase_keys_empty.
  - intros kwargs. apply init_step_filter.
  - intros d [s|z] item Hd; cbn; [apply lowercase_keys_insert|]; exact Hd.
Qed.

(** The suffix test of [__init__] comes before the lowercasing: an entry
    whose key ends in ['_R'] is kept, under a key that ends in ['_r']. *)
Example CmapDict_init_uppercase_suffix :
  CmapDict.__init__ [(CmapDict.KStr "Blues_R", 1%nat); (CmapDict.KStr "blues_r", 2%nat)]
  = Ok {[CmapDict.KStr "blues_r" := 1%nat]}.
Proof. vm_compute. reflexivity. Qed.

Lemma CmapDict_lowercase_keys_witness :
  CmapDict.lowercase_keys
    (fst (CmapDict.__setitem__ (∅ : gmap CmapDict.pykey nat)
            (CmapDict.KStr "Viridis") 7%nat)).
Proof.
  apply (proj1 (proj2 (proj2 (@CmapDict_lowercase_keys nat)))).
  apply lowercase_keys_empty.
Defined.

(** * Further properties *)

(** ** [MidpointNorm]: the two linear pieces *)

Lemma div_lt (a b c : Q) : a < b -> 0 < c -> a / c < b / c.
Proof.
  intros Hab Hc. unfold Qdiv. apply Qmult_lt_compat_r; [|exact Hab].
  apply Qinv_lt_0_compat. exact Hc.
Qed.

Lemma div_unit_le (a c : Q) : a <= c -> 0 < c -> a / c <= 1.
Proof. intros Ha Hc. apply Qle_shift_div_r; lra. Qed.

Lemma MidpointNorm_inside (self : MidpointNorm.t) :
  ~ MidpointNorm.midpoint_outside self ->
  MidpointNorm.vmin self < MidpointNorm._midpoint self
  /\ MidpointNorm._midpoint self < MidpointNorm.vmax self
  /\ (Qle_bool (MidpointNorm._midpoint self) (MidpointNorm.vmin self)
      || Qle_bool (MidpointNorm.vmax self) (MidpointNorm._midpoint self))%bool = false.
Proof.
  intros H. pose proof (MidpointNorm_guard self) as G.
  unfold MidpointNorm.midpoint_outside in H.
  repeat split; try lra.
  destruct (_ || _)%bool; [|reflexivity]. destruct H. apply G. reflexivity.
Qed.

Lemma MidpointNorm_call_low (self : MidpointNorm.t) (x : Q) :
  ~ MidpointNorm.midpoint_outside self ->
  x <= MidpointNorm._midpoint self ->
  MidpointNorm.__call__ self x
  = Ok ((x - MidpointNorm.vmin self)
        / (MidpointNorm._midpoint self - MidpointNorm.vmin self)
        * ((1 # 2) - 0) + 0).
Proof.
  intros H Hx. destruct (MidpointNorm_inside self H) as (H1 & H2 & G).
  unfold MidpointNorm.__call__. rewrite G.
  destruct self as [lo hi c mid]; cbn in *. qdec; reflexivity.
Qed.

Lemma MidpointNorm_call_high (self : MidpointNorm.t) (x : Q) :
  ~ MidpointNorm.midpoint_outside self ->
  MidpointNorm._midpoint self < x ->
  MidpointNorm.__call__ self x
  = Ok ((x - MidpointNorm._midpoint self)
        / (MidpointNorm.vmax self - MidpointNorm._midpoint self)
        * (1 - (1 # 2)) + (1 # 2)).
Proof.
  intros H Hx. destruct (MidpointNorm_inside self H) as (H1 & H2 & G).
  unfold MidpointNorm.__call__. rewrite G.
  destruct self as [lo hi c mid]; cbn in *. qdec; reflexivity.
Qed.

Lemma MidpointNorm_inverse_low (self : MidpointNorm.t) (y : Q) :
  y <= 1 # 2 ->
  MidpointNorm.inverse self y
  = Ok ((y - 0) / ((1 # 2) - 0)
        * (MidpointNorm._midpoint self - MidpointNorm.vmin self)
        + MidpointNorm.vmin self).
Proof.
  intros Hy. unfold MidpointNorm.inverse. cbn. qdec; reflexivity.
Qed.

Lemma MidpointNorm_inverse_high (self : MidpointNorm.t) (y : Q) :
  1 # 2 < y ->
  MidpointNorm.inverse self y
  = Ok ((y - (1 # 2)) / (1 - (1 # 2))
        * (MidpointNorm.vmax self - MidpointNorm._midpoint self)
        + MidpointNorm._midpoint self).
Proof.
  intros Hy. unfold MidpointNorm.inverse. cbn. qdec; reflexivity.
Qed.

(** X1: in exact arithmetic (the rounding of the floats is not modelled),
    when the midpoint lies strictly between [vmin] and [vmax], [inverse]
    undoes [__call__] for every value, also outside [vmin, vmax]. *)
Theorem MidpointNorm_roundtrip (self : MidpointNorm.t) (x : Q) :
  ~ MidpointNorm.midpoint_outside self ->
  exists y x',
    MidpointNorm.__call__ self x = Ok y
    /\ MidpointNorm.inverse self y = Ok x'
    /\ x' == x.
Proof.
  intros H. destruct (MidpointNorm_inside self H) as (H1 & H2 & _).
  destruct (Qlt_le_dec (MidpointNorm._midpoint self) x) as [Hx|Hx].
  - pose proof (div_lt 0 (x - MidpointNorm._midpoint self)
                  (MidpointNorm.vmax self - MidpointNorm._midpoint self)
                  ltac:(lra) ltac:(lra)) as Hd.
    assert (E0 : 0 / (MidpointNorm.vmax self - MidpointNorm._midpoint self) == 0)
      by (field; lra).
    eexists _, _. split; [apply MidpointNorm_call_high; assumption|].
    split; [apply MidpointNorm_inverse_high; nra|]. field. lra.
  - pose proof (div_unit_le (x - MidpointNorm.vmin self)
                  (MidpointNorm._midpoint self - MidpointNorm.vmin self)
                  ltac:(lra) ltac:(lra)) as Hd.
    eexists _, _. split; [apply MidpointNorm_call_low; assumption|].
    split; [apply MidpointNorm_inverse_low; nra|]. field. lra.
Qed.

Lemma MidpointNorm_roundtrip_witness :
  exists y x',
    MidpointNorm.__call__ (MidpointNorm.__init__ 0 (-1) 3 false) 5 = Ok y
    /\ MidpointNorm.inverse (MidpointNorm.__init__ 0 (-1) 3 false) y = Ok x'
    /\ x' == 5.
Proof.
  apply (MidpointNorm_roundtrip (MidpointNorm.__init__ 0 (-1) 3 false) 5).
  unfold MidpointNorm.midpoint_outside. cbn. lra.
Defined.



(** X3: [MidpointNorm.inverse] has no test of the midpoint.  It returns
    for every instance and every coordinate, also for an instance whose
    midpoint is not strictly between [vmin] and [vmax], on which every
    [__call__] raises [ValueError]; and it sends 0 to [vmin]. *)
Theorem MidpointNorm_inverse_total (self : MidpointNorm.t) (yq : Q) :
  returns (MidpointNorm.inverse self yq)
  /\ (exists x0, MidpointNorm.inverse self 0 = Ok x0
                 /\ x0 == MidpointNorm.vmin self)
  /\ (MidpointNorm.midpoint_outside self ->
      forall x, MidpointNorm.__call__ self x = Raise ValueError).
Proof.
  split; [|split].
  - destruct (Qlt_le_dec (1 # 2) yq) as [Hy|Hy].
    + eexists. apply MidpointNorm_inverse_high. exact Hy.
    + eexists. apply MidpointNorm_inverse_low. exact Hy.
  - eexists. split; [apply MidpointNorm_inverse_low; lra|]. field.
  - intros Hout x. apply MidpointNorm_guard in Hout.
    unfold MidpointNorm.__call__. rewrite Hout. reflexivity.
Qed.

(** ** [LinearSegmentedNorm]: segments *)

Lemma LSN_init_inv (levels : list Q) (clip : bool) (self : LinearSegmentedNorm.t) :
  LinearSegmentedNorm.__init__ levels clip = Ok self ->
  (2 <= length levels)%nat /\ np.increasing levels
  /\ LinearSegmentedNorm._x self = levels
  /\ LinearSegmentedNorm._y self = np.linspace 0 1 (length levels).
Proof.
  unfold LinearSegmentedNorm.__init__.
  destruct (length levels <=? 1)%nat eqn:El; [discriminate|].
  apply Nat.leb_gt in El.
  destruct (existsb _ _) eqn:Ei; [discriminate|].
  destruct levels as [|l0 levels]; [cbn in El; lia|].
  cbn [np.amin np.amax mbind result_bind]. intros [= <-].
  repeat split; [lia|].
  unfold np.increasing. apply Forall_forall. intros d Hd.
  destruct (Qlt_le_dec 0 d) as [Hp|Hn]; [exact Hp|].
  assert (E : existsb (fun d => Qle_bool d 0) (np.diff (l0 :: levels)) = true).
  { apply existsb_exists. exists d. split; [apply list_elem_of_In; exact Hd|].
    apply Qle_bool_true. exact Hn. }
  congruence.
Qed.

Lemma LSN_init_ok (levels : list Q) (clip : bool) :
  (2 <= length levels)%nat -> np.increasing levels ->
  exists self, LinearSegmentedNorm.__init__ levels clip = Ok self.
Proof.
  intros Hlen Hinc. unfold LinearSegmentedNorm.__init__.
  replace (length levels <=? 1)%nat with false
    by (symmetry; apply Nat.leb_gt; lia).
  rewrite (increasing_accepted levels Hinc).
  destruct levels; [cbn in Hlen; lia|]. eexists. reflexivity.
Qed.

Lemma LSN_call_eval (self : LinearSegmentedNorm.t) (v : Q) (k : nat) (xl xr yl yr : Q) :
  (2 <= length (LinearSegmentedNorm._x self))%nat ->
  (np.searchsorted (LinearSegmentedNorm._x self) v
   <= length (LinearSegmentedNorm._x self) - 1)%nat ->
  k = Nat.max 1 (np.searchsorted (LinearSegmentedNorm._x self) v) ->
  nth_error (LinearSegmentedNorm._x self) (k - 1) = Some xl ->
  nth_error (LinearSegmentedNorm._x self) k = Some xr ->
  nth_error (LinearSegmentedNorm._y self) (k - 1) = Some yl ->
  nth_error (LinearSegmentedNorm._y self) k = Some yr ->
  LinearSegmentedNorm.__call__ self v = Ok ((v - xl) / (xr - xl) * (yr - yl) + yl).
Proof.
  intros Hn Hs -> Exl Exr Eyl Eyr.
  unfold LinearSegmentedNorm.__call__, np.len. cbv zeta.
  rewrite (clamp_index _ _ Hn Hs).
  rewrite (pred_index _) by lia.
  rewrite (getitem_nat _ _ _ Exl), (getitem_nat _ _ _ Exr).
  cbn [mbind result_bind].
  rewrite (getitem_nat _ _ _ Eyr), (getitem_nat _ _ _ Eyl).
  reflexivity.
Qed.

Lemma LSN_inverse_eval (self : LinearSegmentedNorm.t) (v : Q) (k : nat) (xl xr yl yr : Q) :
  (2 <= length (LinearSegmentedNorm._y self))%nat ->
  (np.searchsorted (LinearSegmentedNorm._y self) v
   <= length (LinearSegmentedNorm._y self) - 1)%nat ->
  k = Nat.max 1 (np.searchsorted (LinearSegmentedNorm._y self) v) ->
  nth_error (LinearSegmentedNorm._x self) (k - 1) = Some xl ->
  nth_error (LinearSegmentedNorm._x self) k = Some xr ->
  nth_error (LinearSegmentedNorm._y self) (k - 1) = Some yl ->
  nth_error (LinearSegmentedNorm._y self) k = Some yr ->
  LinearSegmentedNorm.inverse self v = Ok ((v - yl) / (yr - yl) * (xr - xl) + xl).
Proof.
  intros Hn Hs -> Exl Exr Eyl Eyr.
  unfold LinearSegmentedNorm.inverse, np.len. cbv zeta.
  rewrite (clamp_index _ _ Hn Hs).
  rewrite (pred_index _) by lia.
  rewrite (getitem_nat _ _ _ Eyl), (getitem_nat _ _ _ Eyr).
  cbn [mbind result_bind].
  rewrite (getitem_nat _ _ _ Exr), (getitem_nat _ _ _ Exl).
  reflexivity.
Qed.

(** The segment [np.searchsorted] and the two clamps select for a value
    between the first and the last entry of an increasing array. *)
Lemma segment_of (a : list Q) (v : Q) :
  (2 <= length a)%nat -> np.increasing a ->
  hd 0 a <= v -> v <= List.last a 0 ->
  (np.searchsorted a v <= length a - 1)%nat
  /\ exists al ar,
       nth_error a (Nat.max 1 (np.searchsorted a v) - 1) = Some al
       /\ nth_error a (Nat.max 1 (np.searchsorted a v)) = Some ar
       /\ al < ar /\ al <= v <= ar
       /\ (np.searchsorted a v = 0%nat -> v == al)
       /\ (np.searchsorted a v <> 0%nat -> al < v).
Proof.
  intros Hlen Hinc Hlo Hhi.
  set (n := length a) in *. set (s := np.searchsorted a v).
  assert (Hne : a <> []) by (intros ->; cbn in Hlen; lia).
  assert (Hs : (s <= n - 1)%nat).
  { pose proof (searchsorted_le a v) as Hle. fold s n in Hle.
    destruct (Nat.eq_dec s n) as [E|E]; [|lia].
    pose proof (nth_error_last a 0 Hne) as Hlast. fold n in Hlast.
    pose proof (searchsorted_below a v (n - 1) _ ltac:(fold s; lia) Hlast).
    lra. }
  split; [exact Hs|].
  set (k := Nat.max 1 s).
  assert (Hk : (1 <= k <= n - 1)%nat) by (subst k; lia).
  destruct (nth_error a (k - 1)) as [al|] eqn:Eal;
    [|apply nth_error_None in Eal; fold n in Eal; lia].
  destruct (nth_error a k) as [ar|] eqn:Ear;
    [|apply nth_error_None in Ear; fold n in Ear; lia].
  exists al, ar. split; [reflexivity|]. split; [reflexivity|].
  assert (Hx : al < ar) by (apply (increasing_lookup a (k - 1) k); auto; lia).
  destruct (Nat.eq_dec s 0%nat) as [E|E].
  - assert (k = 1%nat) by (subst k; lia).
    replace (k - 1)%nat with 0%nat in Eal by lia.
    assert (Ehd : hd 0 a = al)
      by (destruct a; [congruence|cbn in Eal |- *; congruence]).
    rewrite Ehd in Hlo.
    assert (v <= al).
    { apply (searchsorted_at a v). fold s. rewrite E. exact Eal. }
    repeat split; intros; try lra; try lia.
  - assert (al < v)
      by (apply (searchsorted_below a v (k - 1)); [fold s; lia|exact Eal]).
    assert (v <= ar).
    { apply (searchsorted_at a v). fold s.
      replace s with k by (subst k; lia). exact Ear. }
    repeat split; intros; try lra; try lia.
Qed.

(** Conversely, the segment that holds a value is the one selected. *)
Lemma segment_found (a : list Q) (v : Q) (k : nat) (al ar : Q) :
  np.increasing a -> (1 <= k)%nat ->
  nth_error a (k - 1) = Some al -> nth_error a k = Some ar ->
  v <= ar -> (al < v \/ (k = 1%nat /\ v <= al)) ->
  Nat.max 1 (np.searchsorted a v) = k
  /\ (np.searchsorted a v <= length a - 1)%nat.
Proof.
  intros Hinc Hk Eal Ear Hv Hcase.
  assert (Hkn : (k < length a)%nat)
    by (apply nth_error_Some; congruence).
  destruct Hcase as [Hlt|[-> Hle]].
  - assert (np.searchsorted a v = k).
    { apply searchsorted_unique; [lia| |].
      - intros i ai Hi Eai.
        destruct (Nat.eq_dec i (k - 1)%nat) as [->|Hne].
        + rewrite Eal in Eai. injection Eai as <-. exact Hlt.
        + pose proof (increasing_lookup a i (k - 1)%nat ai al Hinc ltac:(lia) Eai Eal).
          lra.
      - intros ak Eak. rewrite Ear in Eak. injection Eak as <-. exact Hv. }
    lia.
  - assert (np.searchsorted a v = 0%nat).
    { apply searchsorted_unique; [lia|intros; lia|].
      intros a0 Ea0. change (1 - 1)%nat with 0%nat in Eal.
      rewrite Eal in Ea0. injection Ea0 as <-.
      exact Hle. }
    lia.
Qed.

Lemma increasing_map_seq (f : nat -> Q) (start len : nat) :
  (forall i, f i < f (S i)) -> np.increasing (map f (seq start len)).
Proof.
  intros Hf. revert start. induction len as [|len IH]; intros start.
  - constructor.
  - destruct len as [|len]; [constructor|].
    change (map f (seq start (S (S len))))
      with (f start :: f (S start) :: map f (seq (S (S start)) len)).
    apply increasing_cons. split; [apply Hf|]. apply (IH (S start)).
Qed.

Lemma linspace_increasing (n : nat) :
  (2 <= n)%nat -> np.increasing (np.linspace 0 1 n).
Proof.
  intros Hn. apply increasing_map_seq. intros i. apply linspace_step. exact Hn.
Qed.

Lemma linspace_first (n : nat) : np.linspace_item 0 1 n 0 == 0.
Proof. unfold np.linspace_item. cbn. ring. Qed.

Lemma linspace_last (n : nat) :
  (2 <= n)%nat -> np.linspace_item 0 1 n (n - 1) == 1.
Proof.
  intros Hn. unfold np.linspace_item. cbv zeta.
  replace (Z.of_nat (n - 1)) with (Z.of_nat n - 1)%Z by lia.
  assert (0 < inject_Z (Z.of_nat n - 1)) by (apply inject_Z_pos; lia).
  field. lra.
Qed.

Lemma searchsorted_mono (a : list Q) (v1 v2 : Q) :
  v1 <= v2 -> (np.searchsorted a v1 <= np.searchsorted a v2)%nat.
Proof.
  intros Hv. induction a as [|x a IH]; cbn; [lia|].
  destruct (Qlt_le_dec x v1), (Qlt_le_dec x v2); try lia. lra.
Qed.

(** X4: [LinearSegmentedNorm] sends level number [i] to entry number [i]
    of its table [_y], the evenly spaced coordinates
    [np.linspace(0, 1, n)], whatever the spacing of the levels; the first
    level goes to 0 and the last one to 1. *)
Theorem LinearSegmentedNorm_levels_table (levels : list Q) (clip : bool)
    (i : nat) (xi : Q) :
  (2 <= length levels)%nat ->
  np.increasing levels ->
  nth_error levels i = Some xi ->
  exists self y yi,
    LinearSegmentedNorm.__init__ levels clip = Ok self
    /\ LinearSegmentedNorm.__call__ self xi = Ok y
    /\ nth_error (LinearSegmentedNorm._y self) i = Some yi
    /\ y == yi
    /\ (i = 0%nat -> y == 0)
    /\ (i = (length levels - 1)%nat -> y == 1).
Proof.
  intros Hlen Hinc Ei.
  destruct (LSN_init_ok levels clip Hlen Hinc) as [self Hself].
  destruct (LSN_init_inv levels clip self Hself) as (_ & _ & Ex & Ey).
  set (n := length levels) in *.
  assert (Hi : (i < n)%nat) by (apply nth_error_Some; congruence).
  set (k := Nat.max 1 i).
  assert (Hk : (1 <= k <= n - 1)%nat) by (subst k; lia).
  destruct (nth_error levels (k - 1)) as [xl|] eqn:Exl;
    [|apply nth_error_None in Exl; fold n in Exl; lia].
  destruct (nth_error levels k) as [xr|] eqn:Exr;
    [|apply nth_error_None in Exr; fold n in Exr; lia].
  assert (Hx : xl < xr)
    by (apply (increasing_lookup levels (k - 1) k); auto; lia).
  assert (Hcase : (i = 0%nat /\ xi = xl) \/ ((1 <= i)%nat /\ xi = xr)).
  { destruct (Nat.eq_dec i 0%nat) as [->|Hne].
    - left. split; [reflexivity|].
      subst k. cbn in Exl. cbn in Ei. congruence.
    - right. split; [lia|]. replace k with i in Exr by (subst k; lia). congruence. }
  destruct (segment_found levels xi k xl xr Hinc ltac:(lia) Exl Exr)
    as [Ek Hs].
  { destruct Hcase as [[_ ->]|[_ ->]]; lra. }
  { destruct Hcase as [[E ->]|[E ->]]; [right|left; exact Hx].
    split; [subst k; lia|lra]. }
  assert (Hy : (xi - xl) / (xr - xl)
               * (np.linspace_item 0 1 n k - np.linspace_item 0 1 n (k - 1))
               + np.linspace_item 0 1 n (k - 1)
               == np.linspace_item 0 1 n i).
  { destruct Hcase as [[E ->]|[E ->]].
    - subst i. replace (k - 1)%nat with 0%nat by (subst k; lia).
      field. lra.
    - replace i with k by (subst k; lia). field. lra. }
  exists self. eexists. exists (np.linspace_item 0 1 n i).
  split; [exact Hself|]. split; [|split; [|split; [|split]]].
  - apply (LSN_call_eval self xi k xl xr
             (np.linspace_item 0 1 n (k - 1)) (np.linspace_item 0 1 n k)).
    + rewrite Ex. exact Hlen.
    + rewrite Ex. exact Hs.
    + rewrite Ex. symmetry. exact Ek.
    + rewrite Ex. exact Exl.
    + rewrite Ex. exact Exr.
    + rewrite Ey. apply linspace_lookup. lia.
    + rewrite Ey. apply linspace_lookup. lia.
  - rewrite Ey. apply linspace_lookup. exact Hi.
  - exact Hy.
  - intros ->. rewrite Hy. apply linspace_first.
  - intros ->. rewrite Hy. apply linspace_last. exact Hlen.
Qed.

Lemma LinearSegmentedNorm_levels_table_witness :
  exists self y yi,
    LinearSegmentedNorm.__init__ [0; 1; 10; 100] false = Ok self
    /\ LinearSegmentedNorm.__call__ self 10 = Ok y
    /\ nth_error (LinearSegmentedNorm._y self) 2 = Some yi
    /\ y == yi
    /\ (2%nat = 0%nat -> y == 0)
    /\ (2%nat = (length [0; 1; 10; 100] - 1)%nat -> y == 1).
Proof.
  apply (LinearSegmentedNorm_levels_table [0; 1; 10; 100] false 2 10).
  - cbn. lia.
  - unfold np.increasing. cbn. repeat constructor.
  - reflexivity.
Defined.

Lemma linspace_hd (n : nat) :
  (2 <= n)%nat -> hd 0 (np.linspace 0 1 n) = np.linspace_item 0 1 n 0.
Proof. intros Hn. destruct n; [lia|reflexivity]. Qed.

Lemma linspace_List_last (n : nat) :
  (2 <= n)%nat ->
  List.last (np.linspace 0 1 n) 0 = np.linspace_item 0 1 n (n - 1).
Proof.
  intros Hn.
  assert (Hne : np.linspace 0 1 n <> []).
  { intros E. apply (f_equal (@length Q)) in E.
    rewrite linspace_length in E. cbn in E. lia. }
  pose proof (nth_error_last (np.linspace 0 1 n) 0 Hne) as Hl.
  rewrite linspace_length, linspace_lookup in Hl by lia. congruence.
Qed.

(** X5: on the level range [LinearSegmentedNorm.__call__] keeps the
    order of its input, with values in [0, 1]: a larger value never gets
    a smaller coordinate. *)
Theorem LinearSegmentedNorm_call_monotone (levels : list Q) (clip : bool)
    (x1 x2 : Q) :
  (2 <= length levels)%nat ->
  np.increasing levels ->
  hd 0 levels <= x1 -> x1 <= x2 -> x2 <= List.last levels 0 ->
  exists self y1 y2,
    LinearSegmentedNorm.__init__ levels clip = Ok self
    /\ LinearSegmentedNorm.__call__ self x1 = Ok y1
    /\ LinearSegmentedNorm.__call__ self x2 = Ok y2
    /\ 0 <= y1 /\ y1 <= y2 /\ y2 <= 1.
Proof.
  intros Hlen Hinc Hlo Hx Hhi.
  destruct (LSN_init_ok levels clip Hlen Hinc) as [self Hself].
  destruct (LSN_init_inv levels clip self Hself) as (_ & _ & Ex & Ey).
  set (n := length levels) in *.
  destruct (segment_of levels x1 Hlen Hinc Hlo ltac:(lra))
    as (Hs1 & al1 & ar1 & Eal1 & Ear1 & Hseg1 & Hv1 & Hz1 & Hp1).
  destruct (segment_of levels x2 Hlen Hinc ltac:(lra) Hhi)
    as (Hs2 & al2 & ar2 & Eal2 & Ear2 & Hseg2 & Hv2 & Hz2 & Hp2).
  pose proof (searchsorted_mono levels x1 x2 Hx) as Hmono.
  set (s1 := np.searchsorted levels x1) in *.
  set (s2 := np.searchsorted levels x2) in *.
  set (k1 := Nat.max 1 s1) in *. set (k2 := Nat.max 1 s2) in *.
  fold n in Hs1, Hs2.
  assert (Hk1 : (1 <= k1 <= n - 1)%nat) by (subst k1; lia).
  assert (Hk2 : (1 <= k2 <= n - 1)%nat) by (subst k2; lia).
  assert (Hk12 : (k1 <= k2)%nat) by (subst k1 k2; lia).
  set (item := np.linspace_item 0 1 n).
  assert (Hcall : forall v k al ar,
             k = Nat.max 1 (np.searchsorted levels v) ->
             (np.searchsorted levels v <= n - 1)%nat ->
             nth_error levels (k - 1) = Some al -> nth_error levels k = Some ar ->
             LinearSegmentedNorm.__call__ self v
             = Ok ((v - al) / (ar - al) * (item k - item (k - 1)%nat) + item (k - 1)%nat)).
  { intros v k al ar Ek Hs Eal Ear.
    assert (Hkb : (1 <= k <= n - 1)%nat) by lia.
    apply (LSN_call_eval self v k al ar); rewrite ?Ex, ?Ey; auto;
      apply linspace_lookup; lia. }
  pose proof (linspace_step n (k1 - 1)%nat Hlen) as Hst1.
  pose proof (linspace_step n (k2 - 1)%nat Hlen) as Hst2.
  replace (S (k1 - 1)) with k1 in Hst1 by lia.
  replace (S (k2 - 1)) with k2 in Hst2 by lia.
  fold item in Hst1, Hst2.
  destruct (interp_between al1 ar1 (item (k1 - 1)%nat) (item k1) x1 Hseg1 Hst1 Hv1)
    as (Hw1 & Hw1pos & _ & _).
  destruct (interp_between al2 ar2 (item (k2 - 1)%nat) (item k2) x2 Hseg2 Hst2 Hv2)
    as (Hw2 & Hw2pos & _ & _).
  pose proof (linspace_mono n 0 (k1 - 1)%nat Hlen ltac:(lia)) as Hfirst.
  pose proof (linspace_mono n k2 (n - 1)%nat Hlen ltac:(lia)) as Hlast.
  rewrite linspace_first in Hfirst. rewrite linspace_last in Hlast by exact Hlen.
  fold item in Hfirst, Hlast.
  exists self. eexists _, _. split; [exact Hself|].
  split; [apply (Hcall x1 k1 al1 ar1); auto|].
  split; [apply (Hcall x2 k2 al2 ar2); auto|].
  split; [lra|]. split; [|lra].
  destruct (Nat.eq_dec k1 k2) as [E|E].
  - assert (al1 = al2) by (rewrite E in Eal1; congruence).
    assert (ar1 = ar2) by (rewrite E in Ear1; congruence).
    subst al2 ar2. rewrite <- E.
    assert (Hd : (x1 - al1) / (ar1 - al1) <= (x2 - al1) / (ar1 - al1)).
    { unfold Qdiv. apply Qmult_le_compat_r; [lra|].
      apply Qlt_le_weak, Qinv_lt_0_compat. lra. }
    nra.
  - pose proof (linspace_mono n k1 (k2 - 1)%nat Hlen ltac:(lia)) as Hmid.
    fold item in Hmid. lra.
Qed.

Lemma LinearSegmentedNorm_call_monotone_witness :
  exists self y1 y2,
    LinearSegmentedNorm.__init__ [0; 1; 3] false = Ok self
    /\ LinearSegmentedNorm.__call__ self (1 # 2) = Ok y1
    /\ LinearSegmentedNorm.__call__ self 2 = Ok y2
    /\ 0 <= y1 /\ y1 <= y2 /\ y2 <= 1.
Proof.
  apply (LinearSegmentedNorm_call_monotone [0; 1; 3] false (1 # 2) 2).
  - cbn. lia.
  - unfold np.increasing. cbn. repeat constructor.
  - cbn. lra.
  - lra.
  - cbn. lra.
Defined.

(** X6: in exact arithmetic (the rounding of the floats is not modelled),
    [LinearSegmentedNorm.__call__] undoes [inverse] for every coordinate
    in [0, 1]. *)
Theorem LinearSegmentedNorm_inverse_roundtrip (levels : list Q) (clip : bool)
    (y : Q) :
  (2 <= length levels)%nat ->
  np.increasing levels ->
  0 <= y -> y <= 1 ->
  exists self x y',
    LinearSegmentedNorm.__init__ levels clip = Ok self
    /\ LinearSegmentedNorm.inverse self y = Ok x
    /\ LinearSegmentedNorm.__call__ self x = Ok y'
    /\ y' == y.
Proof.
  intros Hlen Hinc Hy0 Hy1.
  destruct (LSN_init_ok levels clip Hlen Hinc) as [self Hself].
  destruct (LSN_init_inv levels clip self Hself) as (_ & _ & Ex & Ey).
  set (n := length levels) in *.
  set (ys := np.linspace 0 1 n) in *.
  set (item := np.linspace_item 0 1 n).
  assert (Hlenys : length ys = n) by apply linspace_length.
  destruct (segment_of ys y) as (Hs & yl & yr & Eyl & Eyr & Hseg & Hv & Hz & Hp).
  { rewrite Hlenys. exact Hlen. }
  { apply linspace_increasing. exact Hlen. }
  { unfold ys. rewrite linspace_hd, linspace_first by exact Hlen. exact Hy0. }
  { unfold ys. rewrite linspace_List_last, linspace_last by exact Hlen. exact Hy1. }
  rewrite Hlenys in Hs.
  set (s := np.searchsorted ys y) in *. set (k := Nat.max 1 s) in *.
  assert (Hk : (1 <= k <= n - 1)%nat) by (subst k; lia).
  destruct (nth_error levels (k - 1)) as [xl|] eqn:Exl;
    [|apply nth_error_None in Exl; fold n in Exl; lia].
  destruct (nth_error levels k) as [xr|] eqn:Exr;
    [|apply nth_error_None in Exr; fold n in Exr; lia].
  assert (Hx : xl < xr)
    by (apply (increasing_lookup levels (k - 1)%nat k); auto; lia).
  destruct (interp_between yl yr xl xr y Hseg Hx Hv)
    as (Hw & Hwpos & Hwzero & Hback).
  set (x := (y - yl) / (yr - yl) * (xr - xl) + xl) in *.
  destruct (segment_found levels x k xl xr Hinc ltac:(lia) Exl Exr ltac:(lra))
    as [Ek Hsx].
  { destruct (Nat.eq_dec s 0%nat) as [E|E].
    - right. split; [subst k; lia|]. rewrite (Hwzero (Hz E)). lra.
    - left. apply Hwpos. apply Hp. exact E. }
  exists self, x. eexists. split; [exact Hself|]. split.
  - apply (LSN_inverse_eval self y k xl xr yl yr); rewrite ?Ex, ?Ey; auto.
    + fold ys. rewrite Hlenys. exact Hlen.
    + fold ys. rewrite Hlenys. exact Hs.
  - split; [|exact Hback].
    apply (LSN_call_eval self x k xl xr yl yr); rewrite ?Ex, ?Ey; auto.
Qed.

Lemma LinearSegmentedNorm_inverse_roundtrip_witness :
  exists self x y',
    LinearSegmentedNorm.__init__ [0; 1; 3] false = Ok self
    /\ LinearSegmentedNorm.inverse self (3 # 4) = Ok x
    /\ LinearSegmentedNorm.__call__ self x = Ok y'
    /\ y' == 3 # 4.
Proof.
  apply (LinearSegmentedNorm_inverse_roundtrip [0; 1; 3] false (3 # 4)).
  - cbn. lia.
  - unfold np.increasing. cbn. repeat constructor.
  - lra.
  - lra.
Defined.

(** ** [BinNorm]: bins *)












(** ** [_CmapDict]: storing, mirrors, [get] and [pop] *)

Section CmapDictMore.
Context {V : Type} (reversed : V -> option V).
Implicit Types (d : gmap CmapDict.pykey V) (k K : string) (v : V).

(** X10: a value stored under a name that does not end in ['_r'] is found
    again under that name in any capitalisation. *)
Theorem CmapDict_set_get d K K' v :
  CmapDict.lower K' = CmapDict.lower K ->
  CmapDict.last2 (CmapDict.lower K) <> "_r"%string ->
  CmapDict.__getitem__ reversed
    (fst (CmapDict.__setitem__ d (CmapDict.KStr K) v)) (CmapDict.KStr K')
  = Ok v.
Proof.
  intros HK Hr. cbn [CmapDict.__setitem__ fst].
  set (k := CmapDict.lower K) in *.
  assert (Hk : CmapDict.lower k = k) by apply lower_idem.
  assert (Hd : <[CmapDict.KStr k := v]> d !! CmapDict.KStr k = Some v)
    by apply lookup_insert_eq.
  unfold CmapDict.__getitem__, CmapDict._sanitize_key.
  rewrite HK.
  pose proof (sanitize_stored _ k v Hd Hk Hr) as Hs.
  unfold CmapDict._sanitize_key in Hs. rewrite Hk in Hs. rewrite Hs.
  cbn [mbind result_bind]. apply getitem_stored; assumption.
Qed.

Lemma mirrors_table :
  Forall
    (fun p : string * string =>
       CmapDict.lower (fst p) = fst p /\ CmapDict.lower (snd p) = snd p
       /\ CmapDict.last2 (fst p) <> "_r"%string
       /\ CmapDict.last2 (snd p) <> "_r"%string
       /\ foldl (fun key_mirror mirror =>
                   match CmapDict.mirror_index mirror (fst p) with
                   | Ok idx => if (idx =? 0)%nat then snd mirror else fst mirror
                   | Raise _ => key_mirror
                   end)
                (fst p) CmapDict._cmap_mirrors = snd p
       /\ foldl (fun key_mirror mirror =>
                   match CmapDict.mirror_index mirror (snd p) with
                   | Ok idx => if (idx =? 0)%nat then snd mirror else fst mirror
                   | Raise _ => key_mirror
                   end)
                (snd p) CmapDict._cmap_mirrors = fst p)
    CmapDict._cmap_mirrors.
Proof.
  vm_compute. repeat constructor; discriminate.
Qed.

Lemma sanitize_mirror d (a b : string) :
  CmapDict.lower a = a -> CmapDict.last2 a <> "_r"%string ->
  foldl (fun key_mirror mirror =>
           match CmapDict.mirror_index mirror a with
           | Ok idx => if (idx =? 0)%nat then snd mirror else fst mirror
           | Raise _ => key_mirror
           end)
        a CmapDict._cmap_mirrors = b ->
  d !! CmapDict.KStr a = None -> is_Some (d !! CmapDict.KStr b) ->
  CmapDict._sanitize_key d (CmapDict.KStr a) = Ok (b ++ "_r")%string
  /\ CmapDict._sanitize_key d (CmapDict.KStr (a ++ "_r")) = Ok b.
Proof.
  intros Ha Hr Hfold Hda Hdb. split.
  - unfold CmapDict._sanitize_key. rewrite Ha.
    destruct (String.eqb_spec (CmapDict.last2 a) "_r"); [contradiction|].
    rewrite Hda.
    rewrite bool_decide_eq_false_2 by (intros [x Hx]; discriminate).
    cbn [negb]. rewrite Hfold.
    rewrite bool_decide_eq_true_2 by exact Hdb. reflexivity.
  - unfold CmapDict._sanitize_key.
    rewrite lower_app, Ha. change (CmapDict.lower "_r") with "_r"%string.
    rewrite last2_suffix, drop_last2_suffix. cbn [String.eqb Ascii.eqb Bool.eqb].
    rewrite Hda.
    rewrite bool_decide_eq_false_2 by (intros [x Hx]; discriminate).
    cbn [negb]. rewrite Hfold.
    rewrite bool_decide_eq_true_2 by exact Hdb. reflexivity.
Qed.

(** X11: mirror names.  When one name of a pair of [_cmap_mirrors] is
    stored and the other is not, the other name gives the reversed value
    and the other name with ['_r'] gives the stored value. *)
Theorem CmapDict_mirror_lookup d (a b : string) v :
  (In (a, b) CmapDict._cmap_mirrors \/ In (b, a) CmapDict._cmap_mirrors) ->
  d !! CmapDict.KStr a = None ->
  d !! CmapDict.KStr b = Some v ->
  CmapDict.__getitem__ reversed d (CmapDict.KStr a)
  = match reversed v with Some r => Ok r | None => Raise KeyError end
  /\ CmapDict.__getitem__ reversed d (CmapDict.KStr (a ++ "_r")) = Ok v.
Proof.
  intros Hin Hda Hdb.
  pose proof mirrors_table as Ht. rewrite Forall_forall in Ht.
  assert (Hfacts : CmapDict.lower a = a /\ CmapDict.last2 a <> "_r"%string
                   /\ CmapDict.last2 b <> "_r"%string
                   /\ foldl (fun key_mirror mirror =>
                               match CmapDict.mirror_index mirror a with
                               | Ok idx => if (idx =? 0)%nat then snd mirror
                                           else fst mirror
                               | Raise _ => key_mirror
                               end)
                            a CmapDict._cmap_mirrors = b).
  { destruct Hin as [Hin|Hin].
    - destruct (Ht (a, b) ltac:(apply list_elem_of_In; exact Hin))
        as (H1 & H2 & H3 & H4 & H5 & H6). cbn [fst snd] in *. auto.
    - destruct (Ht (b, a) ltac:(apply list_elem_of_In; exact Hin))
        as (H1 & H2 & H3 & H4 & H5 & H6). cbn [fst snd] in *. auto. }
  destruct Hfacts as (Ha & Hra & Hrb & Hfold).
  destruct (sanitize_mirror d a b Ha Hra Hfold Hda ltac:(eexists; exact Hdb))
    as [Hs1 Hs2].
  unfold CmapDict.__getitem__. rewrite Hs1, Hs2. cbn [mbind result_bind].
  split.
  - apply getitem_stored_reversed. exact Hdb.
  - apply getitem_stored; assumption.
Qed.
End CmapDictMore.

Lemma CmapDict_set_get_witness :
  CmapDict.__getitem__ (fun l : list nat => Some (rev l))
    (fst (CmapDict.__setitem__ (∅ : gmap CmapDict.pykey (list nat))
            (CmapDict.KStr "Fire") [1; 2]%nat))
    (CmapDict.KStr "FIRE")
  = Ok [1; 2]%nat.
Proof.
  apply (CmapDict_set_get (fun l : list nat => Some (rev l)) ∅ "Fire" "FIRE").
  - reflexivity.
  - vm_compute. discriminate.
Defined.

Lemma CmapDict_mirror_lookup_witness :
  CmapDict.__getitem__ (fun l : list nat => Some (rev l))
    (fst (CmapDict.__setitem__ (∅ : gmap CmapDict.pykey (list nat))
            (CmapDict.KStr "RdBu") [1; 2; 3]%nat))
    (CmapDict.KStr "burd")
  = Ok [3; 2; 1]%nat
  /\ CmapDict.__getitem__ (fun l : list nat => Some (rev l))
       (fst (CmapDict.__setitem__ (∅ : gmap CmapDict.pykey (list nat))
               (CmapDict.KStr "RdBu") [1; 2; 3]%nat))
       (CmapDict.KStr ("burd" ++ "_r"))
     = Ok [1; 2; 3]%nat.
Proof.
  apply (CmapDict_mirror_lookup (fun l : list nat => Some (rev l))
           (fst (CmapDict.__setitem__ (∅ : gmap CmapDict.pykey (list nat))
                   (CmapDict.KStr "RdBu") [1; 2; 3]%nat))
           "burd" "rdbu" [1; 2; 3]%nat).
  - right. vm_compute. auto 10.
  - vm_compute. reflexivity.
  - vm_compute. reflexivity.
Defined.

Section CmapDictOps.
Context {V : Type} (reversed : V -> option V).
Implicit Types (d : gmap CmapDict.pykey V) (k K : string) (v : V).

Lemma getitem_any_case d k v K :
  d !! CmapDict.KStr k = Some v -> CmapDict.lower K = k ->
  CmapDict.last2 k <> "_r"%string ->
  CmapDict.__getitem__ reversed d (CmapDict.KStr K) = Ok v.
Proof.
  intros Hd HK Hr.
  assert (Hk : CmapDict.lower k = k) by (rewrite <- HK; apply lower_idem).
  pose proof (sanitize_stored d k v Hd Hk Hr) as Hs.
  unfold CmapDict.__getitem__, CmapDict._sanitize_key in *.
  rewrite HK. rewrite Hk in Hs. rewrite Hs.
  cbn [mbind result_bind]. apply getitem_stored; assumption.
Qed.

Lemma init_strings (kwargs : list (CmapDict.pykey * V)) (acc : gmap CmapDict.pykey V) :
  Forall (fun p => exists s, fst p = CmapDict.KStr s) kwargs ->
  exists d,
    foldl (fun acc '(key, value) =>
             kwargs_filtered ← acc;
             match key with
             | CmapDict.KInt _ => Raise KeyError
             | CmapDict.KStr key =>
                 if negb (String.eqb (CmapDict.last2 key) "_r")
                 then Ok (<[CmapDict.KStr (CmapDict.lower key) := value]> kwargs_filtered)
                 else Ok kwargs_filtered
             end)
          (Ok acc) kwargs = Ok d.
Proof.
  revert acc. induction kwargs as [|[key value] kwargs IH]; intros acc Hall.
  - exists acc. reflexivity.
  - inversion Hall as [|? ? [s Hs] Hrest]; subst. cbn [fst] in Hs. subst key.
    cbn [foldl mbind result_bind].
    destruct (negb (String.eqb (CmapDict.last2 s) "_r")); apply IH; exact Hrest.
Qed.

Lemma init_keeps (kwargs : list (CmapDict.pykey * V)) (acc : gmap CmapDict.pykey V)
    k v :
  Forall (fun p => exists s, fst p = CmapDict.KStr s /\ CmapDict.lower s <> k)
         kwargs ->
  acc !! CmapDict.KStr k = Some v ->
  exists d,
    foldl (fun acc '(key, value) =>
             kwargs_filtered ← acc;
             match key with
             | CmapDict.KInt _ => Raise KeyError
             | CmapDict.KStr key =>
                 if negb (String.eqb (CmapDict.last2 key) "_r")
                 then Ok (<[CmapDict.KStr (CmapDict.lower key) := value]> kwargs_filtered)
                 else Ok kwargs_filtered
             end)
          (Ok acc) kwargs = Ok d
    /\ d !! CmapDict.KStr k = Some v.
Proof.
  revert acc. induction kwargs as [|[key value] kwargs IH]; intros acc Hall Hacc.
  - exists acc. split; [reflexivity | exact Hacc].
  - inversion Hall as [|? ? [s [Hs Hne]] Hrest]; subst. cbn [fst] in Hs. subst key.
    cbn [foldl mbind result_bind].
    destruct (negb (String.eqb (CmapDict.last2 s) "_r")).
    + apply IH; [exact Hrest|].
      rewrite lookup_insert_ne by congruence. exact Hacc.
    + apply IH; assumption.
Qed.

(** X12: what the constructor is given can be looked up.  When every key
    of [kwargs] is a string, [__init__] returns, and an item whose name
    does not end in ['_r'] (in either case) and is not followed by an item
    with the same lowercased name is found under its name in any
    capitalisation. *)
Theorem CmapDict_init_get (pre post : list (CmapDict.pykey * V)) K v :
  Forall (fun p => exists s, fst p = CmapDict.KStr s) pre ->
  Forall (fun p => exists s, fst p = CmapDict.KStr s
                             /\ CmapDict.lower s <> CmapDict.lower K) post ->
  CmapDict.last2 K <> "_r"%string ->
  CmapDict.last2 (CmapDict.lower K) <> "_r"%string ->
  exists d,
    CmapDict.__init__ (pre ++ (CmapDict.KStr K, v) :: post) = Ok d
    /\ forall K', CmapDict.lower K' = CmapDict.lower K ->
                  CmapDict.__getitem__ reversed d (CmapDict.KStr K') = Ok v.
Proof.
  intros Hpre Hpost Hr Hrl.
  unfold CmapDict.__init__. rewrite foldl_app.
  destruct (init_strings pre ∅ Hpre) as [d0 Hd0]. rewrite Hd0.
  cbn [foldl mbind result_bind].
  destruct (String.eqb_spec (CmapDict.last2 K) "_r"); [contradiction|].
  cbn [negb].
  destruct (init_keeps post (<[CmapDict.KStr (CmapDict.lower K) := v]> d0)
              (CmapDict.lower K) v Hpost (lookup_insert_eq _ _ _))
    as [d [Hd Hlook]].
  exists d. split; [exact Hd|].
  intros K' HK'. eapply getitem_any_case; eauto.
Qed.

Lemma getitem_str_raises d K (e : exn) :
  CmapDict.__getitem__ reversed d (CmapDict.KStr K) = Raise e -> e = KeyError.
Proof.
  unfold CmapDict.__getitem__.
  destruct (CmapDict._sanitize_key d (CmapDict.KStr K)) as [k|e'] eqn:Es.
  - cbn [mbind result_bind]. unfold CmapDict._getitem.
    destruct (if String.eqb (CmapDict.last2 k) "_r"
              then (CmapDict.drop_last2 k, true) else (k, false)) as [k' r].
    destruct (d !! CmapDict.KStr k'); [|congruence].
    destruct r; [|congruence]. destruct (reversed _); congruence.
  - exfalso. unfold CmapDict._sanitize_key in Es.
    repeat match type of Es with
           | context [let '(_, _) := ?c in _] => destruct c
           | context [if ?c then _ else _] => destruct c
           end; discriminate.
Qed.

(** X14: [get] with a default never raises: it gives what the lookup
    gives when that succeeds and the default otherwise, also for a key
    that is not a string (for which [d[key]] raises [ValueError]); with no
    default it is the lookup on strings, and more than one default is a
    [ValueError]. *)
Theorem CmapDict_get_spec d (key : CmapDict.pykey) (default : V) :
  CmapDict.get reversed d key [default]
  = match CmapDict.__getitem__ reversed d key with
    | Ok value => Ok value
    | Raise _ => Ok default
    end
  /\ (forall K, CmapDict.get reversed d (CmapDict.KStr K) []
                = CmapDict.__getitem__ reversed d (CmapDict.KStr K))
  /\ (forall z, CmapDict.get reversed d (CmapDict.KInt z) [] = Raise KeyError)
  /\ (forall a b rest, CmapDict.get reversed d key (a :: b :: rest)
                       = Raise ValueError).
Proof.
  pose proof (getitem_str_raises d) as Hraise.
  assert (Hlow : forall K,
             CmapDict.__getitem__ reversed d (CmapDict.KStr (CmapDict.lower K))
             = CmapDict.__getitem__ reversed d (CmapDict.KStr K)).
  { intros K. unfold CmapDict.__getitem__, CmapDict._sanitize_key.
    rewrite lower_idem. reflexivity. }
  split; [|split; [|split]].
  - destruct key as [K|z].
    + unfold CmapDict.get. cbn [length Nat.ltb Nat.leb]. rewrite Hlow.
      destruct (CmapDict.__getitem__ reversed d (CmapDict.KStr K)) as [x|e] eqn:E;
        [reflexivity|].
      rewrite (Hraise K e E). reflexivity.
    + reflexivity.
  - intros K. unfold CmapDict.get. cbn [length Nat.ltb Nat.leb]. rewrite Hlow.
    destruct (CmapDict.__getitem__ reversed d (CmapDict.KStr K)) as [x|e] eqn:E;
      [reflexivity|].
    rewrite (Hraise K e E). reflexivity.
  - intros z. reflexivity.
  - intros a b rest. reflexivity.
Qed.

(** X15: [pop] of a stored name (any capitalisation, not ending in
    ['_r']) returns the stored value and removes the entry, so that the
    name is no longer a key; the other entries stay. *)
Theorem CmapDict_pop_stored d k v K (args : list V) :
  d !! CmapDict.KStr k = Some v -> CmapDict.lower K = k ->
  CmapDict.last2 k <> "_r"%string -> (length args <= 1)%nat ->
  CmapDict.pop reversed d (CmapDict.KStr K) args
  = (delete (CmapDict.KStr k) d, Ok v)
  /\ fst (CmapDict.pop reversed d (CmapDict.KStr K) args) !! CmapDict.KStr k = None
  /\ forall key, key <> CmapDict.KStr k ->
                 fst (CmapDict.pop reversed d (CmapDict.KStr K) args) !! key
                 = d !! key.
Proof.
  intros Hd HK Hr Hargs.
  assert (Hk : CmapDict.lower k = k) by (rewrite <- HK; apply lower_idem).
  assert (Hpop : CmapDict.pop reversed d (CmapDict.KStr K) args
                 = (delete (CmapDict.KStr k) d, Ok v)).
  { unfold CmapDict.pop.
    assert (Hlen : (1 <? length args)%nat = false) by (apply Nat.ltb_ge; lia).
    rewrite Hlen.
    pose proof (sanitize_stored d k v Hd Hk Hr) as Hs.
    unfold CmapDict._sanitize_key in *. rewrite HK. rewrite Hk in Hs. rewrite Hs.
    rewrite (getitem_stored reversed d k v Hd Hr). rewrite Hd. reflexivity. }
  rewrite Hpop. cbn [fst]. split; [reflexivity|split].
  - apply lookup_delete_eq.
  - intros key Hkey. apply lookup_delete_ne. congruence.
Qed.

(** X16: [pop] does not work through a reversed name.  For a stored name
    [k] whose value can be reversed, with [k + '_r'] itself not a key,
    [d[k + '_r']] gives the reversed value, but [pop(k + '_r')] raises
    [KeyError], or returns the default when there is one, and removes
    nothing. *)
Theorem CmapDict_pop_reversed d k v r :
  d !! CmapDict.KStr k = Some v -> CmapDict.lower k = k ->
  reversed v = Some r ->
  d !! CmapDict.KStr (k ++ "_r") = None ->
  CmapDict.__getitem__ reversed d (CmapDict.KStr (k ++ "_r")) = Ok r
  /\ CmapDict.pop reversed d (CmapDict.KStr (k ++ "_r")) [] = (d, Raise KeyError)
  /\ forall default,
       CmapDict.pop reversed d (CmapDict.KStr (k ++ "_r")) [default]
       = (d, Ok default).
Proof.
  intros Hd Hk Hrev Hnone.
  pose proof (sanitize_stored_reversed d k v Hd Hk) as Hs.
  pose proof (getitem_stored_reversed reversed d k v Hd) as Hg.
  rewrite Hrev in Hg.
  split; [|split].
  - unfold CmapDict.__getitem__. rewrite Hs. exact Hg.
  - unfold CmapDict.pop. cbn [length Nat.ltb Nat.leb]. rewrite Hs, Hg, Hnone.
    reflexivity.
  - intros default. unfold CmapDict.pop. cbn [length Nat.ltb Nat.leb].
    rewrite Hs, Hg, Hnone. reflexivity.
Qed.
(** X27: [key in d] for a string is [True] exactly when [d[key]] returns,
    and never raises; for a key that is not a string it raises
    [ValueError]. *)
Theorem CmapDict_contains_spec d :
  (forall K,
     exists b : bool,
       CmapDict.__contains__ reversed d (CmapDict.KStr K) = Ok b
       /\ (b = true <->
           exists v, CmapDict.__getitem__ reversed d (CmapDict.KStr K) = Ok v))
  /\ (forall z, CmapDict.__contains__ reversed d (CmapDict.KInt z)
                = Raise ValueError).
Proof.
  split; [|reflexivity].
  intros K. unfold CmapDict.__contains__.
  destruct (CmapDict.__getitem__ reversed d (CmapDict.KStr K)) as [v|e] eqn:E.
  - exists true. split; [reflexivity|]. split; eauto.
  - rewrite (getitem_str_raises d K e E). exists false.
    split; [reflexivity|]. split; [discriminate|]. intros [v Hv]. discriminate.
Qed.
End CmapDictOps.

(** X13: a non-string key among the items makes [__init__] raise
    [KeyError], whatever the other items are; it raises nothing else. *)
Theorem CmapDict_init_raises {V : Type} (kwargs : list (CmapDict.pykey * V)) :
  (Exists (fun p => exists z, fst p = CmapDict.KInt z) kwargs <->
   CmapDict.__init__ kwargs = Raise KeyError)
  /\ (forall e, CmapDict.__init__ kwargs = Raise e -> e = KeyError).
Proof.
  unfold CmapDict.__init__.
  set (f := fun (acc : result (gmap CmapDict.pykey V)) '(key, value) => _).
  assert (Hstay : forall l e, foldl f (Raise e) l = Raise e).
  { intros l e. apply init_raise_stays. intros [key value]. reflexivity. }
  assert (Hgen : forall l acc,
             (Exists (fun p : CmapDict.pykey * V => exists z, fst p = CmapDict.KInt z) l
              <-> foldl f (Ok acc) l = Raise KeyError)
             /\ (forall e, foldl f (Ok acc) l = Raise e -> e = KeyError)).
  { induction l as [|[key value] l IH]; intros acc.
    - split.
      + split; intros H; [inversion H | discriminate].
      + intros e H. discriminate.
    - destruct key as [s|z].
      + assert (Hstep : exists acc', f (Ok acc) (CmapDict.KStr s, value) = Ok acc').
        { cbn. destruct (negb _); eauto. }
        destruct Hstep as [acc' Hstep]. cbn [foldl]. rewrite Hstep.
        destruct (IH acc') as [IH1 IH2]. split; [|exact IH2].
        rewrite <- IH1. rewrite Exists_cons. split; [|tauto].
        intros [[z Hz]|H]; [discriminate|exact H].
      + cbn [foldl].
        change (f (Ok acc) (CmapDict.KInt z, value)) with
          (Raise KeyError : result (gmap CmapDict.pykey V)).
        rewrite Hstay. split.
        * split; [reflexivity|]. intros _. apply Exists_cons_hd. eauto.
        * intros e He. congruence. }
  apply Hgen.
Qed.

Lemma CmapDict_init_get_witness :
  exists d,
    CmapDict.__init__ ([(CmapDict.KStr "Jet_r", [9]%nat)]
                       ++ (CmapDict.KStr "Hot", [1; 2]%nat)
                          :: [(CmapDict.KStr "cool", [3]%nat)]) = Ok d
    /\ forall K', CmapDict.lower K' = CmapDict.lower "Hot" ->
                  CmapDict.__getitem__ (fun l : list nat => Some (rev l)) d
                    (CmapDict.KStr K') = Ok [1; 2]%nat.
Proof.
  apply (CmapDict_init_get (fun l : list nat => Some (rev l))
           [(CmapDict.KStr "Jet_r", [9]%nat)]
           [(CmapDict.KStr "cool", [3]%nat)] "Hot" [1; 2]%nat).
  - repeat constructor. exists "Jet_r"%string. reflexivity.
  - repeat constructor. exists "cool"%string. split; [reflexivity|].
    vm_compute. discriminate.
  - vm_compute. discriminate.
  - vm_compute. discriminate.
Defined.

Lemma CmapDict_pop_stored_witness :
  CmapDict.pop (fun l : list nat => Some (rev l))
    (<[CmapDict.KStr "hot" := [1; 2]%nat]> (∅ : gmap CmapDict.pykey (list nat)))
    (CmapDict.KStr "HOT") []
  = (delete (CmapDict.KStr "hot")
       (<[CmapDict.KStr "hot" := [1; 2]%nat]> (∅ : gmap CmapDict.pykey (list nat))),
     Ok [1; 2]%nat).
Proof.
  apply (CmapDict_pop_stored (fun l : list nat => Some (rev l))
           (<[CmapDict.KStr "hot" := [1; 2]%nat]> ∅) "hot" [1; 2]%nat "HOT" []).
  - vm_compute. reflexivity.
  - reflexivity.
  - vm_compute. discriminate.
  - cbn. lia.
Defined.

Lemma CmapDict_pop_reversed_witness :
  CmapDict.__getitem__ (fun l : list nat => Some (rev l))
    (<[CmapDict.KStr "hot" := [1; 2]%nat]> (∅ : gmap CmapDict.pykey (list nat)))
    (CmapDict.KStr ("hot" ++ "_r"))
  = Ok [2; 1]%nat
  /\ CmapDict.pop (fun l : list nat => Some (rev l))
       (<[CmapDict.KStr "hot" := [1; 2]%nat]> (∅ : gmap CmapDict.pykey (list nat)))
       (CmapDict.KStr ("hot" ++ "_r")) []
     = (<[CmapDict.KStr "hot" := [1; 2]%nat]> (∅ : gmap CmapDict.pykey (list nat)),
        Raise KeyError).
Proof.
  destruct (CmapDict_pop_reversed (fun l : list nat => Some (rev l))
              (<[CmapDict.KStr "hot" := [1; 2]%nat]> ∅) "hot" [1; 2]%nat [2; 1]%nat)
    as (H1 & H2 & _).
  - vm_compute. reflexivity.
  - reflexivity.
  - reflexivity.
  - vm_compute. reflexivity.
  - split; [exact H1 | exact H2].
Defined.

(** ** [_fix_latlon] and [_enforce_bounds] *)

Lemma bump_bound (lon1 : plot.float) (x : list plot.float) :
  existsb (fun v => plot.lt v lon1) x = true ->
  (foldr Nat.max 0%nat
     (map (plot.passes lon1)
        (map (fun v => if plot.lt v lon1 then plot.add v 360 else v) x))
   < foldr Nat.max 0%nat (map (plot.passes lon1) x))%nat.
Proof.
  intros E. apply existsb_exists in E. destruct E as (w & Hw & Ew).
  pose proof (passes_bound lon1 x w Hw) as Hbw.
  destruct (passes_bump lon1 w Ew) as [Hw1 _].
  assert (Hall : Forall (fun v => (plot.passes lon1 v
                           <= foldr Nat.max 0%nat (map (plot.passes lon1) x) - 1)%nat)
                   (map (fun v => if plot.lt v lon1 then plot.add v 360 else v) x)).
  { rewrite Forall_map. apply Forall_forall. intros v Hv. unfold compose.
    apply list_elem_of_In in Hv.
    pose proof (passes_bound lon1 x v Hv) as Hbv.
    destruct (plot.lt v lon1) eqn:Ev.
    - destruct (passes_bump lon1 v Ev) as [_ ->]. lia.
    - rewrite (passes_settled lon1 v Ev). lia. }
  apply bound_passes in Hall. lia.
Qed.

Lemma existsb_map_id (lon1 : plot.float) (x : list plot.float) :
  existsb (fun b : bool => b) (map (fun v => plot.lt v lon1) x)
  = existsb (fun v => plot.lt v lon1) x.
Proof. induction x as [|v x IH]; cbn; [reflexivity|]. rewrite IH. reflexivity. Qed.

Lemma fix_loop_length (fuel : nat) (lon1 : plot.float) (x : list plot.float) :
  length (plot.fix_loop fuel lon1 x) = length x.
Proof.
  revert x. induction fuel as [|fuel IH]; intros x; [reflexivity|].
  cbn [plot.fix_loop]. destruct (negb _); [reflexivity|].
  rewrite IH, bump_zip. apply length_map.
Qed.

Lemma fix_loop_entries (fuel : nat) (l : Q) (x : list plot.float) :
  (foldr Nat.max 0%nat (map (plot.passes (Some l)) x) < fuel)%nat ->
  forall i : nat,
    match x !! i with
    | None => True
    | Some None => plot.fix_loop fuel (Some l) x !! i = Some None
    | Some (Some p) =>
        exists (q : Q) (k : nat),
          plot.fix_loop fuel (Some l) x !! i = Some (Some q)
          /\ q == p + 360 * inject_Z (Z.of_nat k)
          /\ l <= q /\ (p < l -> q < l + 360) /\ (l <= p -> k = 0%nat)
    end.
Proof.
  revert x. induction fuel as [|fuel IH]; intros x Hfuel i; [lia|].
  cbn [plot.fix_loop]. rewrite bump_zip, existsb_map_id.
  destruct (existsb (fun v => plot.lt v (Some l)) x) eqn:E; cbn [negb].
  - pose proof (bump_bound (Some l) x E) as Hb.
    specialize (IH (map (fun v => if plot.lt v (Some l) then plot.add v 360 else v) x)
                  ltac:(lia) i).
    rewrite list_lookup_fmap in IH.
    destruct (x !! i) as [[p|]|] eqn:Ei; cbn in IH |- *; [|exact IH|exact I].
    destruct (Qle_bool l p) eqn:Elp; cbn in IH.
    + exact IH.
    + apply Qle_bool_false in Elp.
      destruct IH as (q & k & Hq & Hqk & Hlq & Hlt & Hk0).
      exists q, (S k). split; [exact Hq|].
      assert (Hs : inject_Z (Z.of_nat (S k)) == inject_Z (Z.of_nat k) + 1).
      { rewrite Nat2Z.inj_succ. unfold Z.succ. rewrite inject_Z_plus. reflexivity. }
      repeat split.
      * rewrite Hs, Hqk. ring.
      * exact Hlq.
      * intros _. destruct (Qlt_le_dec (p + 360) l) as [Hc|Hc].
        -- apply Hlt in Hc. lra.
        -- rewrite (Hk0 Hc) in Hqk.
           change (inject_Z (Z.of_nat 0)) with 0 in Hqk. lra.
      * intros Hc. lra.
  - destruct (x !! i) as [[p|]|] eqn:Ei; [|reflexivity|exact I].
    exists p, 0%nat.
    assert (Hp : plot.lt (Some p) (Some l) = false).
    { destruct (plot.lt (Some p) (Some l)) eqn:Ep; [|reflexivity].
      assert (Hin : In (Some p) x) by (apply list_elem_of_In; eapply list_elem_of_lookup_2; eauto).
      assert (Habs : existsb (fun v => plot.lt v (Some l)) x = true)
        by (apply existsb_exists; eauto).
      congruence. }
    cbn in Hp. apply negb_false_iff, Qle_bool_true in Hp.
    split; [reflexivity|]. split; [|split; [exact Hp|split; [lra|reflexivity]]].
    change (inject_Z (Z.of_nat 0)) with 0. ring.
Qed.

(** X17: [_fix_latlon] on one dimensional longitudes that are whole
    numbers of degrees (of magnitude at most 2^50, where adding 360 is
    exact in float64) or [nan], and start with a finite value [l]: the
    loop ends, the array keeps its length and [y] is returned as it is;
    an entry at or above [l] is unchanged, an entry below [l] is moved by
    a multiple of 360 into [[l, l + 360)] and is again a whole number, and
    [nan] stays [nan]. *)
Theorem fix_latlon_spec (l : Q) (xs : list plot.float) (y : plot.ndarray) :
  plot.whole l -> Forall plot.whole_or_nan xs ->
  exists x',
    plot._fix_latlon (plot.Array1 (Some l :: xs)) y = Ok (plot.Array1 x', y)
    /\ length x' = S (length xs)
    /\ (forall (i : nat) (p : Q),
          (Some l :: xs) !! i = Some (Some p) ->
          exists (q : Q) (k : nat),
            x' !! i = Some (Some q)
            /\ q == p + 360 * inject_Z (Z.of_nat k)
            /\ (exists z : Z, q == inject_Z z)
            /\ l <= q /\ (p < l -> q < l + 360) /\ (l <= p -> k = 0%nat))
    /\ (forall i : nat, (Some l :: xs) !! i = Some None -> x' !! i = Some None).
Proof.
  intros Hl Hxs.
  assert (Hall : Forall plot.whole_or_nan (Some l :: xs))
    by (constructor; assumption).
  unfold plot._fix_latlon.
  assert (E : forallb (fun v => plot.lt v (Some l)) (Some l :: xs) = false).
  { cbn. replace (Qle_bool l l) with true; [reflexivity|].
    symmetry. apply Qle_bool_true. lra. }
  rewrite E. eexists. split; [reflexivity|].
  split; [apply fix_loop_length|].
  assert (Hfuel : (foldr Nat.max 0%nat (map (plot.passes (Some l)) (Some l :: xs))
                   < plot.fix_fuel (Some l) (Some l :: xs))%nat)
    by (unfold plot.fix_fuel; lia).
  pose proof (fix_loop_entries _ l (Some l :: xs) Hfuel) as H.
  split.
  - intros i p Hi. specialize (H i). unfold plot.float in *.
    rewrite Hi in H. destruct H as (q & k & Hq & Hqk & Hrest).
    exists q, k. split; [exact Hq|]. split; [exact Hqk|]. split; [|exact Hrest].
    rewrite Forall_forall in Hall.
    destruct (Hall (Some p) ltac:(eapply list_elem_of_lookup_2; exact Hi))
      as (z & Hz & _).
    exists (z + 360 * Z.of_nat k)%Z.
    rewrite Hqk, Hz, inject_Z_plus, inject_Z_mult. reflexivity.
  - intros i Hi. specialize (H i). unfold plot.float in *.
    rewrite Hi in H. exact H.
Qed.

Lemma fix_latlon_spec_witness :
  exists x',
    plot._fix_latlon (plot.Array1 (Some 10 :: [Some (- (350)); None; Some 20]))
      (plot.Array0 None)
    = Ok (plot.Array1 x', plot.Array0 None)
    /\ length x' = S (length [Some (- (350)); None; Some 20])
    /\ (forall (i : nat) (p : Q),
          (Some 10 :: [Some (- (350)); None; Some 20]) !! i = Some (Some p) ->
          exists (q : Q) (k : nat),
            x' !! i = Some (Some q)
            /\ q == p + 360 * inject_Z (Z.of_nat k)
            /\ (exists z : Z, q == inject_Z z)
            /\ 10 <= q /\ (p < 10 -> q < 10 + 360) /\ (10 <= p -> k = 0%nat))
    /\ (forall i : nat,
          (Some 10 :: [Some (- (350)); None; Some 20]) !! i = Some None ->
          x' !! i = Some None).
Proof.
  apply (fix_latlon_spec 10 [Some (- (350)); None; Some 20] (plot.Array0 None)).
  - exists 10%Z. split; [reflexivity|]. cbn. lia.
  - repeat constructor.
    + exists (-350)%Z. split; [reflexivity|]. cbn. lia.
    + exists 20%Z. split; [reflexivity|]. cbn. lia.
Defined.

Lemma where_shift (mask : list bool) (g h : nat -> nat) :
  map fst (filter (fun p : nat * bool => Is_true (snd p))
             (imap (fun i b => (g (h i), b)) mask))
  = map g (map fst (filter (fun p : nat * bool => Is_true (snd p))
                      (imap (fun i b => (h i, b)) mask))).
Proof.
  revert h. induction mask as [|b mask IH]; intros h; [reflexivity|].
  rewrite !imap_cons.
  pose proof (IH (h ∘ S)) as IH'.
  destruct b.
  - rewrite !filter_cons_True by exact I. cbn [map fst]. f_equal. exact IH'.
  - rewrite !filter_cons_False by (cbn; tauto). exact IH'.
Qed.

Lemma where_cons (b : bool) (mask : list bool) :
  plot.np_where (b :: mask)
  = (if b then [0%nat] else []) ++ map S (plot.np_where mask).
Proof.
  unfold plot.np_where. rewrite imap_cons.
  pose proof (where_shift mask S (fun i => i)) as Hs.
  destruct b.
  - rewrite filter_cons_True by exact I. cbn [map fst app]. f_equal. exact Hs.
  - rewrite filter_cons_False by (cbn; tauto). exact Hs.
Qed.

Lemma where_first (m1 m2 : list bool) :
  Forall (fun b => b = false) m1 ->
  exists rest, plot.np_where (m1 ++ true :: m2) = length m1 :: rest.
Proof.
  induction 1 as [|b m1 -> _ [rest IH]].
  - cbn [app length]. rewrite where_cons. eexists. reflexivity.
  - cbn [app length]. rewrite where_cons, IH. eexists. reflexivity.
Qed.

Lemma where_none (m : list bool) :
  Forall (fun b => b = false) m -> plot.np_where m = [].
Proof.
  induction 1 as [|b m -> _ IH]; [reflexivity|].
  rewrite where_cons, IH. reflexivity.
Qed.

Lemma where_elem (mask : list bool) (i : nat) :
  i ∈ plot.np_where mask <-> mask !! i = Some true.
Proof.
  unfold plot.np_where. rewrite list_elem_of_fmap. split.
  - intros ([j b] & -> & Hin). apply list_elem_of_filter in Hin.
    destruct Hin as [Hb Hin]. cbn [fst snd] in *.
    apply elem_of_lookup_imap in Hin. destruct Hin as (k & c & [= -> ->] & Hk).
    destruct c; [exact Hk|contradiction].
  - intros Hi. exists (i, true). split; [reflexivity|].
    apply list_elem_of_filter. split; [exact I|].
    apply (elem_of_lookup_imap_2 (fun i b => (i, b))). exact Hi.
Qed.

Lemma roll_split {A} (pre rest : list A) :
  rest <> [] ->
  plot.roll (pre ++ rest) (length (pre ++ rest) - length pre) = rest ++ pre.
Proof.
  intros Hrest. unfold plot.roll.
  destruct (length (pre ++ rest)) as [|n] eqn:En.
  - destruct pre, rest; cbn in En; try discriminate. congruence.
  - rewrite length_app in En.
    assert (Hr : (0 < length rest)%nat) by (destruct rest; [congruence|cbn; lia]).
    destruct pre as [|a pre].
    + cbn [length] in *. rewrite Nat.sub_0_r, Nat.Div0.mod_same, Nat.sub_0_r.
      cbn [app]. rewrite <- En. cbn [Nat.add].
      rewrite drop_all, firstn_all, app_nil_r. reflexivity.
    + rewrite Nat.mod_small by (cbn [length] in *; lia).
      replace (S n - (S n - length (a :: pre)))%nat with (length (a :: pre))
        by (cbn [length] in *; lia).
      rewrite drop_app_length, take_app_length. reflexivity.
Qed.

(** X18: [_enforce_bounds] on arrays of floats, [x] one dimensional and
    [y] of one or more dimensions.  With [rest] the part of [x] from the
    first entry above [xmin + 360] on (empty when there is none) and
    [pre] the part before it, the returned coordinates are [rest] less
    360 followed by [pre]; in particular [x] is returned as it is when no
    entry is above [xmin + 360]. *)
Theorem enforce_bounds_rolls (pre rest : list plot.float) (y : plot.ndarray)
    (xmin xmax : Q) :
  plot.ndim y <> 0%nat ->
  Forall (fun w => plot.lt (Some (xmin + 360)) w = false) pre ->
  (forall v, head rest = Some v -> plot.lt (Some (xmin + 360)) v = true) ->
  fst (plot._enforce_bounds (plot.Array1 (pre ++ rest)) y xmin xmax)
  = plot.Array1 (map (fun w => plot.add w (- (360))) rest ++ pre).
Proof.
  intros _ Hpre Hrest. unfold plot._enforce_bounds.
  rewrite map_app.
  assert (Hm : Forall (fun b => b = false)
                 (map (fun v => plot.lt (Some (xmin + 360)) v) pre)).
  { rewrite Forall_map. exact Hpre. }
  destruct rest as [|v post].
  - rewrite app_nil_r. cbn [map app]. rewrite app_nil_r, (where_none _ Hm).
    reflexivity.
  - cbn [map]. rewrite (Hrest v eq_refl).
    destruct (where_first _ (map (fun v => plot.lt (Some (xmin + 360)) v) post) Hm)
      as [more ->].
    rewrite length_map.
    rewrite (roll_split pre (v :: post)) by discriminate.
    replace (length (pre ++ v :: post) - length pre)%nat with (length (v :: post))
      by (rewrite length_app; lia).
    rewrite take_app_length, drop_app_length.
    reflexivity.
Qed.

Lemma enforce_bounds_rolls_witness :
  fst (plot._enforce_bounds
         (plot.Array1 ([Some (1 # 2); Some (201 # 2)]
                       ++ [Some (401 # 2); Some (601 # 2)]))
         (plot.Array2 [[Some 1; Some 2; Some 3; Some 4];
                       [Some 5; Some 6; Some 7; Some 8]]) (- (180)) 180)
  = plot.Array1 (map (fun w => plot.add w (- (360)))
                   [Some (401 # 2); Some (601 # 2)]
                 ++ [Some (1 # 2); Some (201 # 2)]).
Proof.
  apply (enforce_bounds_rolls [Some (1 # 2); Some (201 # 2)]
           [Some (401 # 2); Some (601 # 2)]
           (plot.Array2 [[Some 1; Some 2; Some 3; Some 4];
                         [Some 5; Some 6; Some 7; Some 8]]) (- (180)) 180).
  - discriminate.
  - repeat constructor.
  - intros v [= <-]. reflexivity.
Defined.

Lemma removelast_elem {A} (l : list A) (x : A) : x ∈ removelast l -> x ∈ l.
Proof.
  induction l as [|a l IH]; cbn; [intros H; exact H|].
  destruct l as [|b l]; [intros H; inversion H|].
  intros H. apply elem_of_cons in H. destruct H as [->|H].
  - apply list_elem_of_here.
  - apply list_elem_of_further. apply IH. exact H.
Qed.

Lemma tail_elem {A} (l : list A) (x : A) : x ∈ tail l -> x ∈ l.
Proof.
  destruct l as [|a l]; cbn; [intros H; exact H|].
  apply list_elem_of_further.
Qed.

Lemma put_nan_lookup (idx : list nat) (a : list plot.float) (j : nat) :
  length (foldl (fun r i => <[i := plot.nan]> r) a idx) = length a
  /\ (foldl (fun r i => <[i := plot.nan]> r) a idx !! j = a !! j
      \/ (foldl (fun r i => <[i := plot.nan]> r) a idx !! j = Some plot.nan
          /\ j ∈ idx)).
Proof.
  revert a. induction idx as [|i idx IH]; intros a; cbn [foldl].
  - split; [reflexivity|left; reflexivity].
  - destruct (IH (<[i := plot.nan]> a)) as [Hlen Hj].
    rewrite length_insert in Hlen. split; [exact Hlen|].
    destruct Hj as [Hj|[Hj Hin]].
    + rewrite Hj. destruct (decide (i = j)) as [->|Hne].
      * destruct (decide (j < length a)%nat) as [Hlt|Hge].
        -- right. split; [apply list_lookup_insert_eq; exact Hlt|].
           apply list_elem_of_here.
        -- left. rewrite !lookup_ge_None_2; [reflexivity|lia|rewrite length_insert; lia].
      * left. apply list_lookup_insert_ne. exact Hne.
    + right. split; [exact Hj|]. apply list_elem_of_further. exact Hin.
Qed.

(** X19: [_enforce_bounds] on one dimensional arrays of floats [x] and
    [y] of the same length.  [y] is rolled like [x] ([pre] and [rest] as
    above), it keeps its length, and an entry of the result is the rolled
    entry or [nan]; it is [nan] only where the returned coordinate is
    below [xmin] or above [xmax], so no value inside the range is lost. *)
Theorem enforce_bounds_masks (pre rest apre arest : list plot.float)
    (xmin xmax : Q) :
  Forall (fun w => plot.lt (Some (xmin + 360)) w = false) pre ->
  (forall v, head rest = Some v -> plot.lt (Some (xmin + 360)) v = true) ->
  length apre = length pre -> length arest = length rest ->
  exists a',
    snd (plot._enforce_bounds (plot.Array1 (pre ++ rest))
           (plot.Array1 (apre ++ arest)) xmin xmax)
    = plot.Array1 a'
    /\ length a' = length (arest ++ apre)
    /\ forall j : nat,
         a' !! j = (arest ++ apre) !! j
         \/ (a' !! j = Some plot.nan
             /\ exists w,
                  (map (fun w => plot.add w (- (360))) rest ++ pre) !! j = Some w
                  /\ (plot.lt w (Some xmin) || plot.lt (Some xmax) w = true)%bool).
Proof.
  intros Hpre Hrest Hlp Hlr.
  assert (Hstep : forall x1 a1 : list plot.float,
             length a1 = length x1 ->
             exists a',
               (if negb (length x1 =? 0)%nat
                   && (length x1 - 1 =? plot.shape_last (plot.Array1 a1))%nat
                then plot.set_nan_mask (plot.Array1 a1)
                       (zip_with orb
                          (map (fun v => plot.lt v (Some xmin)) (tail x1))
                          (map (fun v => plot.lt (Some xmax) v) (removelast x1)))
                else if (length x1 =? plot.shape_last (plot.Array1 a1))%nat then
                  plot.set_nan_at (plot.Array1 a1)
                    (removelast (tail (plot.np_where
                       (map (fun v => plot.lt v (Some xmin) || plot.lt (Some xmax) v)
                            x1))))
                else plot.Array1 a1)
               = plot.Array1 a'
               /\ length a' = length a1
               /\ forall j : nat,
                    a' !! j = a1 !! j
                    \/ (a' !! j = Some plot.nan
                        /\ exists w, x1 !! j = Some w
                             /\ (plot.lt w (Some xmin) || plot.lt (Some xmax) w
                                 = true)%bool)).
  { intros x1 a1 Hl. cbn [plot.shape_last]. rewrite Hl.
    assert (E1 : negb (length x1 =? 0)%nat && (length x1 - 1 =? length x1)%nat = false).
    { destruct (length x1) as [|n]; [reflexivity|].
      cbn [Nat.eqb negb andb]. apply Nat.eqb_neq. lia. }
    rewrite E1, Nat.eqb_refl. cbn [plot.set_nan_at].
    eexists. split; [reflexivity|].
    split; [rewrite <- Hl; exact (proj1 (put_nan_lookup _ a1 0%nat))|].
    intros j.
    destruct (put_nan_lookup
                (removelast (tail (plot.np_where
                   (map (fun v => plot.lt v (Some xmin) || plot.lt (Some xmax) v) x1))))
                a1 j) as [_ [H|[H Hin]]]; [left; exact H|right].
    split; [exact H|].
    apply removelast_elem, tail_elem, where_elem in Hin.
    rewrite list_lookup_fmap in Hin.
    destruct (x1 !! j) as [w|]; [|discriminate].
    exists w. split; [reflexivity|]. cbn [fmap option_fmap option_map] in Hin.
    injection Hin as Hin. exact Hin. }
  unfold plot._enforce_bounds. rewrite map_app.
  assert (Hm : Forall (fun b => b = false)
                 (map (fun v => plot.lt (Some (xmin + 360)) v) pre)).
  { rewrite Forall_map. exact Hpre. }
  destruct rest as [|v post].
  - destruct arest; [|discriminate].
    rewrite !app_nil_r. cbn [map app]. rewrite ?app_nil_r, (where_none _ Hm).
    cbn [snd]. apply Hstep. exact Hlp.
  - cbn [map]. rewrite (Hrest v eq_refl).
    destruct (where_first _ (map (fun v => plot.lt (Some (xmin + 360)) v) post) Hm)
      as [more ->].
    rewrite length_map. cbn [plot.roll_last].
    rewrite (roll_split pre (v :: post)) by discriminate.
    replace (length (pre ++ v :: post) - length pre)%nat
      with (length (apre ++ arest) - length apre)%nat
      by (rewrite !length_app; lia).
    rewrite (roll_split apre arest) by (destruct arest; discriminate).
    replace (length (apre ++ arest) - length apre)%nat with (length (v :: post))
      by (rewrite length_app; lia).
    rewrite take_app_length, drop_app_length.
    cbn [snd]. apply Hstep. rewrite !length_app. cbn [length map] in *.
    rewrite ?length_map. lia.
Qed.

Lemma enforce_bounds_masks_witness :
  exists a',
    snd (plot._enforce_bounds
           (plot.Array1 ([Some (- (601 # 2)); Some (- (501 # 2));
                          Some (- (401 # 2)); Some (1 # 2)]
                         ++ [Some (401 # 2)]))
           (plot.Array1 ([Some (3 # 2); Some (5 # 2); Some (7 # 2); Some (9 # 2)]
                         ++ [Some (11 # 2)])) (- (180)) 180)
    = plot.Array1 a'
    /\ length a'
       = length ([Some (11 # 2)]
                 ++ [Some (3 # 2); Some (5 # 2); Some (7 # 2); Some (9 # 2)])
    /\ forall j : nat,
         a' !! j = ([Some (11 # 2)]
                    ++ [Some (3 # 2); Some (5 # 2); Some (7 # 2); Some (9 # 2)]) !! j
         \/ (a' !! j = Some plot.nan
             /\ exists w,
                  (map (fun w => plot.add w (- (360))) [Some (401 # 2)]
                   ++ [Some (- (601 # 2)); Some (- (501 # 2));
                       Some (- (401 # 2)); Some (1 # 2)]) !! j = Some w
                  /\ (plot.lt w (Some (- (180))) || plot.lt (Some 180) w = true)%bool).
Proof.
  apply (enforce_bounds_masks
           [Some (- (601 # 2)); Some (- (501 # 2)); Some (- (401 # 2)); Some (1 # 2)]
           [Some (401 # 2)]
           [Some (3 # 2); Some (5 # 2); Some (7 # 2); Some (9 # 2)]
           [Some (11 # 2)] (- (180)) 180).
  - repeat constructor.
  - intros v [= <-]. reflexivity.
  - reflexivity.
  - reflexivity.
Defined.

(** On that input the entry between the first and the last coordinate
    outside the range is set to [nan]. *)
Example enforce_bounds_masks_nan :
  snd (plot._enforce_bounds
         (plot.Array1 [Some (- (601 # 2)); Some (- (501 # 2));
                       Some (- (401 # 2)); Some (1 # 2); Some (401 # 2)])
         (plot.Array1 [Some (3 # 2); Some (5 # 2); Some (7 # 2); Some (9 # 2);
                       Some (11 # 2)]) (- (180)) 180)
  = plot.Array1 [Some (11 # 2); Some (3 # 2); plot.nan; Some (7 # 2); Some (9 # 2)].
Proof. vm_compute. reflexivity. Qed.

(** ** [_enforce_centers] *)

Lemma removelast_length {A} (a : list A) :
  length (removelast a) = (length a - 1)%nat.
Proof.
  induction a as [|v a IH]; [reflexivity|].
  destruct a as [|w a]; [reflexivity|].
  change (removelast (v :: w :: a)) with (v :: removelast (w :: a)).
  cbn [length] in *. lia.
Qed.

Lemma tail_length {A} (a : list A) : length (tail a) = (length a - 1)%nat.
Proof. destruct a; cbn; lia. Qed.

Lemma centers1d_length (a : list plot.float) :
  length (plot.centers1d a) = (length a - 1)%nat.
Proof.
  unfold plot.centers1d.
  rewrite length_map, length_zip_with, tail_length, removelast_length. lia.
Qed.

(** X20: [_enforce_centers] for one dimensional [x] and [y] and a two
    dimensional [Z] with at least one row and one column.  Coordinates
    with one entry for each column and each row of [Z] are returned as
    they are.  Coordinates that are longer by one each are replaced by the
    midpoints of successive entries, one for each column and row, when
    both are arrays of numbers, and are returned as they are, one longer
    than [Z], when one of them is not (an array of dates).  For all other
    lengths [ValueError] is raised. *)
Theorem enforce_centers_shapes (x_number y_number : bool)
    (x y : list plot.float) (rows : list (list plot.float)) :
  (1 <= plot.shape (plot.Array2 rows) 0)%nat ->
  (1 <= plot.shape (plot.Array2 rows) 1)%nat ->
  match plot._enforce_centers x_number y_number
          (plot.Array1 x) (plot.Array1 y) (plot.Array2 rows) with
  | Ok (plot.Array1 xs, plot.Array1 ys) =>
      (length x = plot.shape (plot.Array2 rows) 1
       /\ length y = plot.shape (plot.Array2 rows) 0
       /\ xs = x /\ ys = y)
      \/ (length x = S (plot.shape (plot.Array2 rows) 1)
          /\ length y = S (plot.shape (plot.Array2 rows) 0)
          /\ if x_number && y_number
             then xs = plot.centers1d x /\ ys = plot.centers1d y
                  /\ length xs = plot.shape (plot.Array2 rows) 1
                  /\ length ys = plot.shape (plot.Array2 rows) 0
             else xs = x /\ ys = y)
  | Ok _ => False
  | Raise e =>
      e = ValueError
      /\ ~ (length x = plot.shape (plot.Array2 rows) 1
            /\ length y = plot.shape (plot.Array2 rows) 0)
      /\ ~ (length x = S (plot.shape (plot.Array2 rows) 1)
            /\ length y = S (plot.shape (plot.Array2 rows) 0))
  end.
Proof.
  intros Hr Hc. unfold plot._enforce_centers.
  cbn [plot.ndim plot.shape_last Nat.eqb andb].
  change (match rows with r :: _ => length r | [] => 0%nat end)
    with (plot.shape (plot.Array2 rows) 1).
  change (length rows) with (plot.shape (plot.Array2 rows) 0) in *.
  set (nc := plot.shape (plot.Array2 rows) 1) in *.
  set (nr := plot.shape (plot.Array2 rows) 0) in *.
  change (plot.shape (plot.Array1 y) 0) with (length y).
  destruct (Z.eqb_spec (Z.of_nat nc) (Z.of_nat (length x) - 1)) as [Ex|Ex];
    [destruct (Z.eqb_spec (Z.of_nat nr) (Z.of_nat (length y) - 1)) as [Ey|Ey]|];
    cbn [andb].
  - assert (Hx : length x = S nc) by lia. assert (Hy : length y = S nr) by lia.
    unfold plot._is_number.
    cbn [forallb plot.ndim Nat.eqb plot.size plot.shape andb].
    rewrite Hx, Hy.
    replace (1 <? S nc)%nat with true by (symmetry; apply Nat.ltb_lt; lia).
    replace (1 <? S nr)%nat with true by (symmetry; apply Nat.ltb_lt; lia).
    cbn [Nat.eqb negb andb].
    destruct x_number, y_number; cbn [andb]; right;
      (split; [reflexivity|split; [reflexivity|]]);
      try (split; reflexivity).
    rewrite !centers1d_length, Hx, Hy.
    repeat split; lia.
  - destruct (Z.eqb_spec (Z.of_nat nc) (Z.of_nat (length x))) as [Ex'|Ex'];
      cbn [negb orb]; [lia|].
    repeat split; lia.
  - destruct (Z.eqb_spec (Z.of_nat nc) (Z.of_nat (length x))) as [Ex'|Ex'];
      cbn [negb orb]; [|repeat split; lia].
    destruct (Z.eqb_spec (Z.of_nat nr) (Z.of_nat (length y))) as [Ey'|Ey'];
      cbn [negb]; [|repeat split; lia].
    left. repeat split; lia.
Qed.

Lemma enforce_centers_shapes_witness :
  match plot._enforce_centers true true
          (plot.Array1 [Some 0; Some 2; Some 6])
          (plot.Array1 [Some 1; Some 3])
          (plot.Array2 [[Some 5; Some 7]]) with
  | Ok (plot.Array1 xs, plot.Array1 ys) =>
      (length [Some 0; Some 2; Some 6]
       = plot.shape (plot.Array2 [[Some 5; Some 7]]) 1
       /\ length [Some 1; Some 3] = plot.shape (plot.Array2 [[Some 5; Some 7]]) 0
       /\ xs = [Some 0; Some 2; Some 6] /\ ys = [Some 1; Some 3])
      \/ (length [Some 0; Some 2; Some 6]
          = S (plot.shape (plot.Array2 [[Some 5; Some 7]]) 1)
          /\ length [Some 1; Some 3]
             = S (plot.shape (plot.Array2 [[Some 5; Some 7]]) 0)
          /\ if true && true
             then xs = plot.centers1d [Some 0; Some 2; Some 6]
                  /\ ys = plot.centers1d [Some 1; Some 3]
                  /\ length xs = plot.shape (plot.Array2 [[Some 5; Some 7]]) 1
                  /\ length ys = plot.shape (plot.Array2 [[Some 5; Some 7]]) 0
             else xs = [Some 0; Some 2; Some 6] /\ ys = [Some 1; Some 3])
  | Ok _ => False
  | Raise e =>
      e = ValueError
      /\ ~ (length [Some 0; Some 2; Some 6]
            = plot.shape (plot.Array2 [[Some 5; Some 7]]) 1
            /\ length [Some 1; Some 3]
               = plot.shape (plot.Array2 [[Some 5; Some 7]]) 0)
      /\ ~ (length [Some 0; Some 2; Some 6]
            = S (plot.shape (plot.Array2 [[Some 5; Some 7]]) 1)
            /\ length [Some 1; Some 3]
               = S (plot.shape (plot.Array2 [[Some 5; Some 7]]) 0))
  end.
Proof.
  apply (enforce_centers_shapes true true [Some 0; Some 2; Some 6]
           [Some 1; Some 3] [[Some 5; Some 7]]); cbn; lia.
Defined.

(** ** [make_segmentdata_array], [add_alpha] and [norm] *)

Lemma cumsum_length (acc : Q) (r : list Q) :
  length (np.cumsum_from acc r) = length r.
Proof.
  revert acc. induction r as [|x r IH]; intros acc; cbn; [reflexivity|].
  rewrite IH. reflexivity.
Qed.

Lemma cumsum_max (r : list Q) (a acc : Q) :
  a == acc -> Forall (fun x => 0 < x) r ->
  fold_left Qmax (np.cumsum_from acc r) a == acc + fold_right Qplus 0 r.
Proof.
  revert a acc. induction r as [|x r IH]; intros a acc Ha Hr; cbn.
  - rewrite Ha. ring.
  - inversion Hr as [|? ? Hx Hr']; subst.
    rewrite (IH (Qmax a (acc + x)) (acc + x)); [ring| |exact Hr'].
    apply Q.max_r. rewrite Ha. lra.
Qed.

Lemma cumsum_last (r : list Q) (acc d : Q) :
  List.last (acc :: np.cumsum_from acc r) d == acc + fold_right Qplus 0 r.
Proof.
  revert acc. induction r as [|x r IH]; intros acc.
  - cbn. ring.
  - change (List.last (acc :: np.cumsum_from acc (x :: r)) d)
      with (List.last ((acc + x) :: np.cumsum_from (acc + x) r) d).
    rewrite IH. cbn. ring.
Qed.

Lemma cumsum_steps (r : list Q) (acc m : Q) :
  ~ m == 0 ->
  Forall2 (fun d x => d == x / m)
    (np.diff (map (fun c => c / m) (acc :: np.cumsum_from acc r))) r.
Proof.
  intros Hm. revert acc. induction r as [|x r IH]; intros acc.
  - constructor.
  - cbn [np.cumsum_from map]. rewrite diff_cons. constructor.
    + field. exact Hm.
    + exact (IH (acc + x)).
Qed.

Lemma sum_pos (r : list Q) :
  r <> [] -> Forall (fun x => 0 < x) r -> 0 < fold_right Qplus 0 r.
Proof.
  intros Hne Hr. destruct Hr as [|x r Hx Hr]; [congruence|].
  cbn. clear Hne.
  assert (0 <= fold_right Qplus 0 r); [|lra].
  induction Hr as [|y r Hy Hr IH]; cbn; lra.
Qed.

Lemma last_map {A B} (f : A -> B) (l : list A) (d : A) (d' : B) :
  l <> [] -> List.last (map f l) d' = f (List.last l d).
Proof.
  induction l as [|a l IH]; [congruence|]. intros _.
  destruct l as [|b l]; [reflexivity|].
  change (List.last (map f (a :: b :: l)) d') with (List.last (map f (b :: l)) d').
  change (List.last (a :: b :: l) d) with (List.last (b :: l) d).
  apply IH. discriminate.
Qed.

Lemma steps_positive (ds rs : list Q) (m : Q) :
  0 < m -> Forall2 (fun d x => d == x / m) ds rs ->
  Forall (fun x => 0 < x) rs -> Forall (fun d => 0 < d) ds.
Proof.
  intros Hm H. induction H as [|d r ds rs Hd _ IH]; intros Hp; [constructor|].
  inversion Hp; subst. constructor; [|apply IH; assumption].
  rewrite Hd. apply div_pos; assumption.
Qed.

(** X22: [make_segmentdata_array] for at least two channel values and a
    list of positive [ratios], one for each gap between values.  The
    result is the values (reversed when [reverse] is set), each given
    twice, beside as many coordinates, which start at 0, end at 1 and
    never decrease. *)
Theorem make_segmentdata_array_ratios (values ratios : list Q) (reverse : bool) :
  (2 <= length values)%nat ->
  length ratios = (length values - 1)%nat ->
  Forall (fun r => 0 < r) ratios ->
  exists xs,
    colortools.make_segmentdata_array values (colortools.RList ratios) reverse
    = Ok (zip_with (fun x value => (x, value, value)) xs
            (if reverse then rev values else values))
    /\ length xs = length values
    /\ hd 0 xs == 0 /\ List.last xs 0 == 1
    /\ Forall (fun d => 0 <= d) (np.diff xs).
Proof.
  intros Hn Hlen Hpos.
  assert (Hne : ratios <> []).
  { intros ->. cbn in Hlen. lia. }
  pose proof (sum_pos ratios Hne Hpos) as Htotal.
  set (total := fold_right Qplus 0 ratios) in *.
  set (m := fold_left Qmax (np.cumsum ratios) 0).
  assert (Hm : m == total).
  { unfold m, np.cumsum. rewrite (cumsum_max ratios 0 0) by (reflexivity || exact Hpos).
    fold total. ring. }
  assert (Hm0 : ~ m == 0) by (rewrite Hm; lra).
  exists (map (fun x => x / m) (0 :: np.cumsum ratios)).
  split; [|split; [|split; [|split]]].
  - unfold colortools.make_segmentdata_array.
    destruct values as [|v1 [|v2 vs]]; [cbn in Hn; lia|cbn in Hn; lia|].
    assert (E : negb (np.len ratios =? np.len (v1 :: v2 :: vs) - 1)%Z = false).
    { apply negb_false_iff, Z.eqb_eq. unfold np.len. rewrite Hlen.
      cbn [length]. lia. }
    rewrite E. reflexivity.
  - rewrite length_map. cbn [length]. unfold np.cumsum.
    rewrite cumsum_length, Hlen. lia.
  - cbn. unfold Qdiv. ring.
  - rewrite (last_map _ _ 0) by discriminate.
    unfold np.cumsum. rewrite (cumsum_last ratios 0 0). fold total.
    rewrite Hm. field. lra.
  - unfold np.cumsum.
    eapply Forall_impl;
      [apply (steps_positive _ ratios m); [lra| |exact Hpos];
       apply cumsum_steps; exact Hm0|].
    intros d Hd. cbn beta in Hd. lra.
Qed.

Lemma make_segmentdata_array_ratios_witness :
  exists xs,
    colortools.make_segmentdata_array [1 # 10; 1 # 2; 1]
      (colortools.RList [1; 3]) true
    = Ok (zip_with (fun x value => (x, value, value)) xs
            (rev [1 # 10; 1 # 2; 1]))
    /\ length xs = length [1 # 10; 1 # 2; 1]
    /\ hd 0 xs == 0 /\ List.last xs 0 == 1
    /\ Forall (fun d => 0 <= d) (np.diff xs).
Proof.
  apply (make_segmentdata_array_ratios [1 # 10; 1 # 2; 1] [1; 3] true).
  - cbn. lia.
  - reflexivity.
  - repeat constructor.
Defined.

(** X23: [make_segmentdata_array] without [ratios], for at least two
    channel values: the coordinates are those of [np.linspace(0, 1, n)],
    one for each value, from 0 to 1 and strictly increasing, beside the
    values (reversed when [reverse] is set). *)
Theorem make_segmentdata_array_even (values : list Q) (reverse : bool) :
  (2 <= length values)%nat ->
  exists xs,
    colortools.make_segmentdata_array values colortools.RNone reverse
    = Ok (zip_with (fun x value => (x, value, value)) xs
            (if reverse then rev values else values))
    /\ xs = np.linspace 0 1 (length values)
    /\ length xs = length values
    /\ hd 0 xs == 0 /\ List.last xs 0 == 1
    /\ np.increasing xs.
Proof.
  intros Hn. exists (np.linspace 0 1 (length values)).
  split; [|split; [|split; [|split; [|split]]]].
  - unfold colortools.make_segmentdata_array.
    destruct values as [|v1 [|v2 vs]]; [cbn in Hn; lia|cbn in Hn; lia|].
    reflexivity.
  - reflexivity.
  - apply linspace_length.
  - rewrite linspace_hd by exact Hn. apply linspace_first.
  - rewrite linspace_List_last by exact Hn. apply linspace_last. exact Hn.
  - apply linspace_increasing. exact Hn.
Qed.

Lemma make_segmentdata_array_even_witness :
  exists xs,
    colortools.make_segmentdata_array [1 # 10; 1 # 2; 1] colortools.RNone false
    = Ok (zip_with (fun x value => (x, value, value)) xs [1 # 10; 1 # 2; 1])
    /\ xs = np.linspace 0 1 (length [1 # 10; 1 # 2; 1])
    /\ length xs = length [1 # 10; 1 # 2; 1]
    /\ hd 0 xs == 0 /\ List.last xs 0 == 1
    /\ np.increasing xs.
Proof.
  apply (make_segmentdata_array_even [1 # 10; 1 # 2; 1] false). cbn. lia.
Defined.

(** X24: [add_alpha] returns exactly for a colour tuple of three or four
    channels and raises [ValueError] otherwise; the result has four
    channels, the first three are those of the input, the fourth is 1
    when the input had none, and applying [add_alpha] again changes
    nothing. *)
Theorem add_alpha_spec (color : colortools.pycolor) :
  match colortools.add_alpha color with
  | Ok r =>
      length r = 4%nat
      /\ colortools.add_alpha (colortools.ColorTuple r) = Ok r
      /\ exists channels,
           color = colortools.ColorTuple channels
           /\ take 3 r = take 3 channels
           /\ ((length channels = 3%nat /\ r = channels ++ [1])
               \/ (length channels = 4%nat /\ r = channels))
  | Raise e =>
      e = ValueError
      /\ forall channels,
           color = colortools.ColorTuple channels ->
           length channels <> 3%nat /\ length channels <> 4%nat
  end.
Proof.
  destruct color as [channels|s|q]; cbn [colortools.add_alpha];
    try (split; [reflexivity|intros ? [=]]).
  destruct (Nat.eqb_spec (length channels) 3) as [E3|E3].
  - split; [rewrite length_app, E3; reflexivity|]. split.
    + cbn [colortools.add_alpha]. rewrite length_app, E3. reflexivity.
    + exists channels. split; [reflexivity|]. split; [|left; split; auto].
      rewrite take_app_le by lia. reflexivity.
  - destruct (Nat.eqb_spec (length channels) 4) as [E4|E4].
    + split; [exact E4|]. split.
      * cbn [colortools.add_alpha]. rewrite E4. reflexivity.
      * exists channels. repeat split; auto.
    + split; [reflexivity|]. intros ch [= <-]. split; assumption.
Qed.

Section NormFacts.
Context {Instance : Type}.
Variable edges : list Q -> list Q.
Variable matplotlib_new :
  colortools.norm_class -> colortools.norm_kwargs -> result Instance.

(** X25: [norm] with the name ['zero'] or ['midpoint'] and levels that are
    not empty returns a [MidpointNorm] between the smallest and the
    largest level, around the [midpoint] keyword (0 when it is not
    given).  That normalizer returns for every value when some level is
    below and some level is above the midpoint; when no level is below,
    or no level is above, every call of it raises [ValueError]. *)
Theorem norm_midpoint_levels (name : string) (levels : list Q)
    (values : option (list Q)) (kwargs : colortools.norm_kwargs) :
  name = "zero"%string \/ name = "midpoint"%string ->
  levels <> [] ->
  exists n,
    colortools.norm edges matplotlib_new (colortools.NormName name)
      (Some levels) values kwargs
    = Ok (colortools.OutMidpoint n)
    /\ BinNorm.smallest (MidpointNorm.vmin n) levels
    /\ BinNorm.largest (MidpointNorm.vmax n) levels
    /\ MidpointNorm._midpoint n = default 0 (colortools.kw_midpoint kwargs)
    /\ (Exists (fun l => l < MidpointNorm._midpoint n) levels ->
        Exists (fun l => MidpointNorm._midpoint n < l) levels ->
        forall x, exists y, MidpointNorm.__call__ n x = Ok y)
    /\ (Forall (fun l => MidpointNorm._midpoint n <= l) levels
        \/ Forall (fun l => l <= MidpointNorm._midpoint n) levels ->
        forall x, MidpointNorm.__call__ n x = Raise ValueError).
Proof.
  intros Hname Hne.
  destruct (np.amin levels) as [lo|e] eqn:Emin;
    [|destruct levels; [congruence|discriminate]].
  destruct (np.amax levels) as [hi|e] eqn:Emax;
    [|destruct levels; [congruence|discriminate]].
  pose proof (amin_smallest levels lo Emin) as Hlo.
  pose proof (amax_largest levels hi Emax) as Hhi.
  exists (MidpointNorm.__init__ (default 0 (colortools.kw_midpoint kwargs)) lo hi
            (default false (colortools.kw_clip kwargs))).
  split; [|split; [exact Hlo|split; [exact Hhi|split; [reflexivity|split]]]].
  - unfold colortools.norm.
    assert (El : (match values with
                  | Some _ => Some levels
                  | None => Some levels
                  end) = Some levels) by (destruct values; reflexivity).
    destruct Hname as [-> | ->]; cbn [colortools.lookup_name colortools.normalizers];
      destruct values; cbn; rewrite Emin, Emax; reflexivity.
  - intros Hbelow Habove x.
    set (n := MidpointNorm.__init__ _ _ _ _) in *.
    assert (Hin : ~ MidpointNorm.midpoint_outside n).
    { unfold MidpointNorm.midpoint_outside.
      apply Exists_exists in Hbelow. destruct Hbelow as (a & Ha & Hla).
      apply Exists_exists in Habove. destruct Habove as (b & Hb & Hlb).
      destruct Hlo as [_ Hlo]. destruct Hhi as [_ Hhi].
      rewrite Forall_forall in Hlo, Hhi.
      specialize (Hlo a Ha). specialize (Hhi b Hb).
      change (MidpointNorm.vmin n) with lo. change (MidpointNorm.vmax n) with hi.
      lra. }
    destruct (Qlt_le_dec (MidpointNorm._midpoint n) x) as [Hx|Hx].
    + eexists. apply MidpointNorm_call_high; assumption.
    + eexists. apply MidpointNorm_call_low; assumption.
  - intros Hside x.
    set (n := MidpointNorm.__init__ _ _ _ _) in *.
    assert (Hout : MidpointNorm.midpoint_outside n).
    { unfold MidpointNorm.midpoint_outside.
      change (MidpointNorm.vmin n) with lo. change (MidpointNorm.vmax n) with hi.
      destruct Hlo as [Hlo _]. destruct Hhi as [Hhi _].
      destruct Hside as [H|H]; rewrite Forall_forall in H.
      - left. apply H. apply list_elem_of_In. exact Hlo.
      - right. apply H. apply list_elem_of_In. exact Hhi. }
    apply MidpointNorm_guard in Hout.
    unfold MidpointNorm.__call__. rewrite Hout. reflexivity.
Qed.
End NormFacts.

Lemma norm_midpoint_levels_witness :
  exists n,
    colortools.norm (Instance := unit) (fun values => values)
      (fun _ _ => Ok tt) (colortools.NormName "zero")
      (Some [- (2); 0; 4]) None (colortools.mk_norm_kwargs None None)
    = Ok (colortools.OutMidpoint n)
    /\ BinNorm.smallest (MidpointNorm.vmin n) [- (2); 0; 4]
    /\ BinNorm.largest (MidpointNorm.vmax n) [- (2); 0; 4]
    /\ MidpointNorm._midpoint n
       = default 0 (colortools.kw_midpoint (colortools.mk_norm_kwargs None None))
    /\ (Exists (fun l => l < MidpointNorm._midpoint n) [- (2); 0; 4] ->
        Exists (fun l => MidpointNorm._midpoint n < l) [- (2); 0; 4] ->
        forall x, exists y, MidpointNorm.__call__ n x = Ok y)
    /\ (Forall (fun l => MidpointNorm._midpoint n <= l) [- (2); 0; 4]
        \/ Forall (fun l => l <= MidpointNorm._midpoint n) [- (2); 0; 4] ->
        forall x, MidpointNorm.__call__ n x = Raise ValueError).
Proof.
  apply (norm_midpoint_levels (Instance := unit) (fun values => values)
           (fun _ _ => Ok tt) "zero" [- (2); 0; 4] None
           (colortools.mk_norm_kwargs None None)).
  - left. reflexivity.
  - discriminate.
Defined.

(** ** [standardize_1d] with explicit coordinates *)

(** X26: [standardize_1d] called with coordinates [x] that are numbers,
    data [y] and at most two more positional arguments, away from a
    basemap axes with a true [latlon]: a two dimensional [x] gives
    [ValueError]; otherwise the wrapped method is called with [x] itself
    (as a one-entry array when [x] is a scalar), which is also the
    [positions] keyword for [boxplot] and [violinplot], and no positional
    argument is lost.  (Coordinates that are strings are not arrays of
    this development: for them [_auto_format_1d] passes [np.arange] on
    and keeps the strings as labels.) *)
Theorem standardize_1d_explicit_x (self : plot.axes) (name : string)
    (kw : plot.kwargs) (x y : plot.ndarray) (args : list plot.ndarray) :
  (length args <= 2)%nat ->
  ~ (plot.axes_name self = "proplot_basemap"%string
     /\ plot.truthy (plot.latlon kw) = true) ->
  match plot.standardize_1d self name (x :: y :: args) kw with
  | Ok c =>
      plot.ndim x <> 2%nat
      /\ plot.call_x c = Some (plot._to_arraylike x)
      /\ (plot.name_in name ["boxplot"; "violinplot"]%string = true ->
          plot.positions (plot.call_kwargs c) = Some (plot._to_arraylike x))
      /\ (plot.name_in name ["boxplot"; "violinplot"]%string = false ->
          plot.call_kwargs c = kw)
      /\ (length (plot.call_ys c) + length (plot.call_args c))%nat
         = S (length args)
  | Raise e => e = ValueError /\ plot.ndim x = 2%nat
  end.
Proof.
  intros Hargs Hmap.
  assert (Hbase : (String.eqb (plot.axes_name self) "proplot_basemap"
                   && plot.truthy (plot.latlon kw))%bool = false).
  { destruct (String.eqb_spec (plot.axes_name self) "proplot_basemap");
      [|reflexivity].
    destruct (plot.truthy (plot.latlon kw)) eqn:E; [|reflexivity].
    destruct Hmap. split; [assumption|reflexivity]. }
  unfold plot.standardize_1d.
  assert (E : (length args <=? 2)%nat = true) by (apply Nat.leb_le; exact Hargs).
  rewrite E.
  assert (Hfmt : forall x' y', plot._auto_format_1d x' y' name kw = (None, kw)).
  { intros x' y'. unfold plot._auto_format_1d, plot._is_string.
    rewrite andb_false_r. reflexivity. }
  assert (Hpos : forall p, plot.truthy (plot.latlon (plot.set_positions kw p))
                           = plot.truthy (plot.latlon kw)) by reflexivity.
  destruct x as [v|a|rows]; cbn [plot._to_arraylike plot.ndim Nat.eqb negb];
    try (split; reflexivity).
  - destruct args as [|y2 rest];
      [|destruct (plot.contains "fill_between" name)];
      cbn [map hd]; rewrite Hfmt;
      destruct (negb (bool_decide (is_Some (plot.projection self))));
      destruct (plot.name_in name ["boxplot"; "violinplot"]%string) eqn:En;
      rewrite ?Hpos, Hbase; cbn;
      repeat split; try discriminate; try congruence; cbn in Hargs; lia.
  - destruct args as [|y2 rest];
      [|destruct (plot.contains "fill_between" name)];
      cbn [map hd]; rewrite Hfmt;
      destruct (negb (bool_decide (is_Some (plot.projection self))));
      destruct (plot.name_in name ["boxplot"; "violinplot"]%string) eqn:En;
      rewrite ?Hpos, Hbase; cbn;
      repeat split; try discriminate; try congruence; cbn in Hargs; lia.
  - destruct args as [|y2 rest];
      [|destruct (plot.contains "fill_between" name)]; split; reflexivity.
Qed.

Lemma standardize_1d_explicit_x_witness :
  match plot.standardize_1d (plot.mk_axes None "") "boxplot"
          [plot.Array0 (Some 3); plot.Array1 [Some 5; Some 7]]
          (plot.mk_kwargs None None None None None) with
  | Ok c =>
      plot.ndim (plot.Array0 (Some 3)) <> 2%nat
      /\ plot.call_x c = Some (plot._to_arraylike (plot.Array0 (Some 3)))
      /\ (plot.name_in "boxplot" ["boxplot"; "violinplot"]%string = true ->
          plot.positions (plot.call_kwargs c)
          = Some (plot._to_arraylike (plot.Array0 (Some 3))))
      /\ (plot.name_in "boxplot" ["boxplot"; "violinplot"]%string = false ->
          plot.call_kwargs c = plot.mk_kwargs None None None None None)
      /\ (length (plot.call_ys c) + length (plot.call_args c))%nat
         = S (length (@nil plot.ndarray))
  | Raise e => e = ValueError /\ plot.ndim (plot.Array0 (Some 3)) = 2%nat
  end.
Proof.
  apply (standardize_1d_explicit_x (plot.mk_axes None "") "boxplot"
           (plot.mk_kwargs None None None None None)
           (plot.Array0 (Some 3)) (plot.Array1 [Some 5; Some 7]) []).
  - cbn. lia.
  - cbn. intros [H _]. discriminate.
Defined.

(** ** [_fix_poles] and [_fix_cartopy] *)

Lemma increasing_above (x : Q) (l : list Q) :
  np.increasing (x :: l) -> Forall (fun v => x < v) l.
Proof.
  revert x. induction l as [|y l IH]; intros x H; [constructor|].
  apply increasing_cons in H. destruct H as [Hxy H].
  constructor; [exact Hxy|].
  eapply Forall_impl; [exact (IH y H)|]. intros v Hv. cbn beta in Hv. lra.
Qed.

Lemma increasing_bounds (a b : Q) (l : list Q) :
  l <> [] -> np.increasing l -> Forall (fun v => a < v < b) l ->
  np.increasing (a :: l ++ [b]).
Proof.
  revert a. induction l as [|x l IH]; intros a Hne Hinc Hall; [congruence|].
  inversion Hall as [|? ? Hx Hrest]; subst.
  destruct l as [|y l].
  - cbn [app]. apply increasing_cons. split; [lra|].
    apply increasing_cons. split; [lra|]. constructor.
  - change (a :: (x :: y :: l) ++ [b]) with (a :: x :: (y :: l) ++ [b]).
    apply increasing_cons. split; [lra|].
    apply IH; [discriminate| |].
    + apply increasing_cons in Hinc. apply Hinc.
    + pose proof (increasing_above x (y :: l) Hinc) as Habove.
      rewrite Forall_forall in Habove, Hrest. apply Forall_forall.
      intros v Hv. specialize (Habove v Hv). specialize (Hrest v Hv). lra.
Qed.

Lemma increasing_ends (l : list Q) (d : Q) :
  (2 <= length l)%nat -> np.increasing l -> hd d l < List.last l d.
Proof.
  intros Hlen Hinc.
  destruct l as [|x l]; [cbn in Hlen; lia|].
  assert (Hl : nth_error (x :: l) (length (x :: l) - 1) = Some (List.last (x :: l) d)).
  { apply nth_error_last. discriminate. }
  apply (increasing_lookup (x :: l) 0%nat (length (x :: l) - 1)%nat); auto.
  cbn [length] in *. lia.
Qed.

(** X28: [_fix_poles] on finite latitudes strictly between -90 and 90 that
    increase, or decrease, strictly, and a two dimensional [Z] with at
    least one row.  One latitude is added at each end and one row at each
    end of [Z], so latitudes and rows stay aligned; the latitudes stay
    monotone in the same direction (-90 comes first when they increase,
    90 when they decrease); each new row has one entry for each column of
    [Z], all equal. *)
Theorem fix_poles_spec (ys : list Q) (rows : list (list plot.float)) :
  rows <> [] -> (2 <= length ys)%nat ->
  np.increasing ys \/ np.increasing (rev ys) ->
  Forall (fun v => - (90) < v < 90) ys ->
  exists (ys' : list Q) (p1 p2 : plot.float),
    plot._fix_poles (map Some ys) (plot.Array2 rows)
    = Ok (map Some ys',
          plot.Array2
            ([repeat p1 (plot.shape (plot.Array2 rows) 1)] ++ rows
             ++ [repeat p2 (plot.shape (plot.Array2 rows) 1)]))
    /\ length ys' = (length ys + 2)%nat
    /\ (np.increasing ys -> ys' = [- (90)] ++ ys ++ [90] /\ np.increasing ys')
    /\ (np.increasing (rev ys) ->
        ys' = [90] ++ ys ++ [- (90)] /\ np.increasing (rev ys')).
Proof.
  intros Hrows Hlen Hmono Hrange.
  destruct rows as [|first rows]; [congruence|].
  destruct ys as [|y0 ys]; [cbn in Hlen; lia|].
  assert (Hlast : List.last (map Some (y0 :: ys)) (Some y0)
                  = Some (List.last (y0 :: ys) y0)).
  { apply last_map. discriminate. }
  assert (Hdir : np.increasing (y0 :: ys) -> np.increasing (rev (y0 :: ys)) -> False).
  { intros H1 H2.
    pose proof (increasing_ends (y0 :: ys) y0 Hlen H1) as E1.
    pose proof (increasing_ends (rev (y0 :: ys)) y0
                  ltac:(rewrite length_rev; exact Hlen) H2) as E2.
    assert (Hh : hd y0 (rev (y0 :: ys)) = List.last (y0 :: ys) y0).
    { rewrite <- (rev_involutive (y0 :: ys)) at 2.
      destruct (rev (y0 :: ys)) as [|r rs] eqn:Er.
      - apply (f_equal (@length Q)) in Er. rewrite length_rev in Er. discriminate.
      - cbn [hd rev]. rewrite last_last. reflexivity. }
    assert (Hl : List.last (rev (y0 :: ys)) y0 = y0).
    { cbn [rev]. apply last_last. }
    rewrite Hh, Hl in E2. cbn [hd] in E1. lra. }
  unfold plot._fix_poles. cbn [map] in Hlast |- *. unfold plot.float in *.
  rewrite Hlast. cbn [plot.lt].
  destruct Hmono as [Hinc|Hdec].
  - pose proof (increasing_ends (y0 :: ys) y0 Hlen Hinc) as Hends. cbn [hd] in Hends.
    assert (E : Qle_bool (List.last (y0 :: ys) y0) y0 = false)
      by (apply Qle_bool_false; exact Hends).
    rewrite E. cbn [negb fst snd].
    exists ([- (90)] ++ (y0 :: ys) ++ [90]). eexists _, _.
    split; [|split; [|split]].
    + rewrite !map_app. reflexivity.
    + rewrite !length_app. cbn [length]. lia.
    + intros _. split; [reflexivity|].
      apply increasing_bounds; [discriminate|exact Hinc|exact Hrange].
    + intros Hdec. destruct (Hdir Hinc Hdec).
  - assert (Hends : List.last (y0 :: ys) y0 < y0).
    { pose proof (increasing_ends (rev (y0 :: ys)) y0
                    ltac:(rewrite length_rev; exact Hlen) Hdec) as E2.
      assert (Hh : hd y0 (rev (y0 :: ys)) = List.last (y0 :: ys) y0).
      { rewrite <- (rev_involutive (y0 :: ys)) at 2.
        destruct (rev (y0 :: ys)) as [|r rs] eqn:Er.
        - apply (f_equal (@length Q)) in Er. rewrite length_rev in Er. discriminate.
        - cbn [hd rev]. rewrite last_last. reflexivity. }
      assert (Hl : List.last (rev (y0 :: ys)) y0 = y0).
      { cbn [rev]. apply last_last. }
      rewrite Hh, Hl in E2. exact E2. }
    assert (E : Qle_bool (List.last (y0 :: ys) y0) y0 = true)
      by (apply Qle_bool_true; lra).
    rewrite E. cbn [negb fst snd].
    exists ([90] ++ (y0 :: ys) ++ [- (90)]). eexists _, _.
    split; [|split; [|split]].
    + rewrite !map_app. reflexivity.
    + rewrite !length_app. cbn [length]. lia.
    + intros Hinc. destruct (Hdir Hinc Hdec).
    + intros _. split; [reflexivity|].
      rewrite !rev_app_distr. cbn [rev app].
      change (- (90) :: rev (y0 :: ys) ++ [90])
        with (- (90) :: rev (y0 :: ys) ++ [90]).
      apply (increasing_bounds (- (90)) 90 (rev (y0 :: ys))).
      * intros Er. apply (f_equal (@length Q)) in Er.
        rewrite length_rev in Er. discriminate.
      * exact Hdec.
      * apply Forall_forall. intros v Hv. rewrite Forall_forall in Hrange.
        apply Hrange. apply list_elem_of_In. apply in_rev.
        apply list_elem_of_In. exact Hv.
Qed.

Lemma fix_poles_spec_witness :
  exists (ys' : list Q) (p1 p2 : plot.float),
    plot._fix_poles (map Some [60; 0; - (60)])
      (plot.Array2 [[Some 1; Some 3]; [Some 5; Some 6]; [Some 7; Some 9]])
    = Ok (map Some ys',
          plot.Array2
            ([repeat p1 (plot.shape
                           (plot.Array2 [[Some 1; Some 3]; [Some 5; Some 6];
                                         [Some 7; Some 9]]) 1)]
             ++ [[Some 1; Some 3]; [Some 5; Some 6]; [Some 7; Some 9]]
             ++ [repeat p2 (plot.shape
                              (plot.Array2 [[Some 1; Some 3]; [Some 5; Some 6];
                                            [Some 7; Some 9]]) 1)]))
    /\ length ys' = (length [60; 0; - (60)]%Q + 2)%nat
    /\ (np.increasing [60; 0; - (60)] ->
        ys' = [- (90)] ++ [60; 0; - (60)] ++ [90] /\ np.increasing ys')
    /\ (np.increasing (rev [60; 0; - (60)]) ->
        ys' = [90] ++ [60; 0; - (60)] ++ [- (90)] /\ np.increasing (rev ys')).
Proof.
  apply (fix_poles_spec [60; 0; - (60)]
           [[Some 1; Some 3]; [Some 5; Some 6]; [Some 7; Some 9]]).
  - discriminate.
  - cbn. lia.
  - right. unfold np.increasing. cbn. repeat constructor.
  - repeat constructor.
Defined.

Lemma fix_loop_head (fuel : nat) (l : Q) (xs : list plot.float) :
  exists xf, plot.fix_loop fuel (Some l) (Some l :: xs) = Some l :: xf
             /\ length xf = length xs.
Proof.
  revert xs. induction fuel as [|fuel IH]; intros xs.
  - exists xs. split; reflexivity.
  - cbn [plot.fix_loop]. destruct (negb _).
    + exists xs. split; reflexivity.
    + rewrite bump_zip. cbn [map plot.lt].
      replace (Qle_bool l l) with true by (symmetry; apply Qle_bool_true; lra).
      cbn [negb].
      destruct (IH (map (fun v => if plot.lt v (Some l) then plot.add v 360 else v) xs))
        as (xf & Hxf & Hlen).
      exists xf. split; [exact Hxf|]. rewrite Hlen. apply length_map.
Qed.

Lemma fix_latlon_head (l : Q) (xs : list plot.float) (y : plot.ndarray) :
  exists xf,
    plot._fix_latlon (plot.Array1 (Some l :: xs)) y
    = Ok (plot.Array1 (Some l :: xf), y)
    /\ length xf = length xs.
Proof.
  unfold plot._fix_latlon.
  assert (E : forallb (fun v => plot.lt v (Some l)) (Some l :: xs) = false).
  { cbn. replace (Qle_bool l l) with true; [reflexivity|].
    symmetry. apply Qle_bool_true. lra. }
  rewrite E.
  destruct (fix_loop_head (plot.fix_fuel (Some l) (Some l :: xs)) l xs)
    as (xf & Hxf & Hlen).
  exists xf. rewrite Hxf. split; [reflexivity|exact Hlen].
Qed.

Lemma fix_poles_shape (ys : list plot.float) (rows : list (list plot.float)) :
  ys <> [] -> rows <> [] ->
  exists y' rows',
    plot._fix_poles ys (plot.Array2 rows) = Ok (y', plot.Array2 rows')
    /\ length y' = (length ys + 2)%nat
    /\ length rows' = (length rows + 2)%nat.
Proof.
  intros Hy Hrows. destruct rows as [|first rows]; [congruence|].
  destruct ys as [|y0 ys]; [congruence|].
  unfold plot._fix_poles. eexists _, _. split; [reflexivity|].
  split; rewrite !length_app; cbn [length]; lia.
Qed.

Lemma last_cons_default {A} (t : list A) (a d : A) :
  List.last (a :: t) d = List.last t a.
Proof.
  revert a d. induction t as [|b t IH]; intros a d; [reflexivity|].
  change (List.last (a :: b :: t) d) with (List.last (b :: t) d).
  rewrite (IH b d), (IH b a). reflexivity.
Qed.

Lemma lookup_last_default {A} (t : list A) (d : A) :
  (d :: t) !! length t = Some (List.last t d).
Proof.
  revert d. induction t as [|a t IH]; intros d; [reflexivity|].
  cbn [length]. change ((d :: a :: t) !! S (length t)) with ((a :: t) !! length t).
  rewrite IH, last_cons_default. reflexivity.
Qed.

Lemma Qfloor_unique (y : Q) (m : Z) :
  inject_Z m <= y -> y < inject_Z (m + 1) -> Qfloor y = m.
Proof.
  intros Hlo Hhi.
  pose proof (Qfloor_le y) as Hfl. pose proof (Qlt_floor y) as Hfh.
  assert (H1 : inject_Z (Qfloor y) < inject_Z (m + 1)) by lra.
  assert (H2 : inject_Z m < inject_Z (Qfloor y + 1)) by lra.
  rewrite <- Zlt_Qlt in H1, H2. lia.
Qed.

Lemma Qfloor_shift (a : Q) (k : Z) :
  Qfloor (a + inject_Z k) = (Qfloor a + k)%Z.
Proof.
  pose proof (Qfloor_le a) as Hfl. pose proof (Qlt_floor a) as Hfh.
  apply Qfloor_unique.
  - rewrite inject_Z_plus. lra.
  - replace (Qfloor a + k + 1)%Z with ((Qfloor a + 1) + k)%Z by lia.
    rewrite (inject_Z_plus (Qfloor a + 1) k). lra.
Qed.

(** The test of the seam, [x[0] % 360 != (x[-1] + 360) % 360], is false
    exactly when the last longitude is finite and a whole number of turns
    away from the first. *)
Lemma seam_test (l : Q) (v : plot.float) :
  plot.ne (plot.mod360 (Some l)) (plot.mod360 (plot.add v 360)) = false
  <-> exists q, v = Some q /\ exists k : Z, q - l == 360 * inject_Z k.
Proof.
  destruct v as [q|]; cbn [plot.add plot.mod360 plot.ne]; split.
  - intros E. apply negb_false_iff, Qeq_bool_iff in E.
    exists q. split; [reflexivity|].
    exists (Qfloor ((q + 360) / 360) - 1 - Qfloor (l / 360))%Z.
    unfold Z.sub. rewrite !inject_Z_plus, !inject_Z_opp.
    change (inject_Z 1) with 1. lra.
  - intros (q' & Eq & k & Hk). injection Eq as <-.
    apply negb_false_iff, Qeq_bool_iff.
    assert (Hd : (q + 360) / 360 == l / 360 + inject_Z (k + 1)).
    { rewrite inject_Z_plus. change (inject_Z 1) with 1.
      assert (Hq : q == l + 360 * inject_Z k) by lra.
      rewrite Hq. field. }
    rewrite Hd, Qfloor_shift, !inject_Z_plus. change (inject_Z 1) with 1. lra.
  - discriminate.
  - intros (q & Eq & _). discriminate.
Qed.

(** The last longitude after [_fix_latlon]: [nan] when it was [nan],
    and otherwise a whole number of turns away from where it was. *)
Lemma fix_latlon_last (l : Q) (xs : list plot.float) (y : plot.ndarray) :
  exists xf,
    plot._fix_latlon (plot.Array1 (Some l :: xs)) y
    = Ok (plot.Array1 (Some l :: xf), y)
    /\ length xf = length xs
    /\ match List.last xs (Some l) with
       | Some p => exists (q : Q) (k : nat),
                     List.last xf (Some l) = Some q
                     /\ q == p + 360 * inject_Z (Z.of_nat k)
       | None => List.last xf (Some l) = None
       end.
Proof.
  destruct (fix_latlon_head l xs y) as (xf & Hfix & Hlen).
  exists xf. split; [exact Hfix|]. split; [exact Hlen|].
  assert (Hres : plot.fix_loop (plot.fix_fuel (Some l) (Some l :: xs)) (Some l)
                   (Some l :: xs) = Some l :: xf).
  { unfold plot._fix_latlon in Hfix.
    assert (E : forallb (fun v => plot.lt v (Some l)) (Some l :: xs) = false).
    { cbn. replace (Qle_bool l l) with true; [reflexivity|].
      symmetry. apply Qle_bool_true. lra. }
    rewrite E in Hfix. congruence. }
  assert (Hfuel : (foldr Nat.max 0%nat (map (plot.passes (Some l)) (Some l :: xs))
                   < plot.fix_fuel (Some l) (Some l :: xs))%nat)
    by (unfold plot.fix_fuel; lia).
  pose proof (fix_loop_entries _ l (Some l :: xs) Hfuel (length xs)) as H.
  rewrite Hres in H. unfold plot.float in *.
  rewrite lookup_last_default in H. rewrite <- Hlen in H.
  rewrite lookup_last_default in H.
  destruct (List.last xs (Some l)) as [p|].
  - destruct H as (q & k & Hq & Hqk & _). exists q, k.
    split; [congruence|exact Hqk].
  - congruence.
Qed.

(** X29: [_fix_cartopy] on one dimensional coordinates and two dimensional
    data arrays with at least one row each; the longitudes are whole
    numbers of degrees (of magnitude at most 2^50, where the additions
    and the remainders are exact in float64) or [nan], the first one
    finite, and [y] is not empty.  Without [globe] the data arrays are
    returned as they are, behind the coordinates of [_fix_latlon].  With
    [globe] every data array gets two more rows, and the latitudes get
    two more entries for each data array, since the loop adds the poles
    to the latitudes it got from the data array before.  The longitudes
    are those of [_fix_latlon] when there is no data array, or when the
    last longitude given is finite and a whole number of turns away from
    the first; with a data array and any other last longitude ([nan]
    too), the first longitude plus 360 is appended and every row of the
    data ends with a copy of its first entry. *)
Theorem fix_cartopy_shapes (l : Q) (xs ys : list plot.float)
    (Zs : list (list (list plot.float))) :
  plot.whole l -> Forall plot.whole_or_nan xs ->
  ys <> [] -> Forall (fun rows => rows <> []) Zs ->
  exists xf,
    plot._fix_latlon (plot.Array1 (Some l :: xs)) (plot.Array1 ys)
    = Ok (plot.Array1 (Some l :: xf), plot.Array1 ys)
    /\ plot._fix_cartopy (plot.Array1 (Some l :: xs)) (plot.Array1 ys)
         (map plot.Array2 Zs) false
       = Ok (plot.Array1 (Some l :: xf), plot.Array1 ys, map plot.Array2 Zs)
    /\ exists x' y' Zs',
         plot._fix_cartopy (plot.Array1 (Some l :: xs)) (plot.Array1 ys)
           (map plot.Array2 Zs) true
         = Ok (plot.Array1 x', plot.Array1 y', map plot.Array2 Zs')
         /\ (Zs = [] -> x' = Some l :: xf)
         /\ (Zs <> [] ->
             (exists b, List.last xs (Some l) = Some b
                        /\ exists k : Z, b - l == 360 * inject_Z k) ->
             x' = Some l :: xf)
         /\ (Zs <> [] ->
             (forall b, List.last xs (Some l) = Some b ->
                        ~ exists k : Z, b - l == 360 * inject_Z k) ->
             x' = (Some l :: xf) ++ [Some (l + 360)]
             /\ Forall (Forall (fun r' => exists r, r' = r ++ take 1 r)) Zs')
         /\ length y' = (length ys + 2 * length Zs)%nat
         /\ Forall2 (fun rows rows' => length rows' = (length rows + 2)%nat) Zs Zs'.
Proof.
  intros _ _ Hys HZs.
  destruct (fix_latlon_last l xs (plot.Array1 ys)) as (xf & Hfix & _ & Hlast).
  exists xf. split; [exact Hfix|].
  unfold plot._fix_cartopy. rewrite Hfix. cbn [mbind result_bind].
  split.
  - cbn [negb orb].
    match goal with |- foldl ?f _ _ = _ => set (F0 := f) end.
    assert (Hgen0 : forall Zs0 acc,
              foldl F0 (Ok (plot.Array1 (Some l :: xf), plot.Array1 ys,
                            map plot.Array2 acc))
                (map plot.Array2 Zs0)
              = Ok (plot.Array1 (Some l :: xf), plot.Array1 ys,
                    map plot.Array2 (acc ++ Zs0))).
    { induction Zs0 as [|rows Zs0 IH]; intros acc.
      - rewrite app_nil_r. reflexivity.
      - cbn [map foldl]. unfold F0 at 2. cbn [mbind result_bind].
        change (map plot.Array2 acc ++ [plot.Array2 rows])
          with (map plot.Array2 acc ++ map plot.Array2 [rows]).
        rewrite <- map_app, IH, <- app_assoc. reflexivity. }
    exact (Hgen0 Zs []).
  - cbn [negb orb].
    pose (c := plot.ne (plot.mod360 (Some l))
                 (plot.mod360 (plot.add (List.last xf (Some l)) 360))).
    assert (Hc : plot.ne (plot.mod360 (Some l))
                   (plot.mod360 (plot.add (List.last (Some l :: xf) (Some l)) 360))
                 = c).
    { unfold c. do 3 f_equal. apply last_cons_default. }
    set (F := fun (acc : result (plot.ndarray * plot.ndarray * list plot.ndarray))
                  (Z : plot.ndarray) => _).
    set (A := (Some l :: xf) ++ [Some (l + 360)]).
    set (closed := Forall (fun r' : list plot.float => exists r, r' = r ++ take 1 r)).
    assert (Hgen : forall Zs, Forall (fun rows => rows <> []) Zs ->
              forall xcur ycur acc,
                ycur <> [] ->
                exists x' y' Zs',
                  foldl F (Ok (plot.Array1 xcur, plot.Array1 ycur,
                               map plot.Array2 acc))
                    (map plot.Array2 Zs)
                  = Ok (plot.Array1 x', plot.Array1 y', map plot.Array2 (acc ++ Zs'))
                  /\ (Zs = [] -> x' = xcur)
                  /\ (Zs <> [] -> c = false -> x' = xcur)
                  /\ (Zs <> [] -> c = true -> x' = A)
                  /\ (c = true -> Forall closed Zs')
                  /\ length y' = (length ycur + 2 * length Zs)%nat
                  /\ Forall2 (fun rows rows' => length rows' = (length rows + 2)%nat)
                       Zs Zs').
    { clear Zs HZs. intros Zs HZs.
      induction HZs as [|rows Zs Hrows _ IH]; intros xcur ycur acc Hy.
      - exists xcur, ycur, []. rewrite app_nil_r. cbn [map foldl length].
        split; [reflexivity|]. split; [reflexivity|].
        split; [congruence|]. split; [congruence|].
        split; [constructor|]. split; [lia|constructor].
      - cbn [map foldl].
        destruct (fix_poles_shape ycur rows Hy Hrows) as (y1 & rows1 & Hp & Hly & Hlr).
        assert (Hy1 : y1 <> []) by (intros ->; cbn in Hly; lia).
        assert (Hstep : exists xnext rows2,
                   F (Ok (plot.Array1 xcur, plot.Array1 ycur, map plot.Array2 acc))
                     (plot.Array2 rows)
                   = Ok (plot.Array1 xnext, plot.Array1 y1,
                         map plot.Array2 (acc ++ [rows2]))
                   /\ (c = false -> xnext = xcur)
                   /\ (c = true -> xnext = A /\ closed rows2)
                   /\ length rows2 = (length rows + 2)%nat).
        { unfold F. cbn [mbind result_bind plot.ndim Nat.ltb Nat.leb orb].
          rewrite Hp. cbn [mbind result_bind].
          unfold plot.float in *. rewrite Hc.
          destruct c.
          - exists A, (map (fun r => r ++ take 1 r) rows1).
            rewrite map_app. split; [reflexivity|].
            split; [discriminate|].
            split; [|rewrite length_map; exact Hlr].
            intros _. split; [reflexivity|].
            unfold closed. rewrite Forall_map. apply Forall_forall.
            intros r _. exists r. reflexivity.
          - exists xcur, rows1. rewrite map_app. split; [reflexivity|].
            split; [reflexivity|]. split; [discriminate|exact Hlr]. }
        destruct Hstep as (xnext & rows2 & Hstep & Hxf & Hxt & Hl2).
        rewrite Hstep.
        destruct (IH xnext y1 (acc ++ [rows2]) Hy1)
          as (x' & y' & Zs' & Hfold & Hx0 & Hxc & Hxo & Hcl & Hy' & HZ').
        exists x', y', (rows2 :: Zs').
        split; [rewrite Hfold, <- app_assoc; reflexivity|].
        split; [discriminate|].
        split.
        { intros _ Ec. destruct Zs as [|rows' Zs].
          - rewrite (Hx0 eq_refl). exact (Hxf Ec).
          - rewrite (Hxc ltac:(discriminate) Ec). exact (Hxf Ec). }
        split.
        { intros _ Ec. destruct Zs as [|rows' Zs].
          - rewrite (Hx0 eq_refl). exact (proj1 (Hxt Ec)).
          - exact (Hxo ltac:(discriminate) Ec). }
        split.
        { intros Ec. constructor; [exact (proj2 (Hxt Ec))|exact (Hcl Ec)]. }
        split; [cbn [length]; lia|].
        constructor; assumption. }
    destruct (Hgen Zs HZs (Some l :: xf) ys [] Hys)
      as (x' & y' & Zs' & Hfold & Hx0 & Hxc & Hxo & Hcl & Hy' & HZ').
    exists x', y', Zs'. split; [exact Hfold|].
    split; [exact Hx0|].
    split.
    { intros Hne (b & Eb & k & Hk). apply (Hxc Hne).
      apply seam_test. rewrite Eb in Hlast.
      destruct Hlast as (q & n & Eq & Hq).
      exists q. split; [exact Eq|].
      exists (k + Z.of_nat n)%Z. rewrite inject_Z_plus. lra. }
    split.
    { intros Hne Hopen.
      assert (Ec : c = true).
      { destruct c eqn:Ec; [reflexivity|]. exfalso.
        apply seam_test in Ec. destruct Ec as (q & Eq & k & Hk).
        destruct (List.last xs (Some l)) as [p|] eqn:Ep.
        - destruct Hlast as (q' & n & Eq' & Hq').
          assert (q' = q) by congruence. subst q'.
          apply (Hopen p eq_refl). exists (k - Z.of_nat n)%Z.
          unfold Z.sub. rewrite inject_Z_plus, inject_Z_opp. lra.
        - congruence. }
      split; [exact (Hxo Hne Ec)|exact (Hcl Ec)]. }
    split; [exact Hy'|exact HZ'].
Qed.

Lemma fix_cartopy_shapes_witness :
  exists xf,
    plot._fix_latlon (plot.Array1 (Some 0 :: [Some 120; Some 240]))
      (plot.Array1 [Some (- (45)); Some 45])
    = Ok (plot.Array1 (Some 0 :: xf), plot.Array1 [Some (- (45)); Some 45])
    /\ plot._fix_cartopy (plot.Array1 (Some 0 :: [Some 120; Some 240]))
         (plot.Array1 [Some (- (45)); Some 45])
         (map plot.Array2 [[[Some 1; Some 2; Some 3]; [Some 4; Some 5; Some 6]]])
         false
       = Ok (plot.Array1 (Some 0 :: xf), plot.Array1 [Some (- (45)); Some 45],
             map plot.Array2 [[[Some 1; Some 2; Some 3]; [Some 4; Some 5; Some 6]]])
    /\ exists x' y' Zs',
         plot._fix_cartopy (plot.Array1 (Some 0 :: [Some 120; Some 240]))
           (plot.Array1 [Some (- (45)); Some 45])
           (map plot.Array2 [[[Some 1; Some 2; Some 3]; [Some 4; Some 5; Some 6]]])
           true
         = Ok (plot.Array1 x', plot.Array1 y', map plot.Array2 Zs')
         /\ ([[[Some 1; Some 2; Some 3]; [Some 4; Some 5; Some 6]]]%Q = []
             -> x' = Some 0 :: xf)
         /\ ([[[Some 1; Some 2; Some 3]; [Some 4; Some 5; Some 6]]]%Q <> [] ->
             (exists b, List.last [Some 120; Some 240] (Some 0) = Some b
                        /\ exists k : Z, b - 0 == 360 * inject_Z k) ->
             x' = Some 0 :: xf)
         /\ ([[[Some 1; Some 2; Some 3]; [Some 4; Some 5; Some 6]]]%Q <> [] ->
             (forall b, List.last [Some 120; Some 240] (Some 0) = Some b ->
                        ~ exists k : Z, b - 0 == 360 * inject_Z k) ->
             x' = (Some 0 :: xf) ++ [Some (0 + 360)]
             /\ Forall (Forall (fun r' => exists r, r' = r ++ take 1 r)) Zs')
         /\ length y'
            = (length [Some (- (45)); Some 45]%Q
               + 2 * length [[[Some 1; Some 2; Some 3]; [Some 4; Some 5; Some 6]]]%Q)%nat
         /\ Forall2 (fun rows rows' => length rows' = (length rows + 2)%nat)
              [[[Some 1; Some 2; Some 3]; [Some 4; Some 5; Some 6]]] Zs'.
Proof.
  apply (fix_cartopy_shapes 0 [Some 120; Some 240] [Some (- (45)); Some 45]
           [[[Some 1; Some 2; Some 3]; [Some 4; Some 5; Some 6]]]).
  - exists 0%Z. split; [reflexivity|]. cbn. lia.
  - repeat constructor.
    + exists 120%Z. split; [reflexivity|]. cbn. lia.
    + exists 240%Z. split; [reflexivity|]. cbn. lia.
  - discriminate.
  - repeat constructor. discriminate.
Defined.

(** ** [LinearSegmentedNorm.__init__] *)

